(** * execnet gateway_base: wire format, serializer, unserializer, channels

    A shallow embedding of [src/execnet/gateway_base.py] (Python 3 reading of
    the module: [ISPY3] is true, so [bytes] and [str] are distinct types,
    [load_long] is [load_int] and [load_longlong] is [load_longint]).

    Conventions of the embedding
    - a Python [bytes] object is a [list byte];
    - a Python [str] is the list of its code points;
    - a Python [int] is a [Z]; fixed-width packing is written out;
    - a raised exception is the [inl] branch of a sum;
    - objects that are mutated in place and shared (channels, the factory,
      the transport) live in explicit state records that are threaded
      through the operations. *)

From Stdlib Require Import ZArith NArith List Lia Bool.
From Stdlib.Strings Require Import String Ascii Byte.
From Stdlib Require Import DecimalString DecimalZ DecimalN DecimalPos DecimalNat Decimal.
From stdpp Require Import base option list sorting gmap.

Import ListNotations.
Local Open Scope Z_scope.

(** ** Strings as the opcode builder uses them *)

Module PyStr.

(** [str.upper] on one ASCII character. *)
Definition upper_ascii (c : ascii) : ascii :=
  let n := nat_of_ascii c in
  if ((97 <=? n)%nat && (n <=? 122)%nat)%bool then ascii_of_nat (n - 32) else c.

(** [s.upper()] *)
Fixpoint upper (s : string) : string :=
  match s with
  | EmptyString => EmptyString
  | String c s' => String (upper_ascii c) (upper s')
  end.

(** [s.startswith(p)] *)
Definition startswith (p s : string) : bool := String.prefix p s.

(** [s[n:]] *)
Fixpoint drop (n : nat) (s : string) : string :=
  match n, s with
  | O, _ => s
  | S n', String _ s' => drop n' s'
  | S _, EmptyString => EmptyString
  end.

(** Python compares [str] values lexicographically by code point. *)
Definition le (s1 s2 : string) : Prop := String.leb s1 s2 = true.

End PyStr.

#[global] Instance byte_eq_decision : EqDecision byte := Byte.byte_eq_dec.

(** ** Python values that travel over the wire *)

(** The objects the serializer can be handed.  [VFloat] carries the IEEE-754
    binary64 image of the float (what [struct.pack("!d", f)] lays out, as a
    number below 2^64); [VStr] carries code points; [VDict], [VSet] and
    [VFrozenset] carry their entries in iteration order; [VChannel] is a
    [Channel] object, of which only the immutable [id] is ever serialized;
    [VRemoteError] is a [RemoteError] instance; [VObject] is an instance of
    any other class, named by [type(obj).__name__]. *)
Unset Elimination Schemes.
Inductive value : Type :=
| VNone
| VBool (b : bool)
| VInt (i : Z)
| VFloat (bits : N)
| VBytes (s : list byte)
| VStr (s : list N)
| VList (l : list value)
| VDict (d : list (value * value))
| VTuple (l : list value)
| VSet (l : list value)
| VFrozenset (l : list value)
| VChannel (id : Z)
| VRemoteError (formatted : value)
| VObject (tp : string).
Set Elimination Schemes.

(** Induction through the nested lists. *)
Section value_induction.
Variable P : value -> Prop.
Hypothesis HNone : P VNone.
Hypothesis HBool : forall b, P (VBool b).
Hypothesis HInt : forall i, P (VInt i).
Hypothesis HFloat : forall f, P (VFloat f).
Hypothesis HBytes : forall s, P (VBytes s).
Hypothesis HStr : forall s, P (VStr s).
Hypothesis HList : forall l, Forall P l -> P (VList l).
Hypothesis HDict : forall d, Forall (fun kv => P (fst kv) /\ P (snd kv)) d -> P (VDict d).
Hypothesis HTuple : forall l, Forall P l -> P (VTuple l).
Hypothesis HSet : forall l, Forall P l -> P (VSet l).
Hypothesis HFrozenset : forall l, Forall P l -> P (VFrozenset l).
Hypothesis HChannel : forall id, P (VChannel id).
Hypothesis HRemoteError : forall v, P v -> P (VRemoteError v).
Hypothesis HObject : forall tp, P (VObject tp).

Fixpoint value_nested_ind (v : value) : P v :=
  let fix go (l : list value) : Forall P l :=
    match l with
    | [] => List.Forall_nil _
    | x :: l' => @List.Forall_cons _ P x l' (value_nested_ind x) (go l')
    end in
  let fix go2 (d : list (value * value))
      : Forall (fun kv => P (fst kv) /\ P (snd kv)) d :=
    match d with
    | [] => List.Forall_nil _
    | (k, x) :: d' =>
        @List.Forall_cons _ (fun kv => P (fst kv) /\ P (snd kv)) (k, x) d'
          (conj (value_nested_ind k) (value_nested_ind x)) (go2 d')
    end in
  match v with
  | VNone => HNone
  | VBool b => HBool b
  | VInt i => HInt i
  | VFloat f => HFloat f
  | VBytes s => HBytes s
  | VStr s => HStr s
  | VList l => HList l (go l)
  | VDict d => HDict d (go2 d)
  | VTuple l => HTuple l (go l)
  | VSet l => HSet l (go l)
  | VFrozenset l => HFrozenset l (go l)
  | VChannel id => HChannel id
  | VRemoteError e => HRemoteError e (value_nested_ind e)
  | VObject tp => HObject tp
  end.
End value_induction.

(** ** Exceptions *)

(** The exception classes that the modelled code raises or lets through.
    [Raised v] is [raise v] for an exception object held as a value (a
    [RemoteError] instance); [CallbackError] is whatever a user callback
    raised; [TimeoutError] is the module's subclass of [IOError]; [_Stop] is
    the private exception by which [load_stop] ends [Unserializer.load]. *)
Inductive exn : Type :=
| SerializationError (msg : string)
| UnserializationError (msg : string)
| EOFError (msg : string)
| IOError (msg : string)
| TimeoutError (msg : string)
| ValueError (msg : string)
| TypeError (msg : string)
| IndexError (msg : string)
| KeyError (msg : string)
| AttributeError (msg : string)
| AssertionError (msg : string)
| struct_error (msg : string)
| UnicodeDecodeError (msg : string)
| Raised (v : value)
| CallbackError (msg : string)
| ReferenceError (msg : string)
| _Stop.

(** A computation that returns or raises. *)
Definition result (A : Type) : Type := (exn + A)%type.
Definition ret {A} (a : A) : result A := inr a.
Definition raise {A} (e : exn) : result A := inl e.
Definition rbind {A B} (m : result A) (k : A -> result B) : result B :=
  match m with inl e => inl e | inr a => k a end.

Declare Scope result_scope.
Delimit Scope result_scope with result.
Notation "'let!' x ':=' m 'in' k" := (rbind m (fun x => k))
  (at level 10, x pattern, m at level 100, k at level 200) : result_scope.
Local Open Scope result_scope.

(** ** The opcode table *)

Module Opcodes.

(** The function objects defined in the body of [class Unserializer]. *)
Inductive func : Type :=
| f___init__ | f_load
| f_load_none | f_load_true | f_load_false | f_load_int | f_load_longint
| f_load_float | f__read_int4 | f__read_byte_string
| f_load_py3string | f_load_py2string | f_load_bytes | f_load_unicode
| f_load_newlist | f_load_setitem | f_load_newdict | f__load_tuple
| f_load_buildtuple | f_load_set | f_load_frozenset | f_load_stop
| f_load_channel.

(** A class attribute: a function, or plain data. *)
Inductive pyattr : Type :=
| AFunc (f : func)
| AData.

(** [Unserializer.__dict__.items()] in the order of the class body.  Under
    [ISPY3] the names [load_long] and [load_longlong] are bound to the
    functions [load_int] and [load_longint]. *)
Definition Unserializer___dict__ : list (string * pyattr) :=
  [ ("__module__", AData); ("__doc__", AData)
  ; ("num2func", AData); ("py2str_as_py3str", AData)
  ; ("py3str_as_py2str", AData)
  ; ("__init__", AFunc f___init__); ("load", AFunc f_load)
  ; ("load_none", AFunc f_load_none); ("load_true", AFunc f_load_true)
  ; ("load_false", AFunc f_load_false); ("load_int", AFunc f_load_int)
  ; ("load_longint", AFunc f_load_longint)
  ; ("load_long", AFunc f_load_int)
  ; ("load_longlong", AFunc f_load_longint)
  ; ("load_float", AFunc f_load_float)
  ; ("_read_int4", AFunc f__read_int4)
  ; ("_read_byte_string", AFunc f__read_byte_string)
  ; ("load_py3string", AFunc f_load_py3string)
  ; ("load_py2string", AFunc f_load_py2string)
  ; ("load_bytes", AFunc f_load_bytes)
  ; ("load_unicode", AFunc f_load_unicode)
  ; ("load_newlist", AFunc f_load_newlist)
  ; ("load_setitem", AFunc f_load_setitem)
  ; ("load_newdict", AFunc f_load_newdict)
  ; ("_load_tuple", AFunc f__load_tuple)
  ; ("load_buildtuple", AFunc f_load_buildtuple)
  ; ("load_set", AFunc f_load_set)
  ; ("load_frozenset", AFunc f_load_frozenset)
  ; ("load_stop", AFunc f_load_stop)
  ; ("load_channel", AFunc f_load_channel) ]%string.

(** The first loop of [_buildopcodes]: keep the [load_] names, upper-cased
    without the prefix. *)
Fixpoint collect (items : list (string * pyattr)) : list (string * pyattr) :=
  match items with
  | [] => []
  | (name, func) :: items' =>
      if PyStr.startswith "load_" name
      then (PyStr.upper (PyStr.drop 5 name), func) :: collect items'
      else collect items'
  end.

(** [l.sort()] orders the pairs by their first component (the names are
    pairwise different, so the second component is never compared). *)
Definition entry_le (x y : string * pyattr) : Prop := PyStr.le (fst x) (fst y).

#[global] Instance entry_le_dec : RelDecision entry_le.
Proof. intros x y. unfold entry_le, PyStr.le. apply _. Defined.

Definition sort (l : list (string * pyattr)) : list (string * pyattr) :=
  merge_sort entry_le l.

(** [b(chr(n))]: the one-character string encoded as latin-1. *)
Definition b_chr (n : nat) : result byte :=
  match Byte.of_nat n with
  | Some c => ret c
  | None => raise (ValueError "chr() arg not encodable in latin-1")
  end.

(** The tables that [_buildopcodes] fills: [Unserializer.num2func] and the
    attributes of [class opcode]. *)
Record tables : Type := {
  num2func : list (byte * pyattr);
  opcode : list (string * byte)
}.

(** The second loop of [_buildopcodes], from index [i] on. *)
Fixpoint assign (i : nat) (l : list (string * pyattr)) (t : tables)
  : result tables :=
  match l with
  | [] => ret t
  | (opname, func) :: l' =>
      if negb (i <? 26)%nat then raise (AssertionError "xxx") else
      let! c := b_chr (64 + i) in
      assign (S i) l'
        {| num2func := num2func t ++ [(c, func)];
           opcode := opcode t ++ [(opname, c)] |}
  end.

Definition _buildopcodes_from (items : list (string * pyattr)) : result tables :=
  assign 0 (sort (collect items)) {| num2func := []; opcode := [] |}.

Definition _buildopcodes : result tables :=
  _buildopcodes_from Unserializer___dict__.

End Opcodes.

(** The attributes of [class opcode] after [_buildopcodes()] has run at
    import time. *)
Module opcode.
Import Opcodes.

Definition table : list (string * byte) :=
  match _buildopcodes with
  | inr t => Opcodes.opcode t
  | inl _ => []
  end.

Definition getattr (name : string) : byte :=
  match find (fun e => String.eqb (fst e) name) table with
  | Some e => snd e
  | None => x00
  end.

Definition BUILDTUPLE : byte := Eval vm_compute in getattr "BUILDTUPLE".
Definition BYTES : byte := Eval vm_compute in getattr "BYTES".
Definition CHANNEL : byte := Eval vm_compute in getattr "CHANNEL".
Definition FALSE : byte := Eval vm_compute in getattr "FALSE".
Definition FLOAT : byte := Eval vm_compute in getattr "FLOAT".
Definition FROZENSET : byte := Eval vm_compute in getattr "FROZENSET".
Definition INT : byte := Eval vm_compute in getattr "INT".
Definition LONG : byte := Eval vm_compute in getattr "LONG".
Definition LONGINT : byte := Eval vm_compute in getattr "LONGINT".
Definition LONGLONG : byte := Eval vm_compute in getattr "LONGLONG".
Definition NEWDICT : byte := Eval vm_compute in getattr "NEWDICT".
Definition NEWLIST : byte := Eval vm_compute in getattr "NEWLIST".
Definition NONE : byte := Eval vm_compute in getattr "NONE".
Definition PY2STRING : byte := Eval vm_compute in getattr "PY2STRING".
Definition PY3STRING : byte := Eval vm_compute in getattr "PY3STRING".
Definition SET : byte := Eval vm_compute in getattr "SET".
Definition SETITEM : byte := Eval vm_compute in getattr "SETITEM".
Definition STOP : byte := Eval vm_compute in getattr "STOP".
Definition TRUE : byte := Eval vm_compute in getattr "TRUE".
Definition UNICODE : byte := Eval vm_compute in getattr "UNICODE".
End opcode.

(** [Unserializer.num2func] after [_buildopcodes()] has run. *)
Definition num2func : list (byte * Opcodes.pyattr) :=
  Eval vm_compute in
  match Opcodes._buildopcodes with
  | inr t => Opcodes.num2func t
  | inl _ => []
  end.

(** ** [struct] packing *)

Module Struct.

Definition byte_of_N (n : N) : byte :=
  match Byte.of_N n with Some c => c | None => x00 end.

(** The [k] low-order bytes of [n], most significant first. *)
Fixpoint be_bytes (k : nat) (n : N) : list byte :=
  match k with
  | O => []
  | S k' => be_bytes k' (n / 256)%N ++ [byte_of_N (n mod 256)%N]
  end.

(** The number a big-endian byte string denotes. *)
Definition be_value (bs : list byte) : N :=
  fold_left (fun acc c => (acc * 256 + Byte.to_N c)%N) bs 0%N.

(** [struct.pack("!i", i)]: four bytes, two's complement, big-endian;
    [struct.error] outside the signed 32-bit range. *)
Definition pack_i (i : Z) : result (list byte) :=
  if ((-2147483648 <=? i) && (i <=? 2147483647))%bool
  then ret (be_bytes 4 (Z.to_N (i mod 4294967296)))
  else raise (struct_error "'i' format requires -2147483648 <= number <= 2147483647").

(** [struct.unpack("!i", data)[0]] *)
Definition unpack_i (data : list byte) : result Z :=
  if (length data =? 4)%nat
  then let u := Z.of_N (be_value data) in
       ret (if u <? 2147483648 then u else u - 4294967296)
  else raise (struct_error "unpack requires a buffer of 4 bytes").

(** [struct.pack("!d", flt)] on a float given by its binary64 image. *)
Definition pack_d (bits : N) : list byte := be_bytes 8 bits.

(** [struct.unpack("!d", data)[0]] *)
Definition unpack_d (data : list byte) : result N :=
  if (length data =? 8)%nat
  then ret (be_value data)
  else raise (struct_error "unpack requires a buffer of 8 bytes").

End Struct.

(** ** Text codecs and integer literals *)

Module Codec.
Import Struct.

(** One code point in UTF-8; [None] is [UnicodeEncodeError] (surrogates,
    and anything beyond U+10FFFF, cannot be encoded). *)
Definition utf8_encode_cp (c : N) : option (list byte) :=
  (if c <? 0x80 then Some [byte_of_N c]
   else if c <? 0x800 then
     Some [byte_of_N (0xC0 + c / 64); byte_of_N (0x80 + c mod 64)]
   else if c <? 0x10000 then
     if (0xD800 <=? c) && (c <=? 0xDFFF) then None
     else Some [byte_of_N (0xE0 + c / 4096);
                byte_of_N (0x80 + (c / 64) mod 64);
                byte_of_N (0x80 + c mod 64)]
   else if c <? 0x110000 then
     Some [byte_of_N (0xF0 + c / 262144);
           byte_of_N (0x80 + (c / 4096) mod 64);
           byte_of_N (0x80 + (c / 64) mod 64);
           byte_of_N (0x80 + c mod 64)]
   else None)%N.

(** [s.encode("utf-8")] *)
Fixpoint utf8_encode (s : list N) : option (list byte) :=
  match s with
  | [] => Some []
  | c :: s' =>
      match utf8_encode_cp c, utf8_encode s' with
      | Some bs, Some rest => Some (bs ++ rest)
      | _, _ => None
      end
  end.

Definition is_cont (c : byte) : bool :=
  ((0x80 <=? Byte.to_N c) && (Byte.to_N c <? 0xC0))%N.

Definition cont (c : byte) : N := (Byte.to_N c - 0x80)%N.

(** [data.decode("utf-8")], strict: [None] is [UnicodeDecodeError]
    (stray or missing continuation bytes, overlong forms, surrogates,
    code points beyond U+10FFFF). *)
Fixpoint utf8_decode (data : list byte) : option (list N) :=
  match data with
  | [] => Some []
  | b0 :: r0 =>
      let n0 := Byte.to_N b0 in
      if (n0 <? 0x80)%N then cons n0 <$> utf8_decode r0
      else if (n0 <? 0xC2)%N then None
      else if (n0 <? 0xE0)%N then
        match r0 with
        | b1 :: r1 =>
            if is_cont b1
            then cons ((n0 - 0xC0) * 64 + cont b1)%N <$> utf8_decode r1
            else None
        | _ => None
        end
      else if (n0 <? 0xF0)%N then
        match r0 with
        | b1 :: b2 :: r2 =>
            let c := ((n0 - 0xE0) * 4096 + cont b1 * 64 + cont b2)%N in
            if is_cont b1 && is_cont b2 && (0x800 <=? c)%N
               && negb ((0xD800 <=? c) && (c <=? 0xDFFF))%N
            then cons c <$> utf8_decode r2
            else None
        | _ => None
        end
      else if (n0 <? 0xF5)%N then
        match r0 with
        | b1 :: b2 :: b3 :: r3 =>
            let c := ((n0 - 0xF0) * 262144 + cont b1 * 4096
                      + cont b2 * 64 + cont b3)%N in
            if is_cont b1 && is_cont b2 && is_cont b3
               && (0x10000 <=? c)%N && (c <? 0x110000)%N
            then cons c <$> utf8_decode r3
            else None
        | _ => None
        end
      else None
  end.

(** [data.decode("latin-1")] *)
Definition latin1_decode (data : list byte) : list N := map Byte.to_N data.

(** The decimal digits of a [Decimal.uint], as ASCII. *)
Fixpoint uint_ascii (u : Decimal.uint) : list byte :=
  match u with
  | Nil => []
  | D0 u' => "0"%byte :: uint_ascii u'
  | D1 u' => "1"%byte :: uint_ascii u'
  | D2 u' => "2"%byte :: uint_ascii u'
  | D3 u' => "3"%byte :: uint_ascii u'
  | D4 u' => "4"%byte :: uint_ascii u'
  | D5 u' => "5"%byte :: uint_ascii u'
  | D6 u' => "6"%byte :: uint_ascii u'
  | D7 u' => "7"%byte :: uint_ascii u'
  | D8 u' => "8"%byte :: uint_ascii u'
  | D9 u' => "9"%byte :: uint_ascii u'
  end.

(** [str(i).rstrip("L").encode("ascii")] (on Python 3 [str] of an [int]
    has no [L] suffix). *)
Definition str_int_ascii (i : Z) : list byte :=
  match Z.to_int i with
  | Decimal.Pos u => uint_ascii u
  | Decimal.Neg u => "-"%byte :: uint_ascii u
  end.

Definition is_space (c : byte) : bool :=
  let n := Byte.to_N c in ((n =? 0x20) || ((0x09 <=? n) && (n <=? 0x0D)))%N.

Fixpoint lstrip (data : list byte) : list byte :=
  match data with
  | c :: data' => if is_space c then lstrip data' else data
  | [] => []
  end.

Definition strip (data : list byte) : list byte :=
  rev (lstrip (rev (lstrip data))).

Definition digit_of (c : byte) : option N :=
  let n := Byte.to_N c in
  if ((0x30 <=? n) && (n <=? 0x39))%N then Some (n - 0x30)%N else None.

(** Decimal digits, single underscores allowed between digits. *)
Fixpoint parse_digits (acc : N) (after_digit : bool) (data : list byte)
  : option N :=
  match data with
  | [] => if after_digit then Some acc else None
  | c :: data' =>
      match digit_of c with
      | Some d => parse_digits (acc * 10 + d)%N true data'
      | None =>
          if Byte.eqb c "_"%byte && after_digit
          then parse_digits acc false data'
          else None
      end
  end.

(** [int(data)] on a [bytes] literal in base 10; [None] is [ValueError]. *)
Definition int_of_bytes (data : list byte) : option Z :=
  match strip data with
  | c :: r =>
      if Byte.eqb c "-"%byte then (fun n => - Z.of_N n) <$> parse_digits 0 false r
      else if Byte.eqb c "+"%byte then Z.of_N <$> parse_digits 0 false r
      else Z.of_N <$> parse_digits 0 false (c :: r)
  | [] => None
  end.

End Codec.

(** ** Stateful computations that may raise *)

(** A method that mutates [self : S] and returns or raises.  The state after
    a raise is kept: Python does not roll mutations back. *)
Definition M (S A : Type) : Type := S -> result A * S.

Definition mret {S A} (a : A) : M S A := fun s => (ret a, s).
Definition mraise {S A} (e : exn) : M S A := fun s => (raise e, s).
Definition mbind {S A B} (m : M S A) (k : A -> M S B) : M S B :=
  fun s => match m s with
           | (inl e, s') => (inl e, s')
           | (inr a, s') => k a s'
           end.
Definition mlift {S A} (r : result A) : M S A := fun s => (r, s).
Definition mget {S} : M S S := fun s => (ret s, s).
Definition mmodify {S} (f : S -> S) : M S unit := fun s => (ret tt, f s).

Declare Scope state_scope.
Delimit Scope state_scope with state.
Notation "'let*' x ':=' m 'in' k" := (mbind m (fun x => k))
  (at level 10, x pattern, m at level 100, k at level 200) : state_scope.
Notation "m ';;' k" := (mbind m (fun _ => k))
  (at level 100, k at level 200, right associativity) : state_scope.
Local Open Scope state_scope.

(** ** The transport *)

Module Popen2IO.

(** What the operating system does with a write to [outfile]. *)
Inductive filestate : Type :=
| FOpen      (**r writes go through *)
| FClosed    (**r the file object was closed: [ValueError] *)
| FBroken.   (**r the peer is gone: [IOError] *)

(** [infile] is the bytes still to be read; [written] lists the payloads
    of the [write] calls that reached [outfile], oldest first. *)
Record t : Type := {
  infile : list byte;
  outfile : filestate;
  written : list (list byte)
}.

Definition set_infile (bs : list byte) (io : t) : t :=
  {| infile := bs; outfile := outfile io; written := written io |}.
Definition set_outfile (f : filestate) (io : t) : t :=
  {| infile := infile io; outfile := f; written := written io |}.
Definition set_written (w : list (list byte)) (io : t) : t :=
  {| infile := infile io; outfile := outfile io; written := w |}.

(** [self._read(numbytes)]: a read on the raw stream hands over what is
    there, at most [numbytes] bytes, and nothing at end of file. *)
Definition _read (numbytes : Z) : M t (list byte) :=
  fun io =>
    let k := Z.to_nat (Z.min numbytes (Z.of_nat (length (infile io)))) in
    (ret (take k (infile io)), set_infile (drop k (infile io)) io).

(** The [while] loop of [read]. *)
Fixpoint read_loop (fuel : nat) (numbytes : Z) (buf : list byte)
  : M t (option (list byte)) :=
  if negb (Z.of_nat (length buf) <? numbytes) then mret (Some buf) else
  match fuel with
  | O => mret None
  | S fuel' =>
      let* data := _read numbytes in
      match data with
      | [] => mraise (EOFError "expected more bytes")
      | _ => read_loop fuel' numbytes (buf ++ data)
      end
  end.

(** [read(numbytes)]: every pass of the loop takes a byte off [infile] or
    raises, so one pass per byte of [infile], and one more, is enough
    (see [read_spec]). *)
Definition read (numbytes : Z) : M t (list byte) :=
  fun io =>
    (let* r := read_loop (S (length (infile io))) numbytes [] in
     match r with
     | Some buf => mret buf
     | None => mret []
     end) io.

(** [write(data)]: write and flush. *)
Definition write (data : list byte) : M t unit :=
  fun io =>
    match outfile io with
    | FOpen => (ret tt, set_written (written io ++ [data]) io)
    | FClosed => (raise (ValueError "I/O operation on closed file"), io)
    | FBroken => (raise (IOError "Broken pipe"), io)
    end.

Definition close_write : M t unit := mmodify (set_outfile FClosed).

End Popen2IO.

(** ** The serializer *)

Definition FOUR_BYTE_INT_MAX : Z := 2147483647.

Module Serializer.

(** [streamlist] is the buffer of a write-on-success [save]; [_stream] is
    the transport.  [self._write] is [self.streamlist.append] whenever
    [_save] runs, because the other branch of [save] raises before it
    returns a writer (see [save]); the [dispatch] cache only memoizes the
    method lookup of [_save] and is left out. *)
Record t : Type := {
  WRITE_ON_SUCCESS : bool;
  streamlist : list (list byte);
  _stream : Popen2IO.t
}.

Definition set_streamlist (l : list (list byte)) (s : t) : t :=
  {| WRITE_ON_SUCCESS := WRITE_ON_SUCCESS s; streamlist := l;
     _stream := _stream s |}.
Definition set__stream (io : Popen2IO.t) (s : t) : t :=
  {| WRITE_ON_SUCCESS := WRITE_ON_SUCCESS s; streamlist := streamlist s;
     _stream := io |}.

(** [Serializer(stream)] *)
Definition __init__ (stream : Popen2IO.t) : t :=
  {| WRITE_ON_SUCCESS := true; streamlist := []; _stream := stream |}.

Definition _write (data : list byte) : M t unit :=
  mmodify (fun s => set_streamlist (streamlist s ++ [data]) s).

Definition default_int4_error : string := "int must be less than 2147483647".

Definition _write_int4 (i : Z) (error : string) : M t unit :=
  if i >? FOUR_BYTE_INT_MAX then mraise (SerializationError error) else
  let* packed := mlift (Struct.pack_i i) in
  _write packed.

Definition _write_byte_sequence (bytes_ : list byte) : M t unit :=
  _write_int4 (Z.of_nat (length bytes_)) "string is too long";;
  _write bytes_.

Definition _write_unicode_string (s : list N) : M t unit :=
  match Codec.utf8_encode s with
  | None => mraise (SerializationError "strings must be utf-8 encodable")
  | Some as_bytes => _write_byte_sequence as_bytes
  end.

Definition _save_integral (i : Z) (short_op long_op : byte) : M t unit :=
  if i <=? FOUR_BYTE_INT_MAX then
    _write [short_op];;
    _write_int4 i default_int4_error
  else
    _write [long_op];;
    _write_byte_sequence (Codec.str_int_ascii i).

Definition save_NoneType : M t unit := _write [opcode.NONE].

Definition save_bool (boolean : bool) : M t unit :=
  if boolean then _write [opcode.TRUE] else _write [opcode.FALSE].

Definition save_bytes (bytes_ : list byte) : M t unit :=
  _write [opcode.BYTES];;
  _write_byte_sequence bytes_.

Definition save_str (s : list N) : M t unit :=
  _write [opcode.PY3STRING];;
  _write_unicode_string s.

Definition save_int (i : Z) : M t unit :=
  _save_integral i opcode.INT opcode.LONGINT.

Definition save_long (l : Z) : M t unit :=
  _save_integral l opcode.LONG opcode.LONGLONG.

Definition save_float (flt : N) : M t unit :=
  _write [opcode.FLOAT];;
  _write (Struct.pack_d flt).

Definition save_Channel (id : Z) : M t unit :=
  _write [opcode.CHANNEL];;
  _write_int4 id default_int4_error.

(** [_write_setitem(key, value)], given what [self._save] does on the key
    and on the value. *)
Definition _write_setitem (save_key save_value : M t unit) : M t unit :=
  save_key;;
  save_value;;
  _write [opcode.SETITEM].

(** [_save(obj)]: dispatch on [type(obj).__name__] to the [save_] method,
    with the bodies of the container methods ([save_list], [save_dict],
    [save_tuple], [_write_set]) in place.  A list index is an [int], so
    [self._save(i)] in [save_list] is [save_int i]. *)
Fixpoint _save (obj : value) : M t unit :=
  let for_each_item :=
    fix for_each_item (items : list value) : M t unit :=
      match items with
      | [] => mret tt
      | item :: items' => _save item;; for_each_item items'
      end in
  match obj with
  | VNone => save_NoneType
  | VBool boolean => save_bool boolean
  | VInt i => save_int i
  | VFloat flt => save_float flt
  | VBytes bytes_ => save_bytes bytes_
  | VStr s => save_str s
  | VList L =>
      _write [opcode.NEWLIST];;
      _write_int4 (Z.of_nat (length L)) "list is too long";;
      (fix enumerate (i : Z) (items : list value) : M t unit :=
         match items with
         | [] => mret tt
         | item :: items' =>
             _write_setitem (save_int i) (_save item);;
             enumerate (i + 1) items'
         end) 0 L
  | VDict d =>
      _write [opcode.NEWDICT];;
      (fix items (kvs : list (value * value)) : M t unit :=
         match kvs with
         | [] => mret tt
         | (key, val) :: kvs' =>
             _write_setitem (_save key) (_save val);;
             items kvs'
         end) d
  | VTuple tup =>
      for_each_item tup;;
      _write [opcode.BUILDTUPLE];;
      _write_int4 (Z.of_nat (length tup)) "tuple is too long"
  | VSet s =>
      for_each_item s;;
      _write [opcode.SET];;
      _write_int4 (Z.of_nat (length s)) "set is too long"
  | VFrozenset s =>
      for_each_item s;;
      _write [opcode.FROZENSET];;
      _write_int4 (Z.of_nat (length s)) "set is too long"
  | VChannel id => save_Channel id
  | VRemoteError _ =>
      mraise (SerializationError "can't serialize <class 'RemoteError'>")
  | VObject tp =>
      mraise (SerializationError ("can't serialize " ++ tp))
  end.

(** [save(obj)].  With [WRITE_ON_SUCCESS] the message is collected in
    [streamlist] and handed to the transport in one [write]; without it
    the method looks up [self.stream], an attribute that [__init__] never
    sets (it sets [_stream]), so [AttributeError] is raised first. *)
Definition save (obj : value) : M t unit :=
  let* self := mget in
  if WRITE_ON_SUCCESS self then
    mmodify (set_streamlist []);;
    _save obj;;
    _write [opcode.STOP];;
    let* self := mget in
    let s := concat (streamlist self) in
    fun self =>
      match Popen2IO.write s (_stream self) with
      | (r, io) => (r, set__stream io self)
      end
  else
    mraise (AttributeError "'Serializer' object has no attribute 'stream'").

End Serializer.

(** ** Equality and hashing of Python values *)

Module PyEq.

(** The number a [bool], [int] or [float] denotes, scaled by 2^1075 so
    that every finite binary64 value is an integer. *)
Inductive num : Type :=
| NFin (scaled : Z)
| NPosInf
| NNegInf
| NNan.

Definition int_num (i : Z) : num := NFin (i * 2 ^ 1075).

Definition float_num (bits : N) : num :=
  let sign := ((bits / 2 ^ 63) mod 2)%N in
  let e := ((bits / 2 ^ 52) mod 2 ^ 11)%N in
  let m := (bits mod 2 ^ 52)%N in
  let sgn := if (sign =? 0)%N then 1 else -1 in
  if (e =? 2047)%N then
    if (m =? 0)%N then (if (sign =? 0)%N then NPosInf else NNegInf) else NNan
  else if (e =? 0)%N then NFin (sgn * (Z.of_N m * 2))
  else NFin (sgn * (Z.of_N (2 ^ 52 + m) * 2 ^ Z.of_N e)).

Definition num_of (v : value) : option num :=
  match v with
  | VBool b => Some (int_num (if b then 1 else 0))
  | VInt i => Some (int_num i)
  | VFloat f => Some (float_num f)
  | _ => None
  end.

Definition num_eqb (a b : num) : bool :=
  match a, b with
  | NFin x, NFin y => x =? y
  | NPosInf, NPosInf => true
  | NNegInf, NNegInf => true
  | _, _ => false
  end.

(** [hash(v)] succeeds. *)
Fixpoint hashable (v : value) : bool :=
  match v with
  | VList _ | VDict _ | VSet _ => false
  | VTuple l => forallb hashable l
  | _ => true
  end.

(** [x == y].  Numbers compare by value across [bool], [int] and [float]
    (a NaN equals nothing); sequences compare element-wise; sets and
    dicts compare by size and membership; two [Channel] objects are the
    same object when the factory handed them out for the same id;
    instances of other classes compare by identity and are taken to be
    different objects. *)
Fixpoint py_eqb (x y : value) {struct x} : bool :=
  let seq_eqb :=
    fix seq_eqb (a b : list value) : bool :=
      match a, b with
      | [], [] => true
      | x' :: a', y' :: b' => py_eqb x' y' && seq_eqb a' b'
      | _, _ => false
      end in
  let subset :=
    fix subset (a b : list value) : bool :=
      match a with
      | [] => true
      | x' :: a' => existsb (py_eqb x') b && subset a' b
      end in
  let set_eqb (a b : list value) : bool :=
    (length a =? length b)%nat && subset a b in
  match x with
  | VNone => match y with VNone => true | _ => false end
  | VBool _ | VInt _ | VFloat _ =>
      match num_of x, num_of y with
      | Some n, Some m => num_eqb n m
      | _, _ => false
      end
  | VBytes a => match y with VBytes b => bool_decide (a = b) | _ => false end
  | VStr a => match y with VStr b => bool_decide (a = b) | _ => false end
  | VList a => match y with VList b => seq_eqb a b | _ => false end
  | VTuple a => match y with VTuple b => seq_eqb a b | _ => false end
  | VSet a | VFrozenset a =>
      match y with
      | VSet b | VFrozenset b => set_eqb a b
      | _ => false
      end
  | VDict a =>
      match y with
      | VDict b =>
          (length a =? length b)%nat &&
          (fix items (a : list (value * value)) : bool :=
             match a with
             | [] => true
             | (k, v) :: a' =>
                 existsb (fun kv => py_eqb k (fst kv) && py_eqb v (snd kv)) b
                 && items a'
             end) a
      | _ => false
      end
  | VChannel i => match y with VChannel j => i =? j | _ => false end
  | VRemoteError _ | VObject _ => false
  end.

(** [key in keys] for a hash-based container. *)
Definition contains (keys : list value) (key : value) : bool :=
  existsb (fun k => py_eqb k key) keys.

(** No two entries are equal: what the entries of a set, or the keys of a
    dict, always satisfy. *)
Fixpoint distinct (keys : list value) : bool :=
  match keys with
  | [] => true
  | k :: keys' => negb (existsb (py_eqb k) keys') && distinct keys'
  end.

(** [set(tup)] / [frozenset(tup)]: [TypeError] on an unhashable element;
    an element equal to an earlier one is dropped.  The result lists the
    elements in the order of first insertion. *)
Fixpoint set_of (acc : list value) (tup : list value) : result (list value) :=
  match tup with
  | [] => ret acc
  | x :: tup' =>
      if negb (hashable x) then raise (TypeError "unhashable type")
      else if contains acc x then set_of acc tup'
      else set_of (acc ++ [x]) tup'
  end.

(** [d[key] = val] on a dict given by its items. *)
Fixpoint dict_update (d : list (value * value)) (key val : value)
  : list (value * value) :=
  match d with
  | [] => [(key, val)]
  | (k, v) :: d' =>
      if py_eqb k key then (k, val) :: d' else (k, v) :: dict_update d' key val
  end.

Definition dict_setitem (d : list (value * value)) (key val : value)
  : result (list (value * value)) :=
  if hashable key then ret (dict_update d key val)
  else raise (TypeError "unhashable type").

End PyEq.

(** ** Channels and the channel factory *)

(** What sits in a channel's queue: a payload or the [ENDMARKER] object. *)
Inductive item : Type :=
| Data (v : value)
| ENDMARKER.

(** A user callback.  It is a black box to the gateway: the model records
    every call in the gateway's [calls] log, and [cb_raises] says on which
    arguments the callback raises.  Callbacks are taken not to call back
    into the gateway. *)
Record callback : Type := {
  cb_id : nat;
  cb_raises : value -> bool
}.

Module Channel.

(** The attributes of a [Channel] object.  [gateway_set] is false for a
    channel built with [gateway=None] (as tests do); [_items = None] is
    the state after [setcallback]. *)
Record t : Type := {
  gateway_set : bool;
  id : Z;
  _items : option (list item);
  _closed : bool;
  _receiveclosed : bool;
  _remoteerrors : list value;
  _executing : bool
}.

(** [Channel(gateway, id)] *)
Definition __init__ (id : Z) : t :=
  {| gateway_set := true; id := id; _items := Some []; _closed := false;
     _receiveclosed := false; _remoteerrors := []; _executing := false |}.

Definition set__items (q : option (list item)) (c : t) : t :=
  {| gateway_set := gateway_set c; id := id c; _items := q;
     _closed := _closed c; _receiveclosed := _receiveclosed c;
     _remoteerrors := _remoteerrors c; _executing := _executing c |}.
Definition set__closed (b : bool) (c : t) : t :=
  {| gateway_set := gateway_set c; id := id c; _items := _items c;
     _closed := b; _receiveclosed := _receiveclosed c;
     _remoteerrors := _remoteerrors c; _executing := _executing c |}.
Definition set__receiveclosed (b : bool) (c : t) : t :=
  {| gateway_set := gateway_set c; id := id c; _items := _items c;
     _closed := _closed c; _receiveclosed := b;
     _remoteerrors := _remoteerrors c; _executing := _executing c |}.
Definition set__remoteerrors (l : list value) (c : t) : t :=
  {| gateway_set := gateway_set c; id := id c; _items := _items c;
     _closed := _closed c; _receiveclosed := _receiveclosed c;
     _remoteerrors := l; _executing := _executing c |}.
Definition set__executing (b : bool) (c : t) : t :=
  {| gateway_set := gateway_set c; id := id c; _items := _items c;
     _closed := _closed c; _receiveclosed := _receiveclosed c;
     _remoteerrors := _remoteerrors c; _executing := b |}.

(** [queue.put(x)] on the channel's queue, when it has one. *)
Definition put (x : item) (c : t) : t :=
  match _items c with
  | Some q => set__items (Some (q ++ [x])) c
  | None => c
  end.

End Channel.

Module ChannelFactory.

(** The factory together with the [Channel] objects it has created.
    [objects] maps an object's address to its attributes; user code and
    the receiver hold addresses.  [_channels] is the
    [WeakValueDictionary]: it holds an id only while the object lives.
    [_callbacks] maps an id to [(callback, endmarker)], where the
    endmarker [None] stands for [NO_ENDMARKER_WANTED]. *)
Record t : Type := {
  objects : gmap nat Channel.t;
  next_object : nat;
  _channels : gmap Z nat;
  _callbacks : gmap Z (callback * option value);
  count : Z;
  finished : bool
}.

(** [ChannelFactory(gateway, startcount)] *)
Definition __init__ (startcount : Z) : t :=
  {| objects := ∅; next_object := 0; _channels := ∅; _callbacks := ∅;
     count := startcount; finished := false |}.

Definition set_objects (o : gmap nat Channel.t) (f : t) : t :=
  {| objects := o; next_object := next_object f; _channels := _channels f;
     _callbacks := _callbacks f; count := count f; finished := finished f |}.
Definition set_next_object (n : nat) (f : t) : t :=
  {| objects := objects f; next_object := n; _channels := _channels f;
     _callbacks := _callbacks f; count := count f; finished := finished f |}.
Definition set__channels (m : gmap Z nat) (f : t) : t :=
  {| objects := objects f; next_object := next_object f; _channels := m;
     _callbacks := _callbacks f; count := count f; finished := finished f |}.
Definition set__callbacks (m : gmap Z (callback * option value)) (f : t) : t :=
  {| objects := objects f; next_object := next_object f;
     _channels := _channels f; _callbacks := m; count := count f;
     finished := finished f |}.
Definition set_count (n : Z) (f : t) : t :=
  {| objects := objects f; next_object := next_object f;
     _channels := _channels f; _callbacks := _callbacks f; count := n;
     finished := finished f |}.
Definition set_finished (b : bool) (f : t) : t :=
  {| objects := objects f; next_object := next_object f;
     _channels := _channels f; _callbacks := _callbacks f; count := count f;
     finished := b |}.

(** [new(id=None)]: returns the address of the channel. *)
Definition new (id : option Z) : M t nat :=
  let* self := mget in
  if finished self then mraise (IOError "connexion already closed") else
  let* id :=
    match id with
    | None => mmodify (set_count (count self + 2));; mret (count self)
    | Some id => mret id
    end in
  let* self := mget in
  match _channels self !! id with
  | Some channel => mret channel
  | None =>
      let channel := next_object self in
      mmodify (fun self =>
        set__channels (<[id := channel]> (_channels self))
          (set_next_object (S channel)
             (set_objects (<[channel := Channel.__init__ id]> (objects self))
                self)));;
      mret channel
  end.

(** [channels()]: the live channel objects. *)
Definition channels (self : t) : list Channel.t :=
  omap (fun e => objects self !! snd e) (map_to_list (_channels self)).

End ChannelFactory.

(** ** The unserializer *)

Definition ISPY3 : bool := true.
Definition FLOAT_FORMAT_SIZE : Z := 8.

Module Unserializer.

Record t : Type := {
  stream : Popen2IO.t;
  channelfactory : option ChannelFactory.t;
  stack : list value;
  py2str_as_py3str : bool;
  py3str_as_py2str : bool
}.

(** [Unserializer(stream, channelfactory)] with the class defaults. *)
Definition __init__ (stream : Popen2IO.t)
    (channelfactory : option ChannelFactory.t) : t :=
  {| stream := stream; channelfactory := channelfactory; stack := [];
     py2str_as_py3str := true; py3str_as_py2str := false |}.

Definition set_stream (io : Popen2IO.t) (u : t) : t :=
  {| stream := io; channelfactory := channelfactory u; stack := stack u;
     py2str_as_py3str := py2str_as_py3str u;
     py3str_as_py2str := py3str_as_py2str u |}.
Definition set_channelfactory (f : option ChannelFactory.t) (u : t) : t :=
  {| stream := stream u; channelfactory := f; stack := stack u;
     py2str_as_py3str := py2str_as_py3str u;
     py3str_as_py2str := py3str_as_py2str u |}.
Definition set_stack (st : list value) (u : t) : t :=
  {| stream := stream u; channelfactory := channelfactory u; stack := st;
     py2str_as_py3str := py2str_as_py3str u;
     py3str_as_py2str := py3str_as_py2str u |}.

(** [self.stream.read(n)] *)
Definition stream_read (n : Z) : M t (list byte) :=
  fun self =>
    match Popen2IO.read n (stream self) with
    | (r, io) => (r, set_stream io self)
    end.

(** [self.stack.append(v)] *)
Definition append (v : value) : M t unit :=
  mmodify (fun self => set_stack (stack self ++ [v]) self).

(** [self.stack.pop()] *)
Definition pop : M t value :=
  let* self := mget in
  match rev (stack self) with
  | [] => mraise (IndexError "pop from empty list")
  | v :: st => mmodify (set_stack (rev st));; mret v
  end.

Definition _read_int4 : M t Z :=
  let* data := stream_read 4 in
  mlift (Struct.unpack_i data).

Definition _read_byte_string : M t (list byte) :=
  let* length := _read_int4 in
  stream_read length.

Definition load_none : M t unit := append VNone.
Definition load_true : M t unit := append (VBool true).
Definition load_false : M t unit := append (VBool false).

Definition load_int : M t unit :=
  let* i := _read_int4 in
  append (VInt i).

Definition load_longint : M t unit :=
  let* s := _read_byte_string in
  match Codec.int_of_bytes s with
  | Some i => append (VInt i)
  | None => mraise (ValueError "invalid literal for int() with base 10")
  end.

Definition load_long : M t unit := load_int.
Definition load_longlong : M t unit := load_longint.

Definition load_float : M t unit :=
  let* binary := stream_read FLOAT_FORMAT_SIZE in
  let* flt := mlift (Struct.unpack_d binary) in
  append (VFloat flt).

Definition decode_utf8 (as_bytes : list byte) : M t (list N) :=
  match Codec.utf8_decode as_bytes with
  | Some s => mret s
  | None => mraise (UnicodeDecodeError "'utf-8' codec can't decode")
  end.

Definition load_py3string : M t unit :=
  let* as_bytes := _read_byte_string in
  let* self := mget in
  if negb ISPY3 && py3str_as_py2str self then append (VBytes as_bytes)
  else let* s := decode_utf8 as_bytes in append (VStr s).

Definition load_py2string : M t unit :=
  let* as_bytes := _read_byte_string in
  let* self := mget in
  if ISPY3 && py2str_as_py3str self
  then append (VStr (Codec.latin1_decode as_bytes))
  else append (VBytes as_bytes).

Definition load_bytes : M t unit :=
  let* s := _read_byte_string in
  append (VBytes s).

Definition load_unicode : M t unit :=
  let* as_bytes := _read_byte_string in
  let* s := decode_utf8 as_bytes in
  append (VStr s).

(** [[None] * length] *)
Definition load_newlist : M t unit :=
  let* length := _read_int4 in
  append (VList (repeat VNone (Z.to_nat length))).

(** A value used as a list index ([bool] is an [int]). *)
Definition as_index (key : value) : option Z :=
  match key with
  | VInt i => Some i
  | VBool b => Some (if b then 1 else 0)
  | _ => None
  end.

(** [container[key] = value], returning the container after the
    assignment. *)
Definition setitem (container key val : value) : result value :=
  match container with
  | VList l =>
      match as_index key with
      | None => raise (TypeError "list indices must be integers or slices")
      | Some i =>
          let n := Z.of_nat (length l) in
          let j := if i <? 0 then i + n else i in
          if (0 <=? j) && (j <? n)
          then ret (VList (<[Z.to_nat j := val]> l))
          else raise (IndexError "list assignment index out of range")
      end
  | VDict d =>
      let! d' := PyEq.dict_setitem d key val in
      ret (VDict d')
  | _ => raise (TypeError "object does not support item assignment")
  end.

Definition load_setitem : M t unit :=
  let* self := mget in
  if (length (stack self) <? 3)%nat
  then mraise (UnserializationError "not enough items for setitem") else
  let* val := pop in
  let* key := pop in
  let* self := mget in
  match rev (stack self) with
  | [] => mraise (IndexError "list index out of range")
  | container :: below =>
      let* container' := mlift (setitem container key val) in
      mmodify (set_stack (rev below ++ [container']))
  end.

Definition load_newdict : M t unit := append (VDict []).

(** Where the slice [l[start:]] begins in a list of length [n]. *)
Definition slice_start (start n : Z) : nat :=
  Z.to_nat (if start <? 0 then Z.max 0 (start + n) else Z.min start n).

Definition _load_tuple : M t (list value) :=
  let* length_ := _read_int4 in
  if negb (length_ =? 0) then
    let* self := mget in
    let k := slice_start (- length_) (Z.of_nat (length (stack self))) in
    let tup := drop k (stack self) in
    mmodify (set_stack (take k (stack self)));;
    mret tup
  else mret [].

Definition load_buildtuple : M t unit :=
  let* tup := _load_tuple in
  append (VTuple tup).

Definition load_set : M t unit :=
  let* tup := _load_tuple in
  let* s := mlift (PyEq.set_of [] tup) in
  append (VSet s).

Definition load_frozenset : M t unit :=
  let* tup := _load_tuple in
  let* s := mlift (PyEq.set_of [] tup) in
  append (VFrozenset s).

Definition load_stop : M t unit := mraise _Stop.

Definition load_channel : M t unit :=
  let* id := _read_int4 in
  let* self := mget in
  match channelfactory self with
  | None => mraise (AttributeError "'NoneType' object has no attribute 'new'")
  | Some factory =>
      match ChannelFactory.new (Some id) factory with
      | (inl e, factory') =>
          mmodify (set_channelfactory (Some factory'));; mraise e
      | (inr _, factory') =>
          mmodify (set_channelfactory (Some factory'));;
          append (VChannel id)
      end
  end.

(** [loader(self)] for an entry of [num2func]. *)
Definition call (loader : Opcodes.pyattr) : M t unit :=
  match loader with
  | Opcodes.AFunc f =>
      match f with
      | Opcodes.f_load_none => load_none
      | Opcodes.f_load_true => load_true
      | Opcodes.f_load_false => load_false
      | Opcodes.f_load_int => load_int
      | Opcodes.f_load_longint => load_longint
      | Opcodes.f_load_float => load_float
      | Opcodes.f_load_py3string => load_py3string
      | Opcodes.f_load_py2string => load_py2string
      | Opcodes.f_load_bytes => load_bytes
      | Opcodes.f_load_unicode => load_unicode
      | Opcodes.f_load_newlist => load_newlist
      | Opcodes.f_load_setitem => load_setitem
      | Opcodes.f_load_newdict => load_newdict
      | Opcodes.f_load_buildtuple => load_buildtuple
      | Opcodes.f_load_set => load_set
      | Opcodes.f_load_frozenset => load_frozenset
      | Opcodes.f_load_stop => load_stop
      | Opcodes.f_load_channel => load_channel
      | _ => mraise (TypeError "missing required positional argument")
      end
  | Opcodes.AData => mraise (TypeError "object is not callable")
  end.

(** [self.num2func[opcode]] for a one-byte [opcode]. *)
Definition lookup_loader (opcode : list byte) : option Opcodes.pyattr :=
  match opcode with
  | [c] => snd <$> find (fun e => Byte.eqb (fst e) c) num2func
  | _ => None
  end.

(** The body of the [while True] loop of [load]. *)
Definition load_step : M t unit :=
  let* opcode := stream_read 1 in
  match opcode with
  | [] => mraise (EOFError "")
  | _ =>
      match lookup_loader opcode with
      | None =>
          mraise (UnserializationError
                    "unkown opcode - wire protocol corruption?")
      | Some loader => call loader
      end
  end.

(** The loop: it ends only by an exception, which is returned with the
    state it left.  [None]: the fuel ran out. *)
Fixpoint load_loop (fuel : nat) (self : t) : option (exn * t) :=
  match fuel with
  | O => None
  | S fuel' =>
      match load_step self with
      | (inl e, self') => Some (e, self')
      | (inr _, self') => load_loop fuel' self'
      end
  end.

(** [load()].  Every pass of the loop reads an opcode byte or raises, so
    one pass per byte of the stream plus one is enough fuel
    ([load_loop_fuel]); the [else] clause of the [try] is what the model
    would reach out of fuel, and like in Python it is never reached. *)
Definition load : M t value :=
  fun self =>
    let self := set_stack [] self in
    match load_loop (S (length (Popen2IO.infile (stream self)))) self with
    | Some (_Stop, self') =>
        match stack self' with
        | [v] => (ret v, set_stack [] self')
        | _ => (raise (UnserializationError "internal unserialization error"),
                self')
        end
    | Some (e, self') => (raise e, self')
    | None => (raise (UnserializationError "didn't get STOP"), self)
    end.

End Unserializer.

(** ** Messages and the gateway *)

Module Message.

(** The subclasses of [Message] that [_setupmessages] creates. *)
Inductive cls : Type :=
| STATUS | CHANNEL_EXEC | CHANNEL_DATA | CHANNEL_CLOSE
| CHANNEL_CLOSE_ERROR | CHANNEL_LAST_MESSAGE | GATEWAY_TERMINATE.

(** [cls.msgtype]: the position of the class in [classes]. *)
Definition msgtype (c : cls) : Z :=
  match c with
  | STATUS => 0
  | CHANNEL_EXEC => 1
  | CHANNEL_DATA => 2
  | CHANNEL_CLOSE => 3
  | CHANNEL_CLOSE_ERROR => 4
  | CHANNEL_LAST_MESSAGE => 5
  | GATEWAY_TERMINATE => 6
  end.

Record t : Type := {
  class : cls;
  channelid : Z;
  data : value
}.

(** [cls(channelid, data)] and [cls(channelid)] with the default
    [data=''] *)
Definition make (c : cls) (channelid : Z) (data : value) : t :=
  {| class := c; channelid := channelid; data := data |}.
Definition make0 (c : cls) (channelid : Z) : t := make c channelid (VStr []).

(** The tuple that [writeto] hands to the serializer. *)
Definition as_tuple (msg : t) : value :=
  VTuple [VInt (msgtype (class msg)); VInt (channelid msg); data msg].

Definition writeto (msg : t) : M Serializer.t unit :=
  Serializer.save (as_tuple msg).

End Message.

(** A line on [sys.stderr]: the warning of [RemoteError.warn]. *)
Inductive stderr_line : Type :=
| Warning_unhandled (formatted : value).

(** What [_getremoteerror] hands back: an object taken from
    [_remoteerrors], or the exception stored in [gateway._error]. *)
Inductive errobj : Type :=
| ErrValue (v : value)
| ErrExn (e : exn).

(** What a call of [Channel.receive] comes to at the moment its
    [itemqueue.get] is decided: an item, or, for a negative timeout on an
    empty queue, another round of waiting. *)
Inductive received : Type :=
| Item (x : value)
| Waiting.

Definition str_of (s : string) : list N :=
  map N_of_ascii (list_ascii_of_string s).

Definition INTERRUPT_TEXT : value := VStr (str_of "keyboard-interrupted").

Module Gateway.

(** The gateway and everything it owns.  [_serializer] holds the
    transport ([Serializer._stream]), the same object as [self._io];
    [_execqueue] is [None] until [SlaveGateway.serve] creates the queue
    (a [None] entry of the queue is the stop sentinel); [_error] is the
    [EOFError] that the receiver thread recorded, if any, given by its
    message (the attribute is only ever set in [except EOFError:]); [stderr] and
    [calls] log the warnings written and the callback invocations. *)
Record t : Type := {
  _serializer : Serializer.t;
  _channelfactory : ChannelFactory.t;
  _execqueue : option (list (option (nat * value)));
  _error : option string;
  stderr : list stderr_line;
  calls : list (nat * value)
}.

Definition _io (g : t) : Popen2IO.t := Serializer._stream (_serializer g).

(** [BaseGateway(io, id, _startcount)] *)
Definition __init__ (io : Popen2IO.t) (_startcount : Z) : t :=
  {| _serializer := Serializer.__init__ io;
     _channelfactory := ChannelFactory.__init__ _startcount;
     _execqueue := None; _error := None; stderr := []; calls := [] |}.

Definition set__serializer (s : Serializer.t) (g : t) : t :=
  {| _serializer := s; _channelfactory := _channelfactory g;
     _execqueue := _execqueue g; _error := _error g; stderr := stderr g;
     calls := calls g |}.
Definition set__channelfactory (f : ChannelFactory.t) (g : t) : t :=
  {| _serializer := _serializer g; _channelfactory := f;
     _execqueue := _execqueue g; _error := _error g; stderr := stderr g;
     calls := calls g |}.
Definition set_stderr (l : list stderr_line) (g : t) : t :=
  {| _serializer := _serializer g; _channelfactory := _channelfactory g;
     _execqueue := _execqueue g; _error := _error g; stderr := l;
     calls := calls g |}.
Definition set_calls (l : list (nat * value)) (g : t) : t :=
  {| _serializer := _serializer g; _channelfactory := _channelfactory g;
     _execqueue := _execqueue g; _error := _error g; stderr := stderr g;
     calls := l |}.

Definition on_factory (f : ChannelFactory.t -> ChannelFactory.t) (g : t) : t :=
  set__channelfactory (f (_channelfactory g)) g.

(** Reading and updating the attributes of the channel object at address
    [self].  An address at which no object lives is not a state Python
    can be in; the model answers it with [ReferenceError]. *)
Definition get_channel (self : nat) : M t Channel.t :=
  fun g =>
    match ChannelFactory.objects (_channelfactory g) !! self with
    | Some ch => (ret ch, g)
    | None => (raise (ReferenceError "no object at this address"), g)
    end.

Definition modify_channel (self : nat) (f : Channel.t -> Channel.t) : M t unit :=
  mmodify (on_factory (fun cf =>
    ChannelFactory.set_objects (alter f self (ChannelFactory.objects cf)) cf)).

(** [_send(msg)] *)
Definition _send (msg : Message.t) : M t unit :=
  fun g =>
    match Message.writeto msg (_serializer g) with
    | (r, s) => (r, set__serializer s g)
    end.

(** [callback(arg)] *)
Definition call_callback (cb : callback) (arg : value) : M t unit :=
  mmodify (fun g => set_calls (calls g ++ [(cb_id cb, arg)]) g);;
  if cb_raises cb arg then mraise (CallbackError "callback raised")
  else mret tt.

(** [bool(v)] *)
Definition truthy (v : value) : bool :=
  match v with
  | VNone => false
  | VBool b => b
  | VInt i => negb (i =? 0)
  | VFloat f => negb (PyEq.num_eqb (PyEq.float_num f) (PyEq.int_num 0))
  | VBytes s => negb (bool_decide (s = []))
  | VStr s => negb (bool_decide (s = []))
  | VList l | VTuple l | VSet l | VFrozenset l =>
      match l with [] => false | _ => true end
  | VDict d => match d with [] => false | _ => true end
  | VChannel _ | VRemoteError _ | VObject _ => true
  end.

Definition isinstance_RemoteError (v : value) : bool :=
  match v with VRemoteError _ => true | _ => false end.

(** [error.warn()] *)
Definition warn (error : value) : M t unit :=
  match error with
  | VRemoteError formatted =>
      mmodify (fun g => set_stderr (stderr g ++ [Warning_unhandled formatted]) g)
  | _ => mraise (AttributeError "object has no attribute 'warn'")
  end.

(** *** ChannelFactory methods that run in the receiver thread *)

Definition _no_longer_opened (id : Z) : M t unit :=
  mmodify (on_factory (fun cf =>
    ChannelFactory.set__channels (delete id (ChannelFactory._channels cf)) cf));;
  let* g := mget in
  match ChannelFactory._callbacks (_channelfactory g) !! id with
  | None => mret tt
  | Some (callback, endmarker) =>
      mmodify (on_factory (fun cf =>
        ChannelFactory.set__callbacks
          (delete id (ChannelFactory._callbacks cf)) cf));;
      match endmarker with
      | Some e => call_callback callback e
      | None => mret tt
      end
  end.

Definition _local_close (id : Z) (remoteerror : value) (sendonly : bool)
  : M t unit :=
  let* g := mget in
  (match ChannelFactory._channels (_channelfactory g) !! id with
   | None =>
       if truthy remoteerror then
         if negb (PyEq.py_eqb remoteerror INTERRUPT_TEXT)
         then warn remoteerror
         else mret tt
       else mret tt
   | Some channel =>
       (if truthy remoteerror
        then modify_channel channel (fun ch =>
               Channel.set__remoteerrors
                 (Channel._remoteerrors ch ++ [remoteerror]) ch)
        else mret tt);;
       (if negb sendonly
        then modify_channel channel (Channel.set__closed true)
        else mret tt);;
       modify_channel channel (Channel.set__receiveclosed true);;
       modify_channel channel (Channel.put ENDMARKER)
   end);;
  _no_longer_opened id.

(** [_local_receive(id, data)].  [errortext] is what [geterrortext] makes
    of the exception that the callback raised. *)
Definition _local_receive (id : Z) (data : value) (errortext : value)
  : M t unit :=
  let* g := mget in
  match ChannelFactory._callbacks (_channelfactory g) !! id with
  | None =>
      match ChannelFactory._channels (_channelfactory g) !! id with
      | None => mret tt
      | Some channel => modify_channel channel (Channel.put (Data data))
      end
  | Some (callback, endmarker) =>
      fun g =>
        match call_callback callback data g with
        | (inl _, g') =>
            (_send (Message.make Message.CHANNEL_CLOSE_ERROR id errortext);;
             _local_close id errortext false) g'
        | (inr _, g') => (ret tt, g')
        end
  end.

(** *** Channel methods; [self] is the address of the channel *)

(** The drain loop of [setcallback] over the items that
    [items.get(block=False)] yields one by one. *)
Fixpoint setcallback_loop (self : nat) (callback : callback)
    (endmarker : option value) (items : list item) : M t unit :=
  match items with
  | [] =>
      let* ch := get_channel self in
      if negb (Channel._closed ch || Channel._receiveclosed ch) then
        mmodify (on_factory (fun cf =>
          ChannelFactory.set__callbacks
            (<[Channel.id ch := (callback, endmarker)]>
               (ChannelFactory._callbacks cf)) cf))
      else mret tt
  | ENDMARKER :: _ =>
      match endmarker with
      | Some e => call_callback callback e
      | None => mret tt
      end
  | Data olditem :: items' =>
      call_callback callback olditem;;
      setcallback_loop self callback endmarker items'
  end.

(** [setcallback(callback, endmarker)].  The receive lock is taken and
    released around the body; the old queue object, which the channel no
    longer refers to, is dropped. *)
Definition setcallback (self : nat) (callback : callback)
    (endmarker : option value) : M t unit :=
  let* ch := get_channel self in
  match Channel._items ch with
  | None => mraise (IOError "has callback already registered")
  | Some items =>
      modify_channel self (Channel.set__items None);;
      setcallback_loop self callback endmarker items
  end.

(** [except (IOError, ValueError): pass] ([TimeoutError] derives from
    [IOError], [UnicodeDecodeError] from [ValueError]). *)
Definition is_IOError_or_ValueError (e : exn) : bool :=
  match e with
  | IOError _ | TimeoutError _ | ValueError _ | UnicodeDecodeError _ => true
  | _ => false
  end.

Definition __del__ (self : nat) : M t unit :=
  let* ch := get_channel self in
  if negb (Channel.gateway_set ch) then mret tt else
  if Channel._closed ch then
    (fix each (errors : list value) : M t unit :=
       match errors with
       | [] => mret tt
       | error :: errors' => warn error;; each errors'
       end) (Channel._remoteerrors ch)
  else if Channel._receiveclosed ch then mret tt
  else
    let Msg := match Channel._items ch with
               | None => Message.CHANNEL_LAST_MESSAGE
               | Some _ => Message.CHANNEL_CLOSE
               end in
    fun g =>
      match _send (Message.make0 Msg (Channel.id ch)) g with
      | (inl e, g') =>
          if is_IOError_or_ValueError e then (ret tt, g') else (inl e, g')
      | (inr _, g') => (ret tt, g')
      end.

(** The last strong reference to the channel at [self] goes away: Python
    runs [__del__], ignores whatever it raises, frees the object, and the
    weak dictionary loses the entry that pointed to it. *)
Definition drop_last_reference (self : nat) : M t unit :=
  fun g =>
    match ChannelFactory.objects (_channelfactory g) !! self with
    | None => (ret tt, g)
    | Some ch =>
        let g' := snd (__del__ self g) in
        (ret tt,
         on_factory (fun cf =>
           ChannelFactory.set__channels
             (filter (fun e => snd e <> self) (ChannelFactory._channels cf))
             (ChannelFactory.set_objects
                (delete self (ChannelFactory.objects cf)) cf)) g')
    end.

Definition _getremoteerror (self : nat) : M t (option errobj) :=
  let* ch := get_channel self in
  match Channel._remoteerrors ch with
  | e :: rest =>
      modify_channel self (Channel.set__remoteerrors rest);;
      mret (Some (ErrValue e))
  | [] =>
      let* g := mget in
      match _error g with
      | Some msg => mret (Some (ErrExn (EOFError msg)))
      | None => mret None
      end
  end.

Definition close (self : nat) (error : value) : M t unit :=
  let* ch := get_channel self in
  if Channel._executing ch then
    mraise (IOError "cannot explicitly close channel within remote_exec")
  else if negb (Channel._closed ch) then
    (if negb (Channel._receiveclosed ch) then
       match error with
       | VNone => _send (Message.make0 Message.CHANNEL_CLOSE (Channel.id ch))
       | _ => _send (Message.make Message.CHANNEL_CLOSE_ERROR
                       (Channel.id ch) error)
       end
     else mret tt);;
    (if isinstance_RemoteError error
     then modify_channel self (fun ch =>
            Channel.set__remoteerrors (Channel._remoteerrors ch ++ [error]) ch)
     else mret tt);;
    modify_channel self (Channel.set__closed true);;
    modify_channel self (Channel.set__receiveclosed true);;
    modify_channel self (Channel.put ENDMARKER);;
    _no_longer_opened (Channel.id ch)
  else mret tt.

Definition send (self : nat) (item : value) : M t unit :=
  let* ch := get_channel self in
  if Channel._closed ch then mraise (IOError "cannot send to closed channel")
  else _send (Message.make Message.CHANNEL_DATA (Channel.id ch) item).

(** [raise self._getremoteerror() or EOFError()] *)
Definition raise_or_EOFError (err : option errobj) : exn :=
  match err with
  | Some (ErrExn e) => e
  | Some (ErrValue v) =>
      if truthy v then
        if isinstance_RemoteError v then Raised v
        else TypeError "exceptions must derive from BaseException"
      else EOFError ""
  | None => EOFError ""
  end.

(** [receive(timeout)], at the moment [itemqueue.get] is decided: the
    queue holds an item, or it stays empty until the timeout. *)
Definition receive (self : nat) (timeout : Z) : M t received :=
  let* ch := get_channel self in
  match Channel._items ch with
  | None => mraise (IOError "cannot receive(), channel has receiver callback")
  | Some [] =>
      if timeout <? 0 then mret Waiting
      else mraise (TimeoutError "no item after timeout seconds")
  | Some (x :: itemqueue) =>
      modify_channel self (Channel.set__items (Some itemqueue));;
      match x with
      | ENDMARKER =>
          modify_channel self (Channel.put ENDMARKER);;
          let* err := _getremoteerror self in
          mraise (raise_or_EOFError err)
      | Data x => mret (Item x)
      end
  end.

(** [newchannel()]: [self._channelfactory.new()] *)
Definition newchannel : M t nat :=
  fun g =>
    match ChannelFactory.new None (_channelfactory g) with
    | (r, cf) => (r, set__channelfactory cf g)
    end.

(** *** [STATUS.received(gateway)] *)

Definition STATUS_received (msg : Message.t) : M t unit :=
  let* gateway := mget in
  let active_channels := ChannelFactory.channels (_channelfactory gateway) in
  let numexec := length (List.filter Channel._executing active_channels) in
  match _execqueue gateway with
  | None => mraise (AttributeError "gateway has no attribute '_execqueue'")
  | Some execqueue =>
      let d := VDict
        [ (VStr (str_of "execqsize"), VInt (Z.of_nat (length execqueue)))
        ; (VStr (str_of "numchannels"),
           VInt (Z.of_nat (length active_channels)))
        ; (VStr (str_of "numexecuting"), VInt (Z.of_nat numexec)) ] in
      _send (Message.make Message.CHANNEL_DATA (Message.channelid msg) d)
  end.

(** [waitclose(timeout)], at the moment the wait on [_receiveclosed] is
    decided; [timeout = None] waits without limit. *)
Definition waitclose (self : nat) (timeout : option Z) : M t received :=
  let* ch := get_channel self in
  if negb (Channel._receiveclosed ch) then
    match timeout with
    | None => mret Waiting
    | Some _ => mraise (TimeoutError "Timeout after timeout seconds")
    end
  else
    let* error := _getremoteerror self in
    match error with
    | Some (ErrExn e) => mraise e
    | Some (ErrValue v) =>
        if truthy v then mraise (raise_or_EOFError error)
        else mret (Item VNone)
    | None => mret (Item VNone)
    end.

(** [BaseGateway._local_schedulexec(channel, sourcetask)] *)
Definition _local_schedulexec (channel : nat) (sourcetask : value) : M t unit :=
  close channel (VStr (str_of "execution disallowed")).

(** [SlaveGateway._local_schedulexec(channel, sourcetask)] *)
Definition SlaveGateway__local_schedulexec (channel : nat)
    (sourcetask : value) : M t unit :=
  fun g =>
    match _execqueue g with
    | Some q =>
        (ret tt,
         {| _serializer := _serializer g;
            _channelfactory := _channelfactory g;
            _execqueue := Some (q ++ [Some (channel, sourcetask)]);
            _error := _error g; stderr := stderr g; calls := calls g |})
    | None => (raise (AttributeError "gateway has no attribute '_execqueue'"), g)
    end.

(** [self._channelfactory.new(id)] from the gateway. *)
Definition factory_new (id : option Z) : M t nat :=
  fun g =>
    match ChannelFactory.new id (_channelfactory g) with
    | (r, cf) => (r, set__channelfactory cf g)
    end.

(** [CHANNEL_EXEC.received(gateway)] on a [BaseGateway] *)
Definition CHANNEL_EXEC_received (msg : Message.t) : M t unit :=
  let* channel := factory_new (Some (Message.channelid msg)) in
  _local_schedulexec channel (Message.data msg).

(** [CHANNEL_DATA.received], [CHANNEL_CLOSE.received],
    [CHANNEL_CLOSE_ERROR.received] and [CHANNEL_LAST_MESSAGE.received] *)
Definition CHANNEL_DATA_received (msg : Message.t) (errortext : value)
  : M t unit :=
  _local_receive (Message.channelid msg) (Message.data msg) errortext.

Definition CHANNEL_CLOSE_received (msg : Message.t) : M t unit :=
  _local_close (Message.channelid msg) VNone false.

Definition CHANNEL_CLOSE_ERROR_received (msg : Message.t) : M t unit :=
  _local_close (Message.channelid msg) (VRemoteError (Message.data msg)) false.

Definition CHANNEL_LAST_MESSAGE_received (msg : Message.t) : M t unit :=
  _local_close (Message.channelid msg) VNone true.

End Gateway.

(** ** Serialize and deserialize, end to end *)

(** A transport with nothing to read and nothing written yet. *)
Definition fresh_io : Popen2IO.t :=
  {| Popen2IO.infile := []; Popen2IO.outfile := Popen2IO.FOpen;
     Popen2IO.written := [] |}.

(** The bytes that [Serializer(io).save(v)] puts on a fresh transport. *)
Definition serialize (v : value) : result (list byte) :=
  match Serializer.save v (Serializer.__init__ fresh_io) with
  | (inl e, _) => raise e
  | (inr _, s) => ret (concat (Popen2IO.written (Serializer._stream s)))
  end.

(** What [Unserializer(io).load()] returns when [io] delivers [data]. *)
Definition deserialize (data : list byte) : result value :=
  fst (Unserializer.load
         (Unserializer.__init__ (Popen2IO.set_infile data fresh_io) None)).

(** ** Reading a message off the transport *)

Module MessageIO.

(** What [Message.readfrom] builds: an instance of the class for the
    message type, holding whatever the peer put in the second and third
    place of the tuple. *)
Record incoming : Type := {
  in_class : Message.cls;
  in_channelid : value;
  in_data : value
}.

Definition classes : list Message.cls :=
  [ Message.STATUS; Message.CHANNEL_EXEC; Message.CHANNEL_DATA
  ; Message.CHANNEL_CLOSE; Message.CHANNEL_CLOSE_ERROR
  ; Message.CHANNEL_LAST_MESSAGE; Message.GATEWAY_TERMINATE ].

(** [Message._types[msgtype]]: a dict lookup with the keys 0 to 6. *)
Definition _types (msgtype : value) : result Message.cls :=
  if negb (PyEq.hashable msgtype) then raise (TypeError "unhashable type")
  else
    match find (fun c => PyEq.py_eqb (VInt (Message.msgtype c)) msgtype)
            classes with
    | Some c => ret c
    | None => raise (KeyError "msgtype")
    end.

(** What [iter(v)] gives: the items, [TypeError], or, for an object with
    an [__iter__] of its own (iterating over a [Channel] calls [receive]
    on it), something the embedding does not follow. *)
Inductive iteration : Type :=
| Yields (items : list value)
| NotIterable
| Opaque.

Definition iterate (v : value) : iteration :=
  match v with
  | VTuple l | VList l | VSet l | VFrozenset l => Yields l
  | VDict d => Yields (map fst d)
  | VStr s => Yields (map (fun c => VStr [c]) s)
  | VBytes s => Yields (map (fun c => VInt (Z.of_N (Byte.to_N c))) s)
  | VNone | VBool _ | VInt _ | VFloat _ | VRemoteError _ => NotIterable
  | VChannel _ | VObject _ => Opaque
  end.

(** [Message.readfrom(unserializer)]:
    [msgtype, senderid, data = unserializer.load()] and then
    [cls._types[msgtype](senderid, data)].  The result is [None] where
    the unpacking runs into an [Opaque] iteration. *)
Definition readfrom : M Unserializer.t (option incoming) :=
  let* v := Unserializer.load in
  match iterate v with
  | Opaque => mret None
  | NotIterable => mraise (TypeError "cannot unpack non-iterable object")
  | Yields [msgtype; senderid; data] =>
      let* c := mlift (_types msgtype) in
      mret (Some {| in_class := c; in_channelid := senderid;
                    in_data := data |})
  | Yields _ => mraise (ValueError "wrong number of values to unpack")
  end.

End MessageIO.

(** ** Vocabulary of the properties *)

Module Spec.

(** A code point that UTF-8 can carry. *)
Definition encodable (c : N) : bool :=
  ((c <? 0x110000) && negb ((0xD800 <=? c) && (c <=? 0xDFFF)))%N.

(** A length that fits the four-byte length field. *)
Definition fits (n : nat) : bool := Z.of_nat n <=? FOUR_BYTE_INT_MAX.

(** The number that decimal digits denote, read after the number [acc]. *)
Fixpoint digits_value (acc : N) (u : Decimal.uint) : N :=
  match u with
  | Nil => acc
  | D0 u' => digits_value (acc * 10 + 0) u'
  | D1 u' => digits_value (acc * 10 + 1) u'
  | D2 u' => digits_value (acc * 10 + 2) u'
  | D3 u' => digits_value (acc * 10 + 3) u'
  | D4 u' => digits_value (acc * 10 + 4) u'
  | D5 u' => digits_value (acc * 10 + 5) u'
  | D6 u' => digits_value (acc * 10 + 6) u'
  | D7 u' => digits_value (acc * 10 + 7) u'
  | D8 u' => digits_value (acc * 10 + 8) u'
  | D9 u' => digits_value (acc * 10 + 9) u'
  end%N.

(** The four bytes of [struct.pack("!i", i)] for [i] in range. *)
Definition int4 (i : Z) : list byte :=
  Struct.be_bytes 4 (Z.to_N (i mod 4294967296)).

(** The data values that make the round trip: the value grammar, with
    integers from -2^31 upwards, floats given by a binary64 image, text
    that UTF-8 can encode, every length that goes into a four-byte length
    field (of a byte string, of the UTF-8 form of a text, of the decimal
    form of a big integer, of a list, tuple or set) at most 2^31-1, and
    sets and dict keys made of hashable, pairwise different values, as
    Python has them. *)
Fixpoint supported (v : value) : bool :=
  match v with
  | VNone | VBool _ => true
  | VInt i =>
      (-2147483648 <=? i)
      && ((i <=? FOUR_BYTE_INT_MAX) || fits (length (Codec.str_int_ascii i)))
  | VFloat bits => (bits <? 2 ^ 64)%N
  | VBytes s => fits (length s)
  | VStr s =>
      match Codec.utf8_encode s with
      | Some as_bytes => fits (length as_bytes)
      | None => false
      end
  | VList l | VTuple l => fits (length l) && forallb supported l
  | VSet l | VFrozenset l =>
      fits (length l) && forallb supported l
      && forallb PyEq.hashable l && PyEq.distinct l
  | VDict d =>
      forallb (fun kv => supported (fst kv) && supported (snd kv)) d
      && forallb PyEq.hashable (map fst d) && PyEq.distinct (map fst d)
  | VChannel _ | VRemoteError _ | VObject _ => false
  end.

(** What a serializer method does to the buffer: it appends the chunks
    [cs] and returns or raises [r]. *)
Definition appends {A} (m : M Serializer.t A) (r : result A)
    (cs : list (list byte)) : Prop :=
  forall s, m s =
    (r, Serializer.set_streamlist (Serializer.streamlist s ++ cs) s).

(** The unserializer [u] with [data] left to read and [st] as its stack. *)
Definition at_state (u : Unserializer.t) (data : list byte)
    (st : list value) : Unserializer.t :=
  Unserializer.set_stream (Popen2IO.set_infile data (Unserializer.stream u))
    (Unserializer.set_stack st u).

(** [k] passes of the loop of [load], none of which raises. *)
Fixpoint passes (k : nat) (u : Unserializer.t) : option Unserializer.t :=
  match k with
  | O => Some u
  | S k' =>
      match Unserializer.load_step u with
      | (inr _, u') => passes k' u'
      | (inl _, _) => None
      end
  end.

(** A method of the unserializer that never puts bytes back on the
    stream. *)
Definition consumes {A} (m : M Unserializer.t A) : Prop :=
  forall u r u', m u = (r, u') ->
    (length (Popen2IO.infile (Unserializer.stream u'))
     <= length (Popen2IO.infile (Unserializer.stream u)))%nat.

(** The chunks [cs] make the loop of [load] push [v]. *)
Definition decodes (cs : list (list byte)) (v : value) : Prop :=
  forall u rest st,
    exists k, passes k (at_state u (concat cs ++ rest) st)
              = Some (at_state u rest (st ++ [v])).

(** Every method either returns or raises, having appended some chunks. *)
Definition total {A} (m : M Serializer.t A) : Prop := exists r cs, appends m r cs.

(** [f v] writes chunks that make the loader push [v]. *)
Definition RT (f : value -> M Serializer.t unit) (v : value) : Prop :=
  exists cs, appends (f v) (ret tt) cs /\ decodes cs v.

(** Chunks that take the loader from stack [st ++ before] to
    [st ++ after], for every [st]. *)
Definition rewrites (cs : list (list byte)) (before after : list value) : Prop :=
  forall u rest st,
    exists k, passes k (at_state u (concat cs ++ rest) (st ++ before))
              = Some (at_state u rest (st ++ after)).


(** What went over the wire: the payloads of the transport writes. *)
Definition wire (g : Gateway.t) : list (list byte) :=
  Popen2IO.written (Gateway._io g).

(** The channel object at an address. *)
Definition channel_at (g : Gateway.t) (self : nat) : option Channel.t :=
  ChannelFactory.objects (Gateway._channelfactory g) !! self.

(** The factory's entry for an id, and the callback registered for it. *)
Definition routed (g : Gateway.t) (id : Z) : option nat :=
  ChannelFactory._channels (Gateway._channelfactory g) !! id.
Definition registered (g : Gateway.t) (id : Z)
  : option (callback * option value) :=
  ChannelFactory._callbacks (Gateway._channelfactory g) !! id.

(** The gateway with the object at [self] replaced by [ch]. *)
Definition set_channel (self : nat) (ch : Channel.t) (g : Gateway.t)
  : Gateway.t :=
  Gateway.on_factory (fun cf =>
    ChannelFactory.set_objects (<[self := ch]> (ChannelFactory.objects cf)) cf) g.

(** A gateway whose transport takes writes. *)
Definition healthy (g : Gateway.t) : Prop :=
  Serializer.WRITE_ON_SUCCESS (Gateway._serializer g) = true
  /\ Popen2IO.outfile (Gateway._io g) = Popen2IO.FOpen.

(** Two gateway states that differ at most in the serializer's scratch
    buffer and in what was written to the transport. *)
Definition same_but_wire (g g' : Gateway.t) : Prop :=
  Gateway._channelfactory g' = Gateway._channelfactory g
  /\ Gateway._execqueue g' = Gateway._execqueue g
  /\ Gateway._error g' = Gateway._error g
  /\ Gateway.stderr g' = Gateway.stderr g
  /\ Gateway.calls g' = Gateway.calls g
  /\ Serializer.WRITE_ON_SUCCESS (Gateway._serializer g')
     = Serializer.WRITE_ON_SUCCESS (Gateway._serializer g)
  /\ Popen2IO.outfile (Gateway._io g') = Popen2IO.outfile (Gateway._io g)
  /\ Popen2IO.infile (Gateway._io g') = Popen2IO.infile (Gateway._io g).

(** What the call of a registered callback with its endmarker returns. *)
Definition endmarker_result (reg : option (callback * option value))
  : result unit :=
  match reg with
  | Some (cb, Some em) =>
      if cb_raises cb em then raise (CallbackError "callback raised")
      else ret tt
  | _ => ret tt
  end.

Definition endmarker_calls (reg : option (callback * option value))
  : list (nat * value) :=
  match reg with
  | Some (cb, Some em) => [(cb_id cb, em)]
  | _ => []
  end.

(** The payloads that sit in a queue before its first end-marker. *)
Fixpoint drained (items : list item) : list value :=
  match items with
  | Data v :: items' => v :: drained items'
  | _ => []
  end.

Fixpoint has_endmarker (items : list item) : bool :=
  match items with
  | [] => false
  | ENDMARKER :: _ => true
  | Data _ :: items' => has_endmarker items'
  end.

(** The calls that [setcallback] makes on a queue holding [items]. *)
Definition setcallback_calls (cb : callback) (endmarker : option value)
    (items : list item) : list (nat * value) :=
  map (fun v => (cb_id cb, v)) (drained items)
  ++ (if has_endmarker items
      then match endmarker with Some e => [(cb_id cb, e)] | None => [] end
      else []).

(** The message that the finalizer of an open channel sends. *)
Definition del_message (ch : Channel.t) : Message.t :=
  Message.make0
    match Channel._items ch with
    | None => Message.CHANNEL_LAST_MESSAGE
    | Some _ => Message.CHANNEL_CLOSE
    end (Channel.id ch).


(** The channel after a local [close(error)] went through: the error is
    queued when it is a [RemoteError], both flags are set, and the
    end-marker is in the queue, if there is a queue. *)
Definition closed_by (error : value) (ch : Channel.t) : Channel.t :=
  Channel.put ENDMARKER
    (Channel.set__receiveclosed true
       (Channel.set__closed true
          (if Gateway.isinstance_RemoteError error
           then Channel.set__remoteerrors
                  (Channel._remoteerrors ch ++ [error]) ch
           else ch))).

End Spec.

(** ** Small gateways to try things on *)

Module Examples.

(** A gateway on a fresh transport after [newchannel()]: one channel, with
    id 1, at address 0. *)
Definition one_channel : Gateway.t :=
  snd (Gateway.newchannel (Gateway.__init__ fresh_io 1)).


(** The same after a local [close()] of the open channel. *)
Definition one_closed : Gateway.t :=
  snd (Gateway.close 0 VNone one_channel).

(** A slave gateway with one channel whose [serve] has created the
    execution queue. *)
Definition serving : Gateway.t :=
  {| Gateway._serializer := Gateway._serializer one_channel;
     Gateway._channelfactory := Gateway._channelfactory one_channel;
     Gateway._execqueue := Some [];
     Gateway._error := None;
     Gateway.stderr := [];
     Gateway.calls := [] |}.

(** A callback that never raises. *)
Definition quiet_callback : callback :=
  {| cb_id := 7; cb_raises := fun _ => false |}.

(** A callback that raises on whatever it is called with. *)
Definition failing_callback : callback :=
  {| cb_id := 8; cb_raises := fun _ => true |}.

(** [one_channel] after [setcallback(failing_callback)] and after the
    receiver dispatched a [CHANNEL_DATA] message with the item 42 for id
    1: the callback raised, and [_local_receive] sent
    [CHANNEL_CLOSE_ERROR] and closed the channel with the error text. *)
Definition after_callback_error : Gateway.t :=
  snd (Gateway._local_receive 1 (VInt 42)
         (VStr (str_of "ValueError: bad item"))
         (snd (Gateway.setcallback 0 failing_callback None one_channel))).

End Examples.

(** ** Reads on a stream in non-blocking mode *)

Module NonBlocking.

(** [self._read(numbytes)] when the stream hands over less than was asked
    for: of the [numbytes] bytes it gives those that have arrived,
    [arrived] many at most, and nothing when none has. *)
Definition _read (arrived : nat) (numbytes : Z) : M Popen2IO.t (list byte) :=
  fun io =>
    let there := Nat.min arrived (length (Popen2IO.infile io)) in
    let k := Z.to_nat (Z.min numbytes (Z.of_nat there)) in
    (ret (take k (Popen2IO.infile io)),
     Popen2IO.set_infile (drop k (Popen2IO.infile io)) io).

(** The [while] loop of [Popen2IO.read]; [arrivals call] is the number of
    bytes that have arrived when the loop reads for the [call]-th time. *)
Fixpoint read_loop (fuel : nat) (arrivals : nat -> nat) (call : nat)
    (numbytes : Z) (buf : list byte) : M Popen2IO.t (option (list byte)) :=
  if negb (Z.of_nat (length buf) <? numbytes) then mret (Some buf) else
  match fuel with
  | O => mret None
  | S fuel' =>
      let* data := _read (arrivals call) numbytes in
      match data with
      | [] => mraise (EOFError "expected more bytes")
      | _ => read_loop fuel' arrivals (S call) numbytes (buf ++ data)
      end
  end.

(** [Popen2IO.read(numbytes)] over such a stream; as in [Popen2IO.read],
    one pass per byte of [infile] and one more is enough. *)
Definition read (arrivals : nat -> nat) (numbytes : Z)
  : M Popen2IO.t (list byte) :=
  fun io =>
    (let* r := read_loop (S (length (Popen2IO.infile io))) arrivals 0
                 numbytes [] in
     match r with
     | Some buf => mret buf
     | None => mret []
     end) io.

End NonBlocking.

(** ** More vocabulary: what can be sent *)

Module Wire.

(** The values that [save] accepts: the value grammar and channels, with
    integers and channel ids from -2^31 upwards, text that UTF-8 can
    encode, and every length that goes into a four-byte length field at
    most 2^31-1. *)
Fixpoint serializable (v : value) : bool :=
  match v with
  | VNone | VBool _ | VFloat _ => true
  | VInt i =>
      (-2147483648 <=? i)
      && ((i <=? FOUR_BYTE_INT_MAX)
          || Spec.fits (length (Codec.str_int_ascii i)))
  | VBytes s => Spec.fits (length s)
  | VStr s =>
      match Codec.utf8_encode s with
      | Some as_bytes => Spec.fits (length as_bytes)
      | None => false
      end
  | VList l | VTuple l | VSet l | VFrozenset l =>
      Spec.fits (length l) && forallb serializable l
  | VDict d =>
      forallb (fun kv => serializable (fst kv) && serializable (snd kv)) d
  | VChannel id => (-2147483648 <=? id) && (id <=? FOUR_BYTE_INT_MAX)
  | VRemoteError _ | VObject _ => false
  end.



(** A message as the peer's [readfrom] rebuilds it. *)
Definition delivered (msg : Message.t) : MessageIO.incoming :=
  {| MessageIO.in_class := Message.class msg;
     MessageIO.in_channelid := VInt (Message.channelid msg);
     MessageIO.in_data := Message.data msg |}.

End Wire.

(** ** More vocabulary: channel ids *)

Module Protocol.

(** An id of the parity that this side's counter hands out. *)
Definition own_id (cf : ChannelFactory.t) (id : Z) : bool :=
  (id - ChannelFactory.count cf) mod 2 =? 0.

(** The ids of this side's parity that are in use lie below the counter,
    and the addresses in use lie below the next address. *)
Definition tidy (cf : ChannelFactory.t) : Prop :=
  (forall id a,
      ChannelFactory._channels cf !! id = Some a ->
      own_id cf id = true -> id < ChannelFactory.count cf)
  /\ (forall a ch,
         ChannelFactory.objects cf !! a = Some ch ->
         (a < ChannelFactory.next_object cf)%nat).

End Protocol.

(** ** The operations on channels, one at a time *)

Module Ops.

(** What user code, the finalizer and the receiver (when it dispatches a
    message) do to a gateway.  [New id] is [ChannelFactory.new(id)], which
    the unserializer calls for a [CHANNEL] opcode; [Exec] is the dispatch
    of [CHANNEL_EXEC] on a [BaseGateway]; [LocalReceive] is the dispatch of
    [CHANNEL_DATA] ([errortext] is the text of the exception of a raising
    callback); [LocalClose] is the dispatch of [CHANNEL_CLOSE],
    [CHANNEL_CLOSE_ERROR] and [CHANNEL_LAST_MESSAGE]. *)
Inductive op : Type :=
| Newchannel
| New (id : Z)
| Exec (msg : Message.t)
| Setcallback (self : nat) (callback : callback) (endmarker : option value)
| Close (self : nat) (error : value)
| Waitclose (self : nat) (timeout : option Z)
| Send (self : nat) (item : value)
| Receive (self : nat) (timeout : Z)
| DropLastReference (self : nat)
| LocalReceive (id : Z) (data errortext : value)
| LocalClose (id : Z) (remoteerror : value) (sendonly : bool)
| Status (msg : Message.t).

(** The gateway after the operation, whether it returned or raised. *)
Definition run (o : op) (g : Gateway.t) : Gateway.t :=
  match o with
  | Newchannel => snd (Gateway.newchannel g)
  | New id => snd (Gateway.factory_new (Some id) g)
  | Exec msg => snd (Gateway.CHANNEL_EXEC_received msg g)
  | Setcallback self callback endmarker =>
      snd (Gateway.setcallback self callback endmarker g)
  | Close self error => snd (Gateway.close self error g)
  | Waitclose self timeout => snd (Gateway.waitclose self timeout g)
  | Send self item => snd (Gateway.send self item g)
  | Receive self timeout => snd (Gateway.receive self timeout g)
  | DropLastReference self => snd (Gateway.drop_last_reference self g)
  | LocalReceive id data errortext =>
      snd (Gateway._local_receive id data errortext g)
  | LocalClose id remoteerror sendonly =>
      snd (Gateway._local_close id remoteerror sendonly g)
  | Status msg => snd (Gateway.STATUS_received msg g)
  end.

Fixpoint runs (os : list op) (g : Gateway.t) : Gateway.t :=
  match os with
  | [] => g
  | o :: os' => runs os' (run o g)
  end.

Section Assertions.
Variable cf : ChannelFactory.t.

(** An entry of the factory leads to a channel object with that id. *)
Definition routes_live : Prop :=
  forall id a,
    ChannelFactory._channels cf !! id = Some a ->
    exists ch, ChannelFactory.objects cf !! a = Some ch /\ Channel.id ch = id.

(** No two channel objects have the same id. *)
Definition ids_unique : Prop :=
  forall a b ch ch',
    ChannelFactory.objects cf !! a = Some ch ->
    ChannelFactory.objects cf !! b = Some ch' ->
    Channel.id ch = Channel.id ch' -> a = b.

(** The factory knows every channel that is neither closed nor
    receive-closed. *)
Definition open_routed : Prop :=
  forall a ch,
    ChannelFactory.objects cf !! a = Some ch ->
    Channel._closed ch = false -> Channel._receiveclosed ch = false ->
    ChannelFactory._channels cf !! Channel.id ch = Some a.

(** Never both: a channel with a queue has no callback registered. *)
Definition never_both : Prop :=
  forall a ch,
    ChannelFactory.objects cf !! a = Some ch ->
    Channel._items ch <> None ->
    ChannelFactory._callbacks cf !! Channel.id ch = None.

(** Neither, only when closed: a channel without a queue and without a
    registered callback is closed or receive-closed.  [skip] exempts the
    channel at one address, the one that [setcallback] is working on. *)
Definition neither_closed_but (skip : option nat) : Prop :=
  forall a ch,
    Some a <> skip ->
    ChannelFactory.objects cf !! a = Some ch ->
    Channel._items ch = None ->
    ChannelFactory._callbacks cf !! Channel.id ch = None ->
    Channel._closed ch = true \/ Channel._receiveclosed ch = true.

(** A queue that holds the end-marker belongs to a receive-closed
    channel. *)
Definition endmarker_closed : Prop :=
  forall a ch q,
    ChannelFactory.objects cf !! a = Some ch ->
    Channel._items ch = Some q -> In ENDMARKER q ->
    Channel._receiveclosed ch = true.

(** The addresses in use lie below the next address. *)
Definition addresses_below : Prop :=
  forall a ch,
    ChannelFactory.objects cf !! a = Some ch ->
    (a < ChannelFactory.next_object cf)%nat.

Definition settled (skip : option nat) : Prop :=
  routes_live /\ ids_unique /\ open_routed /\ never_both
  /\ neither_closed_but skip /\ endmarker_closed /\ addresses_below.

(** The id is not in use: no channel object has it and no callback is
    registered under it. *)
Definition unused (id : Z) : Prop :=
  (forall a ch, ChannelFactory.objects cf !! a = Some ch -> Channel.id ch <> id)
  /\ ChannelFactory._callbacks cf !! id = None.

(** The id is known to the factory, or not in use. *)
Definition known_or_unused (id : Z) : Prop :=
  ChannelFactory._channels cf !! id <> None \/ unused id.

End Assertions.

(** The state of the channels is consistent. *)
Definition consistent (g : Gateway.t) : Prop :=
  settled (Gateway._channelfactory g) None.

(** The operations that keep the channels consistent: a channel object is
    created only for an id that is not in use, and a callback handed to
    [setcallback] does not raise on the items that are waiting in the
    queue. *)
Definition allowed (o : op) (g : Gateway.t) : Prop :=
  match o with
  | Newchannel =>
      known_or_unused (Gateway._channelfactory g)
        (ChannelFactory.count (Gateway._channelfactory g))
  | New id => known_or_unused (Gateway._channelfactory g) id
  | Exec msg =>
      known_or_unused (Gateway._channelfactory g) (Message.channelid msg)
  | Setcallback self callback _ =>
      forall ch q x,
        Spec.channel_at g self = Some ch -> Channel._items ch = Some q ->
        In x (Spec.drained q) -> cb_raises callback x = false
  | _ => True
  end.

Fixpoint all_allowed (os : list op) (g : Gateway.t) : Prop :=
  match os with
  | [] => True
  | o :: os' => allowed o g /\ all_allowed os' (run o g)
  end.

(** [m] takes every gateway whose factory satisfies [P] to one whose
    factory satisfies [Q], whether it returns or raises. *)
Definition takes {A} (P : ChannelFactory.t -> Prop) (m : M Gateway.t A)
    (Q : ChannelFactory.t -> Prop) : Prop :=
  forall g, P (Gateway._channelfactory g) ->
            Q (Gateway._channelfactory (snd (m g))).

End Ops.

(** ** Runs that leave a channel with both, or with neither *)

Module Scenarios.
Import Ops.

(** A callback is set, the channel object is finalized (the callback
    stays registered, for the peer may still send), and a channel object
    is created anew for the id. *)
Definition recreated_after_finalizer : Gateway.t :=
  runs [ Newchannel; Setcallback 0 Examples.quiet_callback None;
         DropLastReference 0; New 1 ]
    (Gateway.__init__ fresh_io 1).

(** The peer's [CHANNEL_LAST_MESSAGE] makes the channel send-only, a
    channel object is created anew for its id, and a callback is set on
    the new one. *)
Definition recreated_beside_sendonly : Gateway.t :=
  runs [ Newchannel; LocalClose 1 VNone true; New 1;
         Setcallback 1 Examples.quiet_callback None ]
    (Gateway.__init__ fresh_io 1).

(** An item is waiting in the queue, and the callback handed to
    [setcallback] raises on it. *)
Definition drain_interrupted : Gateway.t :=
  runs [ Newchannel; LocalReceive 1 (VInt 5) VNone;
         Setcallback 0 Examples.failing_callback None ]
    (Gateway.__init__ fresh_io 1).

(** Two items are waiting in the queue of an open channel. *)
Definition two_waiting : Gateway.t :=
  runs [ Newchannel; LocalReceive 1 (VInt 5) VNone;
         LocalReceive 1 (VInt 6) VNone ]
    (Gateway.__init__ fresh_io 1).

End Scenarios.

(** ** Iterating over a channel *)

Module Iteration.

(** What one call of [Channel.next] comes to: an item, [StopIteration]
    (which the iteration protocol raises and the loop around it catches),
    or a [receive] that still waits. *)
Inductive step : Type :=
| Next (x : value)
| StopIteration
| Blocks.

(** [next()]: [self.receive()] with [EOFError] turned into
    [StopIteration]; every other exception passes through. *)
Definition next (self : nat) : M Gateway.t step :=
  fun g =>
    match Gateway.receive self (-1) g with
    | (inr (Item x), g') => (ret (Next x), g')
    | (inr Waiting, g') => (ret Blocks, g')
    | (inl (EOFError _), g') => (ret StopIteration, g')
    | (inl e, g') => (raise e, g')
    end.

(** What [list(channel)] comes to: the list, a [receive] that still waits
    after some items, or a model that ran out of fuel. *)
Inductive listing : Type :=
| Listed (items : list value)
| BlocksAfter (items : list value)
| OutOfFuel.

(** [list(channel)]: [next] until [StopIteration]. *)
Fixpoint list_channel (fuel : nat) (self : nat) (acc : list value)
  : M Gateway.t listing :=
  match fuel with
  | O => mret OutOfFuel
  | S fuel' =>
      let* s := next self in
      match s with
      | Next x => list_channel fuel' self (acc ++ [x])
      | StopIteration => mret (Listed acc)
      | Blocks => mret (BlocksAfter acc)
      end
  end.

End Iteration.

(** * Properties *)

Module PyStrFacts.
Import PyStr.

Lemma ascii_compare_N (a b : ascii) :
  Ascii.compare a b = N.compare (N_of_ascii a) (N_of_ascii b).
Proof. reflexivity. Qed.

Lemma compare_refl (s : string) : String.compare s s = Eq.
Proof.
  induction s as [|c s IH]; simpl; [reflexivity|].
  rewrite ascii_compare_N, N.compare_refl. exact IH.
Qed.

Lemma compare_le_trans (s1 : string) : forall s2 s3,
  String.compare s1 s2 <> Gt -> String.compare s2 s3 <> Gt ->
  String.compare s1 s3 <> Gt.
Proof.
  induction s1 as [|a s1 IH]; intros [|b s2] [|c s3]; simpl;
    try congruence.
  rewrite !ascii_compare_N.
  destruct (N.compare_spec (N_of_ascii a) (N_of_ascii b)) as [Hab|Hab|Hab];
    destruct (N.compare_spec (N_of_ascii b) (N_of_ascii c)) as [Hbc|Hbc|Hbc];
    try congruence; intros H1 H2.
  - rewrite Hab, Hbc, N.compare_refl. eauto.
  - rewrite Hab. apply N.compare_lt_iff in Hbc. rewrite Hbc. congruence.
  - rewrite <- Hbc. apply N.compare_lt_iff in Hab. rewrite Hab. congruence.
  - assert (Hac : (N_of_ascii a < N_of_ascii c)%N) by lia.
    apply N.compare_lt_iff in Hac. rewrite Hac. congruence.
Qed.

Lemma leb_true_iff (s1 s2 : string) :
  String.leb s1 s2 = true <-> String.compare s1 s2 <> Gt.
Proof. unfold String.leb. destruct (String.compare s1 s2); split; congruence. Qed.

Lemma le_trans (s1 s2 s3 : string) : le s1 s2 -> le s2 s3 -> le s1 s3.
Proof. unfold le. rewrite !leb_true_iff. apply compare_le_trans. Qed.

Lemma le_total (s1 s2 : string) : le s1 s2 \/ le s2 s1.
Proof. apply String.leb_total. Qed.

Lemma le_antisym (s1 s2 : string) : le s1 s2 -> le s2 s1 -> s1 = s2.
Proof. apply String.leb_antisym. Qed.

End PyStrFacts.

(** ** The state monad *)

Lemma mbind_ret_l {S A B} (a : A) (k : A -> M S B) (s : S) :
  mbind (mret a) k s = k a s.
Proof. reflexivity. Qed.

Lemma mbind_ok {S A B} (m : M S A) (k : A -> M S B) (s s' : S) (a : A) :
  m s = (inr a, s') -> mbind m k s = k a s'.
Proof. unfold mbind. intros ->. reflexivity. Qed.


Lemma mbind_assoc {S A B C} (m : M S A) (k : A -> M S B) (k' : B -> M S C)
    (s : S) :
  mbind (mbind m k) k' s = mbind m (fun a => mbind (k a) k') s.
Proof. unfold mbind. destruct (m s) as [[e|a] s']; reflexivity. Qed.

(** ** The transport *)

Module Popen2IOFacts.
Import Popen2IO.

Lemma set_infile_id (io : t) : set_infile (infile io) io = io.
Proof. destruct io; reflexivity. Qed.

(** [read] either delivers exactly [numbytes] bytes or raises [EOFError];
    the fuel of the model never runs out. *)
Lemma read_spec (numbytes : Z) (io : t) :
  read numbytes io =
    if numbytes <=? Z.of_nat (length (infile io))
    then (ret (take (Z.to_nat numbytes) (infile io)),
          set_infile (drop (Z.to_nat numbytes) (infile io)) io)
    else (raise (EOFError "expected more bytes"), set_infile [] io).
Proof.
  unfold read. cbn [read_loop length]. change (Z.of_nat 0) with 0.
  destruct (Z.ltb_spec 0 numbytes) as [Hpos|Hnonpos]; cbn [negb].
  2:{ rewrite mbind_ret_l. unfold mret.
      destruct (Z.leb_spec numbytes (Z.of_nat (length (infile io)))); [|lia].
      replace (Z.to_nat numbytes) with O by lia.
      rewrite take_0, drop_0, set_infile_id. reflexivity. }
  unfold mbind at 1. unfold mbind at 1. unfold _read at 1.
  set (k := Z.to_nat (Z.min numbytes (Z.of_nat (length (infile io))))).
  destruct (Z.leb_spec numbytes (Z.of_nat (length (infile io)))) as [Hle|Hgt].
  - assert (Hk : k = Z.to_nat numbytes) by (unfold k; lia).
    rewrite Hk.
    assert (Hlen : length (take (Z.to_nat numbytes) (infile io))
                   = Z.to_nat numbytes) by (rewrite length_take; lia).
    destruct (take (Z.to_nat numbytes) (infile io)) as [|c data];
      [cbn in Hlen; lia|].
    unfold ret. cbn iota. rewrite app_nil_l.
    destruct (length (infile io)) as [|fuel] eqn:Hfuel; [lia|].
    cbn [read_loop]. rewrite Hlen.
    destruct (Z.ltb_spec (Z.of_nat (Z.to_nat numbytes)) numbytes); [lia|].
    reflexivity.
  - assert (Hk : k = length (infile io)) by (unfold k; lia).
    rewrite Hk, take_ge, drop_ge by lia.
    destruct (infile io) as [|c data] eqn:Hin; [reflexivity|].
    unfold ret. cbn iota. rewrite app_nil_l. cbn [length read_loop].
    destruct (Z.ltb_spec (Z.of_nat (S (length data))) numbytes);
      [|cbn [length] in *; lia].
    cbn [negb]. unfold mbind, _read. cbn [infile set_infile length].
    rewrite take_nil, drop_nil. reflexivity.
Qed.

(** Reading the [n] bytes that head the stream. *)
Lemma read_app (bs rest : list byte) (io : t) (n : Z) :
  infile io = bs ++ rest -> n = Z.of_nat (length bs) ->
  read n io = (ret bs, set_infile rest io).
Proof.
  intros Hin ->. rewrite read_spec, Hin, length_app.
  destruct (Z.leb_spec (Z.of_nat (length bs))
              (Z.of_nat (length bs + length rest))); [|lia].
  rewrite Nat2Z.id, take_app_length, drop_app_length. reflexivity.
Qed.

(** Asking for more than the stream holds. *)
Lemma read_eof (io : t) (n : Z) :
  Z.of_nat (length (infile io)) < n ->
  read n io = (raise (EOFError "expected more bytes"), set_infile [] io).
Proof.
  intros H. rewrite read_spec.
  destruct (Z.leb_spec n (Z.of_nat (length (infile io)))); [lia|reflexivity].
Qed.

Lemma read_length (n : Z) (io io' : t) (r : result (list byte)) :
  read n io = (r, io') -> (length (infile io') <= length (infile io))%nat.
Proof.
  rewrite read_spec.
  destruct (_ <=? _); intros [= <- <-]; cbn; [rewrite length_drop|]; lia.
Qed.

End Popen2IOFacts.

(** ** [struct] packing *)

Module StructFacts.
Import Struct.

Lemma to_N_byte_of_N (n : N) : (n < 256)%N -> Byte.to_N (byte_of_N n) = n.
Proof.
  intros H. unfold byte_of_N.
  destruct (Byte.of_N n) as [c|] eqn:E.
  - apply Byte.to_of_N. exact E.
  - apply Byte.of_N_None_iff in E. lia.
Qed.

Lemma byte_of_N_to_N (c : byte) : byte_of_N (Byte.to_N c) = c.
Proof. unfold byte_of_N. rewrite Byte.of_to_N. reflexivity. Qed.

Lemma length_be_bytes (k : nat) : forall n, length (be_bytes k n) = k.
Proof.
  induction k as [|k IH]; intros n; cbn [be_bytes]; [reflexivity|].
  rewrite length_app, IH. cbn. lia.
Qed.

Lemma be_value_snoc (bs : list byte) (c : byte) :
  be_value (bs ++ [c]) = (be_value bs * 256 + Byte.to_N c)%N.
Proof. unfold be_value. rewrite fold_left_app. reflexivity. Qed.

Lemma be_value_be_bytes (k : nat) :
  forall n, be_value (be_bytes k n) = (n mod 256 ^ N.of_nat k)%N.
Proof.
  induction k as [|k IH]; intros n.
  - cbn. rewrite N.mod_1_r. reflexivity.
  - cbn [be_bytes]. rewrite be_value_snoc, IH.
    rewrite to_N_byte_of_N by (apply N.mod_lt; lia).
    rewrite Nat2N.inj_succ, N.pow_succ_r'.
    rewrite N.Div0.mod_mul_r. lia.
Qed.

(** What [pack_i] lays out, [unpack_i] reads back. *)
Lemma unpack_pack_i (i : Z) (bs : list byte) :
  pack_i i = ret bs -> unpack_i bs = ret i.
Proof.
  unfold pack_i, unpack_i.
  destruct (Z.leb_spec (-2147483648) i) as [H1|]; [|discriminate].
  destruct (Z.leb_spec i 2147483647) as [H2|]; [|discriminate].
  cbn [andb]. unfold ret. intros E.
  assert (Hbs : bs = be_bytes 4 (Z.to_N (i mod 4294967296))) by congruence.
  subst bs. clear E. rewrite length_be_bytes. cbn [Nat.eqb].
  rewrite be_value_be_bytes.
  change (256 ^ N.of_nat 4)%N with 4294967296%N.
  assert (Hm : 0 <= i mod 4294967296 < 4294967296)
    by (apply Z.mod_pos_bound; lia).
  rewrite N.mod_small by lia.
  rewrite Z2N.id by lia.
  f_equal.
  destruct (Z.ltb_spec (i mod 4294967296) 2147483648) as [Hlt|Hge].
  - destruct (Z.lt_ge_cases i 0) as [Hneg|Hpos].
    + rewrite <- (Z.mod_add i 1 4294967296) in Hlt by lia.
      rewrite Z.mod_small in Hlt by lia. lia.
    + apply Z.mod_small. lia.
  - destruct (Z.lt_ge_cases i 0) as [Hneg|Hpos].
    + rewrite <- (Z.mod_add i 1 4294967296) by lia.
      rewrite Z.mod_small by lia. lia.
    + rewrite Z.mod_small in Hge by lia. lia.
Qed.

Lemma pack_i_ok (i : Z) :
  -2147483648 <= i <= 2147483647 ->
  pack_i i = ret (be_bytes 4 (Z.to_N (i mod 4294967296))).
Proof.
  intros [H1 H2]. unfold pack_i.
  apply Z.leb_le in H1, H2. rewrite H1, H2. reflexivity.
Qed.

Lemma pack_i_low (i : Z) :
  i < -2147483648 ->
  pack_i i = raise (struct_error
    "'i' format requires -2147483648 <= number <= 2147483647").
Proof.
  intros H. unfold pack_i.
  destruct (Z.leb_spec (-2147483648) i); [lia|reflexivity].
Qed.

Lemma length_pack_i (i : Z) (bs : list byte) :
  pack_i i = ret bs -> length bs = 4%nat.
Proof.
  unfold pack_i. destruct (_ && _); [|discriminate].
  unfold ret. intros E.
  assert (Hbs : bs = be_bytes 4 (Z.to_N (i mod 4294967296))) by congruence.
  subst bs. apply length_be_bytes.
Qed.

Lemma unpack_pack_d (bits : N) :
  (bits < 2 ^ 64)%N -> unpack_d (pack_d bits) = ret bits.
Proof.
  intros H. unfold unpack_d, pack_d. rewrite length_be_bytes. cbn [Nat.eqb].
  rewrite be_value_be_bytes. change (256 ^ N.of_nat 8)%N with (2 ^ 64)%N.
  rewrite N.mod_small by exact H. reflexivity.
Qed.

End StructFacts.

(** ** Text codecs and integer literals *)

Module CodecFacts.
Import Struct Codec StructFacts Spec.

Lemma utf8_encode_cp_Some (c : N) (bs : list byte) :
  utf8_encode_cp c = Some bs -> encodable c = true.
Proof.
  unfold utf8_encode_cp, encodable.
  repeat match goal with
         | |- context [(?a <? ?b)%N] => destruct (N.ltb_spec a b)
         | |- context [(?a <=? ?b)%N] => destruct (N.leb_spec a b)
         end; cbn; try discriminate; try reflexivity; lia.
Qed.

Lemma encodable_utf8_encode_cp (c : N) :
  encodable c = true -> exists bs, utf8_encode_cp c = Some bs.
Proof.
  unfold utf8_encode_cp, encodable.
  repeat match goal with
         | |- context [(?a <? ?b)%N] => destruct (N.ltb_spec a b)
         | |- context [(?a <=? ?b)%N] => destruct (N.leb_spec a b)
         end; cbn; try discriminate; eauto; lia.
Qed.

Ltac split_cases :=
  repeat match goal with
         | |- context [(?a <? ?b)%N] =>
             destruct (N.ltb_spec a b); try lia
         | |- context [(?a <=? ?b)%N] =>
             destruct (N.leb_spec a b); try lia
         end.

(** Decoding undoes the encoding of one code point. *)
Lemma utf8_decode_encode_cp (c : N) (bs rest : list byte) :
  utf8_encode_cp c = Some bs ->
  utf8_decode (bs ++ rest) = cons c <$> utf8_decode rest.
Proof.
  unfold utf8_encode_cp.
  destruct (N.ltb_spec c 0x80) as [H1|H1].
  { intros [= <-]. cbn [app utf8_decode].
    rewrite to_N_byte_of_N by lia.
    destruct (N.ltb_spec c 0x80); [reflexivity|lia]. }
  destruct (N.ltb_spec c 0x800) as [H2|H2].
  { intros [= <-]. cbn [app utf8_decode]. unfold is_cont, cont.
    pose proof (N.div_mod c 64 ltac:(lia)) as Hdm.
    pose proof (N.mod_lt c 64 ltac:(lia)) as Hm.
    set (q := (c / 64)%N) in *. set (r := (c mod 64)%N) in *.
    rewrite !to_N_byte_of_N by lia.
    split_cases. cbn [andb]. do 2 f_equal. lia. }
  destruct (N.ltb_spec c 0x10000) as [H3|H3].
  { destruct (N.leb_spec 0xD800 c) as [H4|H4];
      [destruct (N.leb_spec c 0xDFFF) as [H5|H5]|]; cbn [andb];
      try discriminate.
    all: intros [= <-]; cbn [app utf8_decode]; unfold is_cont, cont.
    all: pose proof (N.div_mod c 64 ltac:(lia)) as Hdm.
    all: pose proof (N.mod_lt c 64 ltac:(lia)) as Hm.
    all: pose proof (N.div_mod (c / 64) 64 ltac:(lia)) as Hdm'.
    all: pose proof (N.mod_lt (c / 64) 64 ltac:(lia)) as Hm'.
    all: replace (c / 4096)%N with (c / 64 / 64)%N
           by (rewrite N.Div0.div_div; reflexivity).
    all: set (q := (c / 64)%N) in *; set (r := (c mod 64)%N) in *.
    all: set (q' := (q / 64)%N) in *; set (r' := (q mod 64)%N) in *.
    all: rewrite !to_N_byte_of_N by lia.
    all: split_cases; cbn [andb negb]; do 2 f_equal; lia. }
  destruct (N.ltb_spec c 0x110000) as [H4|H4]; [|discriminate].
  intros [= <-]. cbn [app utf8_decode]. unfold is_cont, cont.
  pose proof (N.div_mod c 64 ltac:(lia)) as Hdm.
  pose proof (N.mod_lt c 64 ltac:(lia)) as Hm.
  pose proof (N.div_mod (c / 64) 64 ltac:(lia)) as Hdm'.
  pose proof (N.mod_lt (c / 64) 64 ltac:(lia)) as Hm'.
  pose proof (N.div_mod (c / 64 / 64) 64 ltac:(lia)) as Hdm''.
  pose proof (N.mod_lt (c / 64 / 64) 64 ltac:(lia)) as Hm''.
  replace (c / 262144)%N with (c / 64 / 64 / 64)%N
    by (rewrite !N.Div0.div_div; reflexivity).
  replace (c / 4096)%N with (c / 64 / 64)%N
    by (rewrite N.Div0.div_div; reflexivity).
  set (q := (c / 64)%N) in *; set (r := (c mod 64)%N) in *.
  set (q' := (q / 64)%N) in *; set (r' := (q mod 64)%N) in *.
  set (q'' := (q' / 64)%N) in *; set (r'' := (q' mod 64)%N) in *.
  rewrite !to_N_byte_of_N by lia.
  split_cases; cbn [andb negb]; do 2 f_equal; lia.
Qed.

(** [s.encode("utf-8").decode("utf-8") == s] *)
Lemma utf8_decode_encode (s : list N) : forall bs,
  utf8_encode s = Some bs -> utf8_decode bs = Some s.
Proof.
  induction s as [|c s IH]; intros bs; cbn [utf8_encode].
  - intros [= <-]. reflexivity.
  - destruct (utf8_encode_cp c) as [b1|] eqn:E1; [|discriminate].
    destruct (utf8_encode s) as [b2|] eqn:E2; [|discriminate].
    intros [= <-]. rewrite (utf8_decode_encode_cp _ _ _ E1).
    rewrite (IH _ eq_refl). reflexivity.
Qed.

Lemma utf8_encode_encodable (s : list N) :
  forallb encodable s = true -> exists bs, utf8_encode s = Some bs.
Proof.
  induction s as [|c s IH]; cbn [forallb utf8_encode]; [eauto|].
  intros [Hc Hs]%andb_prop.
  destruct (encodable_utf8_encode_cp c Hc) as [b1 ->].
  destruct (IH Hs) as [b2 ->]. eauto.
Qed.


(** *** Decimal literals *)

Lemma parse_digits_uint (u : Decimal.uint) : forall acc after,
  parse_digits acc after (uint_ascii u) =
    match u with
    | Nil => if after then Some acc else None
    | _ => Some (digits_value acc u)
    end.
Proof.
  induction u as [|u IH|u IH|u IH|u IH|u IH|u IH|u IH|u IH|u IH|u IH];
    intros acc after; [reflexivity|..];
    cbn [uint_ascii parse_digits digits_value];
    match goal with
    | |- context [digit_of ?c] =>
        let d := eval vm_compute in (digit_of c) in
        change (digit_of c) with d
    end; cbn iota; rewrite IH; destruct u; reflexivity.
Qed.

Lemma digits_value_pos (u : Decimal.uint) : forall p,
  digits_value (N.pos p) u = N.pos (Pos.of_uint_acc u p).
Proof.
  induction u as [|u IH|u IH|u IH|u IH|u IH|u IH|u IH|u IH|u IH|u IH];
    intros p; cbn [digits_value Pos.of_uint_acc]; [reflexivity|..];
    rewrite <- IH; f_equal; lia.
Qed.

Lemma digits_value_0 (u : Decimal.uint) : digits_value 0 u = N.of_uint u.
Proof.
  unfold N.of_uint.
  induction u as [|u IH|u IH|u IH|u IH|u IH|u IH|u IH|u IH|u IH|u IH];
    cbn [digits_value Pos.of_uint]; [reflexivity|exact IH|..];
    cbn [N.mul N.add]; apply digits_value_pos.
Qed.

Lemma uint_ascii_nospace (u : Decimal.uint) :
  Forall (fun c => is_space c = false) (uint_ascii u).
Proof.
  induction u; cbn [uint_ascii]; constructor; auto.
Qed.

Lemma lstrip_nospace (c : byte) (l : list byte) :
  is_space c = false -> lstrip (c :: l) = c :: l.
Proof. intros H. cbn [lstrip]. rewrite H. reflexivity. Qed.

Lemma strip_nospace (l : list byte) :
  Forall (fun c => is_space c = false) l -> strip l = l.
Proof.
  intros H. unfold strip.
  assert (Hl : forall l, Forall (fun c => is_space c = false) l ->
                         lstrip l = l).
  { intros [|c l'] Hf; [reflexivity|].
    apply lstrip_nospace. apply (Forall_inv Hf). }
  rewrite (Hl l H), Hl, rev_involutive; [reflexivity|].
  apply Forall_rev. exact H.
Qed.

Lemma uint_ascii_head_digit (u : Decimal.uint) (c : byte) (r : list byte) :
  uint_ascii u = c :: r ->
  Byte.eqb c "-"%byte = false /\ Byte.eqb c "+"%byte = false.
Proof. destruct u; cbn [uint_ascii]; intros [= <- _]; split; reflexivity. Qed.

(** [int(str(i).encode("ascii")) == i] *)
Lemma int_of_bytes_str (i : Z) : int_of_bytes (str_int_ascii i) = Some i.
Proof.
  unfold int_of_bytes, str_int_ascii.
  destruct i as [|p|p]; cbn [Z.to_int].
  - reflexivity.
  - rewrite strip_nospace by apply uint_ascii_nospace.
    pose proof (DecimalPos.Unsigned.to_uint_nonnil p) as Hnil.
    pose proof (DecimalPos.Unsigned.of_to p) as Hval.
    destruct (uint_ascii (Pos.to_uint p)) as [|c r] eqn:E.
    { destruct (Pos.to_uint p); cbn in E; congruence. }
    destruct (uint_ascii_head_digit _ _ _ E) as [-> ->].
    rewrite <- E, parse_digits_uint, digits_value_0.
    unfold N.of_uint. rewrite Hval.
    destruct (Pos.to_uint p); [congruence|reflexivity..].
  - rewrite strip_nospace
      by (constructor; [reflexivity|apply uint_ascii_nospace]).
    change (Byte.eqb "-" "-") with true. cbn iota.
    pose proof (DecimalPos.Unsigned.to_uint_nonnil p) as Hnil.
    pose proof (DecimalPos.Unsigned.of_to p) as Hval.
    rewrite parse_digits_uint, digits_value_0.
    unfold N.of_uint. rewrite Hval.
    destruct (Pos.to_uint p); [congruence|reflexivity..].
Qed.

End CodecFacts.

(** ** The serializer *)

Module SerializerFacts.
Import Serializer Spec.

Lemma set_streamlist_nil_r (s : t) :
  set_streamlist (streamlist s ++ []) s = s.
Proof. rewrite app_nil_r. destruct s; reflexivity. Qed.

Lemma appends_ret {A} (a : A) : appends (mret a) (ret a) [].
Proof. intros s. rewrite set_streamlist_nil_r. reflexivity. Qed.

Lemma appends_raise {A} (e : exn) : appends (A:=A) (mraise e) (inl e) [].
Proof. intros s. rewrite set_streamlist_nil_r. reflexivity. Qed.

Lemma appends_lift {A} (r : result A) : appends (mlift r) r [].
Proof. intros s. rewrite set_streamlist_nil_r. reflexivity. Qed.

Lemma appends__write (data : list byte) : appends (_write data) (ret tt) [data].
Proof. intros s. reflexivity. Qed.

Lemma appends_bind {A B} (m : M t A) (k : A -> M t B) a cs1 r cs2 :
  appends m (inr a) cs1 -> appends (k a) r cs2 ->
  appends (mbind m k) r (cs1 ++ cs2).
Proof.
  intros Hm Hk s. unfold mbind. rewrite Hm, Hk. cbn.
  rewrite app_assoc. reflexivity.
Qed.

Lemma appends_bind_raise {A B} (m : M t A) (k : A -> M t B) e cs :
  appends m (inl e) cs -> appends (mbind m k) (inl e) cs.
Proof. intros Hm s. unfold mbind. rewrite Hm. reflexivity. Qed.


Lemma total_bind {A B} (m : M t A) (k : A -> M t B) :
  total m -> (forall a, total (k a)) -> total (mbind m k).
Proof.
  intros [[e|a] [cs1 Hm]] Hk.
  - exists (inl e), cs1. apply appends_bind_raise. exact Hm.
  - destruct (Hk a) as [r [cs2 Hka]].
    exists r, (cs1 ++ cs2). eapply appends_bind; eassumption.
Qed.

Lemma total_ret {A} (a : A) : total (mret (S:=t) a).
Proof. eexists _, _. apply appends_ret. Qed.
Lemma total_raise {A} (e : exn) : total (A:=A) (mraise e).
Proof. eexists _, _. apply appends_raise. Qed.
Lemma total_lift {A} (r : result A) : total (mlift r).
Proof. eexists _, _. apply appends_lift. Qed.
Lemma total__write (data : list byte) : total (_write data).
Proof. eexists _, _. apply appends__write. Qed.

Lemma total__write_int4 i error : total (_write_int4 i error).
Proof.
  unfold _write_int4. destruct (i >? _); [apply total_raise|].
  apply total_bind; [apply total_lift|intros; apply total__write].
Qed.

Lemma total__write_byte_sequence bs : total (_write_byte_sequence bs).
Proof.
  unfold _write_byte_sequence.
  apply total_bind; [apply total__write_int4|intros; apply total__write].
Qed.

Lemma total__save_integral i a b : total (_save_integral i a b).
Proof.
  unfold _save_integral. destruct (i <=? _).
  - apply total_bind; [apply total__write|intros; apply total__write_int4].
  - apply total_bind;
      [apply total__write|intros; apply total__write_byte_sequence].
Qed.

Lemma total_for_each (f : value -> M t unit) (l : list value) :
  Forall (fun v => total (f v)) l ->
  total ((fix for_each_item (items : list value) : M t unit :=
            match items with
            | [] => mret tt
            | item :: items' => f item;; for_each_item items'
            end) l).
Proof.
  induction 1 as [|v l Hv _ IH]; [apply total_ret|].
  apply total_bind; [exact Hv|intros; exact IH].
Qed.

Lemma total__save (v : value) : total (_save v).
Proof.
  induction v using value_nested_ind; cbn [_save].
  - apply total__write.
  - destruct b; apply total__write.
  - apply total__save_integral.
  - apply total_bind; [apply total__write|intros; apply total__write].
  - apply total_bind;
      [apply total__write|intros; apply total__write_byte_sequence].
  - apply total_bind; [apply total__write|intros].
    unfold _write_unicode_string.
    destruct (Codec.utf8_encode s);
      [apply total__write_byte_sequence|apply total_raise].
  - apply total_bind; [apply total__write|intros _].
    apply total_bind; [apply total__write_int4|intros _].
    generalize 0 as i.
    induction H as [|v l Hv _ IH]; intros i; [apply total_ret|].
    apply total_bind; [|intros; apply IH].
    unfold _write_setitem.
    apply total_bind; [apply total__save_integral|intros _].
    apply total_bind; [exact Hv|intros; apply total__write].
  - apply total_bind; [apply total__write|intros _].
    induction H as [|[k v] d [Hk Hv] _ IH]; [apply total_ret|].
    apply total_bind; [|intros; apply IH].
    unfold _write_setitem.
    apply total_bind; [exact Hk|intros _].
    apply total_bind; [exact Hv|intros; apply total__write].
  - apply total_bind; [apply total_for_each; exact H|intros _].
    apply total_bind; [apply total__write|intros; apply total__write_int4].
  - apply total_bind; [apply total_for_each; exact H|intros _].
    apply total_bind; [apply total__write|intros; apply total__write_int4].
  - apply total_bind; [apply total_for_each; exact H|intros _].
    apply total_bind; [apply total__write|intros; apply total__write_int4].
  - apply total_bind; [apply total__write|intros; apply total__write_int4].
  - apply total_raise.
  - apply total_raise.
Qed.

(** [save] in terms of what [_save] does to the buffer. *)
Lemma save_spec (obj : value) (r : result unit) (cs : list (list byte))
    (s : t) :
  appends (_save obj) r cs -> WRITE_ON_SUCCESS s = true ->
  save obj s =
    match r with
    | inl e => (inl e, set_streamlist cs s)
    | inr _ =>
        let data := concat (cs ++ [[opcode.STOP]]) in
        match Popen2IO.write data (_stream s) with
        | (r', io) =>
            (r', set__stream io (set_streamlist (cs ++ [[opcode.STOP]]) s))
        end
    end.
Proof.
  intros Hcs Hwos. unfold save, _write, mbind, mget, mmodify, ret.
  cbv beta iota. rewrite Hwos, Hcs.
  destruct r as [e|[]]; destruct s; reflexivity.
Qed.

Lemma save_streaming (obj : value) (s : t) :
  WRITE_ON_SUCCESS s = false ->
  save obj s =
    (raise (AttributeError "'Serializer' object has no attribute 'stream'"), s).
Proof. intros H. unfold save, mbind, mget, ret. cbv beta iota. rewrite H. reflexivity. Qed.

(** [serialize] in terms of what [_save] does to the buffer. *)
Lemma serialize_spec (obj : value) (r : result unit) (cs : list (list byte)) :
  appends (_save obj) r cs ->
  serialize obj =
    match r with
    | inl e => raise e
    | inr _ => ret (concat cs ++ [opcode.STOP])
    end.
Proof.
  intros Hcs. unfold serialize.
  rewrite (save_spec _ _ _ (__init__ fresh_io) Hcs eq_refl).
  destruct r as [e|[]]; [reflexivity|].
  cbn. rewrite concat_app. cbn. rewrite !app_nil_r. reflexivity.
Qed.

End SerializerFacts.

(** ** The unserializer *)

Module UnserializerFacts.
Import Unserializer Spec Popen2IOFacts StructFacts.

Lemma at_state_at_state u d1 s1 d2 s2 :
  at_state (at_state u d1 s1) d2 s2 = at_state u d2 s2.
Proof. reflexivity. Qed.

Lemma at_state_id u :
  at_state u (Popen2IO.infile (stream u)) (stack u) = u.
Proof. destruct u as [[] ? ? ? ?]; reflexivity. Qed.

Lemma stack_at_state u d st : stack (at_state u d st) = st.
Proof. reflexivity. Qed.

Lemma infile_at_state u d st : Popen2IO.infile (stream (at_state u d st)) = d.
Proof. reflexivity. Qed.

Lemma int4_pack (i : Z) :
  -2147483648 <= i <= 2147483647 -> Struct.pack_i i = ret (int4 i).
Proof. apply pack_i_ok. Qed.

Lemma length_int4 (i : Z) : length (int4 i) = 4%nat.
Proof. apply length_be_bytes. Qed.

Lemma unpack_int4 (i : Z) :
  -2147483648 <= i <= 2147483647 -> Struct.unpack_i (int4 i) = ret i.
Proof. intros H. apply unpack_pack_i, int4_pack, H. Qed.

(** *** Single methods on a known stream *)

Lemma stream_read_at u (bs rest : list byte) st (n : Z) :
  n = Z.of_nat (length bs) ->
  stream_read n (at_state u (bs ++ rest) st) = (ret bs, at_state u rest st).
Proof.
  intros Hn. unfold stream_read.
  rewrite (read_app bs rest _ n) by (try reflexivity; exact Hn).
  reflexivity.
Qed.

Lemma append_at v u d st :
  append v (at_state u d st) = (ret tt, at_state u d (st ++ [v])).
Proof. reflexivity. Qed.

Lemma _read_int4_at u (i : Z) rest st :
  -2147483648 <= i <= 2147483647 ->
  _read_int4 (at_state u (int4 i ++ rest) st) = (ret i, at_state u rest st).
Proof.
  intros Hi. unfold _read_int4.
  rewrite (mbind_ok _ _ _ _ _ (stream_read_at u (int4 i) rest st 4
                                 ltac:(rewrite length_int4; reflexivity))).
  unfold mlift. rewrite unpack_int4 by exact Hi. reflexivity.
Qed.

Lemma fits_range (n : nat) :
  fits n = true -> -2147483648 <= Z.of_nat n <= 2147483647.
Proof. unfold fits, FOUR_BYTE_INT_MAX. intros H%Z.leb_le. lia. Qed.

Lemma _read_byte_string_at u (bs rest : list byte) st :
  fits (length bs) = true ->
  _read_byte_string (at_state u (int4 (Z.of_nat (length bs)) ++ bs ++ rest) st)
  = (ret bs, at_state u rest st).
Proof.
  intros Hfit. apply fits_range in Hfit.
  unfold _read_byte_string.
  rewrite (mbind_ok _ _ _ _ _ (_read_int4_at u _ (bs ++ rest) st Hfit)).
  apply stream_read_at. reflexivity.
Qed.

Lemma load_step_at u (c : byte) rest st loader :
  lookup_loader [c] = Some loader ->
  load_step (at_state u (c :: rest) st) = call loader (at_state u rest st).
Proof.
  intros Hl. unfold load_step.
  rewrite (mbind_ok _ _ _ _ _ (stream_read_at u [c] rest st 1 eq_refl)).
  rewrite Hl. reflexivity.
Qed.

(** *** Passes of the loop *)

Lemma passes_one u u' :
  load_step u = (inr tt, u') -> passes 1 u = Some u'.
Proof. intros H. cbn [passes]. rewrite H. reflexivity. Qed.

Lemma passes_app k1 : forall k2 u u1 u2,
  passes k1 u = Some u1 -> passes k2 u1 = Some u2 ->
  passes (k1 + k2) u = Some u2.
Proof.
  induction k1 as [|k1 IH]; intros k2 u u1 u2; cbn [passes Nat.add].
  - intros [= <-]. auto.
  - destruct (load_step u) as [[e|[]] u']; [discriminate|]. apply IH.
Qed.

Lemma load_loop_passes k : forall n u u',
  passes k u = Some u' -> load_loop (k + n) u = load_loop n u'.
Proof.
  induction k as [|k IH]; intros n u u'; cbn [passes load_loop Nat.add].
  - intros [= <-]. reflexivity.
  - destruct (load_step u) as [[e|[]] u1]; [discriminate|]. apply IH.
Qed.

(** *** Decoding what the serializer writes *)

Lemma decodes_app_one cs1 cs2 v :
  (forall u rest st, exists k,
      passes k (at_state u (concat cs1 ++ rest) st) = Some (at_state u rest st)) ->
  decodes cs2 v -> decodes (cs1 ++ cs2) v.
Proof.
  intros H1 H2 u rest st. rewrite concat_app, <- app_assoc.
  destruct (H1 u (concat cs2 ++ rest) st) as [k1 Hk1].
  destruct (H2 u rest st) as [k2 Hk2].
  exists (k1 + k2)%nat. eapply passes_app; eassumption.
Qed.

Ltac one_pass :=
  intros u rest st; exists 1%nat; apply passes_one;
  cbn [concat app]; rewrite <- ?app_assoc; cbn [app];
  erewrite load_step_at by reflexivity; cbn [snd call].

Lemma decodes_none : decodes [[opcode.NONE]] VNone.
Proof. one_pass. reflexivity. Qed.

Lemma decodes_true : decodes [[opcode.TRUE]] (VBool true).
Proof. one_pass. reflexivity. Qed.

Lemma decodes_false : decodes [[opcode.FALSE]] (VBool false).
Proof. one_pass. reflexivity. Qed.

Lemma decodes_int (i : Z) :
  -2147483648 <= i <= 2147483647 ->
  decodes [[opcode.INT]; int4 i] (VInt i).
Proof.
  intros Hi. one_pass. unfold load_int.
  rewrite (mbind_ok _ _ _ _ _ (_read_int4_at u i rest st Hi)).
  reflexivity.
Qed.

Lemma decodes_longint (i : Z) :
  fits (length (Codec.str_int_ascii i)) = true ->
  decodes [[opcode.LONGINT];
           int4 (Z.of_nat (length (Codec.str_int_ascii i)));
           Codec.str_int_ascii i] (VInt i).
Proof.
  intros Hfit. one_pass. unfold load_longint.
  rewrite (mbind_ok _ _ _ _ _ (_read_byte_string_at u _ rest st Hfit)).
  rewrite CodecFacts.int_of_bytes_str. reflexivity.
Qed.

Lemma decodes_float (bits : N) :
  (bits < 2 ^ 64)%N ->
  decodes [[opcode.FLOAT]; Struct.pack_d bits] (VFloat bits).
Proof.
  intros Hb. one_pass. unfold load_float.
  rewrite (mbind_ok _ _ _ _ _ (stream_read_at u (Struct.pack_d bits) rest st
             FLOAT_FORMAT_SIZE
             ltac:(unfold Struct.pack_d; rewrite length_be_bytes; reflexivity))).
  unfold mlift, mbind. rewrite unpack_pack_d by exact Hb. reflexivity.
Qed.

Lemma decodes_bytes (bs : list byte) :
  fits (length bs) = true ->
  decodes [[opcode.BYTES]; int4 (Z.of_nat (length bs)); bs] (VBytes bs).
Proof.
  intros Hfit. one_pass. unfold load_bytes.
  rewrite (mbind_ok _ _ _ _ _ (_read_byte_string_at u _ rest st Hfit)).
  reflexivity.
Qed.

Lemma decodes_str (s : list N) (as_bytes : list byte) :
  Codec.utf8_encode s = Some as_bytes -> fits (length as_bytes) = true ->
  decodes [[opcode.PY3STRING]; int4 (Z.of_nat (length as_bytes)); as_bytes]
    (VStr s).
Proof.
  intros Henc Hfit. one_pass. unfold load_py3string.
  rewrite (mbind_ok _ _ _ _ _ (_read_byte_string_at u _ rest st Hfit)).
  unfold mbind, mget, decode_utf8. cbn [ISPY3 negb andb ret].
  rewrite (CodecFacts.utf8_decode_encode _ _ Henc). reflexivity.
Qed.

End UnserializerFacts.

(** ** The round trip *)

Module RoundTrip.
Import Serializer Unserializer Spec.
Import Popen2IOFacts StructFacts SerializerFacts UnserializerFacts.



Lemma decodes_rewrites cs v : decodes cs v <-> rewrites cs [] [v].
Proof.
  unfold decodes, rewrites. split; intros H u rest st.
  - rewrite app_nil_r. apply H.
  - specialize (H u rest st). rewrite app_nil_r in H. exact H.
Qed.

Lemma rewrites_nil st : rewrites [] st st.
Proof. intros u rest st0. exists 0%nat. reflexivity. Qed.

Lemma rewrites_app cs1 cs2 a b c :
  rewrites cs1 a b -> rewrites cs2 b c -> rewrites (cs1 ++ cs2) a c.
Proof.
  intros H1 H2 u rest st. rewrite concat_app, <- app_assoc.
  destruct (H1 u (concat cs2 ++ rest) st) as [k1 Hk1].
  destruct (H2 u rest st) as [k2 Hk2].
  exists (k1 + k2)%nat. eapply passes_app; eassumption.
Qed.

Lemma rewrites_frame cs a b pre :
  rewrites cs a b -> rewrites cs (pre ++ a) (pre ++ b).
Proof.
  intros H u rest st. rewrite !app_assoc. apply H.
Qed.

Lemma decodes_push cs v pre : decodes cs v -> rewrites cs pre (pre ++ [v]).
Proof.
  intros H. apply decodes_rewrites in H.
  apply (rewrites_frame _ _ _ pre) in H. rewrite app_nil_r in H. exact H.
Qed.

(** *** What the writers append *)

Lemma appends__write_int4 (i : Z) (error : string) :
  -2147483648 <= i <= 2147483647 ->
  appends (_write_int4 i error) (ret tt) [int4 i].
Proof.
  intros Hi. unfold _write_int4, FOUR_BYTE_INT_MAX.
  destruct (Z.gtb_spec i 2147483647); [lia|].
  rewrite <- (app_nil_l [int4 i]).
  eapply appends_bind; [|apply appends__write].
  rewrite int4_pack by exact Hi. apply appends_lift.
Qed.



Lemma appends__write_byte_sequence (bs : list byte) :
  fits (length bs) = true ->
  appends (_write_byte_sequence bs) (ret tt)
    [int4 (Z.of_nat (length bs)); bs].
Proof.
  intros Hfit. unfold _write_byte_sequence.
  change [int4 (Z.of_nat (length bs)); bs]
    with ([int4 (Z.of_nat (length bs))] ++ [bs]).
  eapply appends_bind; [|apply appends__write].
  apply appends__write_int4, fits_range, Hfit.
Qed.

Lemma appends_op_then {A} (c : byte) (m : M Serializer.t A) r cs :
  appends m r cs -> appends (_write [c];; m) r ([c] :: cs).
Proof.
  intros H. change ([c] :: cs) with ([[c]] ++ cs).
  eapply appends_bind; [apply appends__write|exact H].
Qed.

Lemma appends_save_int (i : Z) :
  -2147483648 <= i <= 2147483647 ->
  appends (save_int i) (ret tt) [[opcode.INT]; int4 i].
Proof.
  intros Hi. unfold save_int, _save_integral, FOUR_BYTE_INT_MAX.
  destruct (Z.leb_spec i 2147483647); [|lia].
  apply appends_op_then, appends__write_int4, Hi.
Qed.

(** *** Scalars *)

Lemma RT_int (i : Z) : supported (VInt i) = true -> RT _save (VInt i).
Proof.
  cbn [supported]. unfold FOUR_BYTE_INT_MAX.
  intros [Hlo Hhi]%andb_prop. apply Z.leb_le in Hlo.
  unfold RT. cbn [_save]. unfold save_int, _save_integral, FOUR_BYTE_INT_MAX.
  destruct (Z.leb_spec i 2147483647) as [Hle|Hgt].
  - eexists. split.
    + apply appends_op_then, appends__write_int4. lia.
    + apply decodes_int. lia.
  - cbn [orb] in Hhi. eexists. split.
    + apply appends_op_then, appends__write_byte_sequence, Hhi.
    + apply decodes_longint, Hhi.
Qed.

Lemma RT_float (bits : N) : supported (VFloat bits) = true -> RT _save (VFloat bits).
Proof.
  cbn [supported]. intros H%N.ltb_lt. eexists. split.
  - cbn [_save]. unfold save_float. apply appends_op_then, appends__write.
  - apply decodes_float, H.
Qed.

Lemma RT_bytes (bs : list byte) : supported (VBytes bs) = true -> RT _save (VBytes bs).
Proof.
  cbn [supported]. intros H. eexists. split.
  - cbn [_save]. unfold save_bytes.
    apply appends_op_then, appends__write_byte_sequence, H.
  - apply decodes_bytes, H.
Qed.

Lemma RT_str (s : list N) : supported (VStr s) = true -> RT _save (VStr s).
Proof.
  cbn [supported]. destruct (Codec.utf8_encode s) as [as_bytes|] eqn:E;
    [|discriminate].
  intros H. eexists. split.
  - cbn [_save]. unfold save_str, _write_unicode_string. rewrite E.
    apply appends_op_then, appends__write_byte_sequence, H.
  - apply decodes_str; assumption.
Qed.



(** *** Stack surgery of the loaders *)

Lemma pop_at u d st v :
  pop (at_state u d (st ++ [v])) = (ret v, at_state u d st).
Proof.
  unfold pop, mbind, mget, ret. cbv beta iota.
  rewrite stack_at_state, rev_unit.
  unfold mmodify, mret, ret. cbv beta iota.
  unfold at_state. cbn. rewrite rev_involutive. reflexivity.
Qed.

Lemma load_setitem_at u d st c key val c' :
  setitem c key val = ret c' ->
  load_setitem (at_state u d (st ++ [c; key; val]))
  = (ret tt, at_state u d (st ++ [c'])).
Proof.
  intros Hset. unfold load_setitem.
  unfold mbind at 1. unfold mget at 1. unfold ret at 1. cbv beta iota.
  rewrite stack_at_state, length_app. cbn [length].
  destruct (Nat.ltb_spec (length st + 3) 3); [lia|].
  change (st ++ [c; key; val]) with (st ++ [c] ++ [key] ++ [val]).
  rewrite !app_assoc.
  rewrite (mbind_ok _ _ _ _ _ (pop_at u d _ val)).
  rewrite (mbind_ok _ _ _ _ _ (pop_at u d _ key)).
  unfold mbind at 1. unfold mget at 1. unfold ret at 1. cbv beta iota.
  rewrite stack_at_state, rev_unit.
  unfold mbind, mlift. rewrite Hset. unfold ret, mmodify. cbv beta iota.
  unfold at_state. cbn. rewrite rev_involutive. reflexivity.
Qed.

Lemma _load_tuple_at u rest st items :
  fits (length items) = true ->
  _load_tuple (at_state u (int4 (Z.of_nat (length items)) ++ rest) (st ++ items))
  = (ret items, at_state u rest st).
Proof.
  intros Hfit. unfold _load_tuple.
  rewrite (mbind_ok _ _ _ _ _
             (_read_int4_at u _ rest (st ++ items) (fits_range _ Hfit))).
  destruct (Z.eqb_spec (Z.of_nat (length items)) 0) as [H0|Hne]; cbn [negb].
  - destruct items; [|cbn in H0; lia].
    rewrite app_nil_r. reflexivity.
  - unfold mbind, mget, mmodify, mret, ret. cbv beta iota.
    rewrite stack_at_state, length_app.
    assert (Hk : slice_start (- Z.of_nat (length items))
                   (Z.of_nat (length st + length items)) = length st).
    { unfold slice_start.
      destruct (Z.ltb_spec (- Z.of_nat (length items)) 0); lia. }
    rewrite Hk, drop_app_length, take_app_length. reflexivity.
Qed.

(** *** Hash-based containers *)

Lemma distinct_app_cons l1 : forall k l2,
  PyEq.distinct (l1 ++ k :: l2) = true ->
  PyEq.contains l1 k = false.
Proof.
  induction l1 as [|k' l1 IH]; intros k l2; [reflexivity|].
  cbn [app PyEq.distinct PyEq.contains existsb].
  intros [Hk' Hd]%andb_prop.
  apply negb_true_iff in Hk'. rewrite existsb_app in Hk'.
  apply orb_false_iff in Hk' as [_ Hk'].
  cbn [existsb] in Hk'. apply orb_false_iff in Hk' as [Hk' _].
  rewrite Hk'. cbn [orb]. exact (IH _ _ Hd).
Qed.

Lemma set_of_distinct items : forall acc,
  forallb PyEq.hashable items = true ->
  PyEq.distinct (acc ++ items) = true ->
  PyEq.set_of acc items = ret (acc ++ items).
Proof.
  induction items as [|x items IH]; intros acc Hh Hd; cbn [PyEq.set_of].
  - rewrite app_nil_r. reflexivity.
  - cbn [forallb] in Hh. apply andb_prop in Hh as [Hx Hh].
    rewrite Hx. cbn [negb].
    rewrite (distinct_app_cons _ _ _ Hd).
    rewrite IH; [rewrite <- app_assoc; reflexivity|exact Hh|].
    rewrite <- app_assoc. exact Hd.
Qed.

Lemma dict_update_fresh d : forall k v,
  PyEq.contains (map fst d) k = false ->
  PyEq.dict_update d k v = d ++ [(k, v)].
Proof.
  induction d as [|[k' v'] d IH]; intros k v; [reflexivity|].
  cbn [map fst PyEq.contains existsb PyEq.dict_update app].
  intros [Hk' Hc]%orb_false_iff. rewrite Hk'. f_equal. apply IH, Hc.
Qed.


(** *** Sequences of items *)

Lemma RT_for_each (f : value -> M Serializer.t unit) (items : list value) :
  Forall (RT f) items ->
  exists cs,
    appends ((fix for_each_item (items : list value) : M Serializer.t unit :=
                match items with
                | [] => mret tt
                | item :: items' => f item;; for_each_item items'
                end) items) (ret tt) cs
    /\ forall pre, rewrites cs pre (pre ++ items).
Proof.
  induction 1 as [|v l [cs1 [Ha Hd]] _ [cs2 [IHa IHd]]].
  - exists []. split; [apply appends_ret|].
    intros pre. rewrite app_nil_r. apply rewrites_nil.
  - exists (cs1 ++ cs2). split.
    + eapply appends_bind; [exact Ha|exact IHa].
    + intros pre. eapply rewrites_app; [apply decodes_push, Hd|].
      change (v :: l) with ([v] ++ l). rewrite app_assoc. apply IHd.
Qed.

Lemma rewrites_op (c : byte) loader before after :
  lookup_loader [c] = Some loader ->
  (forall u rest st,
      call loader (at_state u rest (st ++ before))
      = (ret tt, at_state u rest (st ++ after))) ->
  rewrites [[c]] before after.
Proof.
  intros Hl Hc u rest st. exists 1%nat. apply passes_one.
  cbn [concat app]. rewrite (load_step_at _ _ _ _ _ Hl). apply Hc.
Qed.

(** An opcode followed by its four-byte operand. *)
Lemma rewrites_op_int4 (c : byte) loader (n : Z) before after :
  lookup_loader [c] = Some loader ->
  (forall u rest st,
      call loader (at_state u (int4 n ++ rest) (st ++ before))
      = (ret tt, at_state u rest (st ++ after))) ->
  rewrites [[c]; int4 n] before after.
Proof.
  intros Hl Hc u rest st. exists 1%nat. apply passes_one.
  cbn [concat app]. rewrite app_nil_r.
  rewrite (load_step_at _ _ _ _ _ Hl). apply Hc.
Qed.

Lemma RT_tuple (l : list value) :
  fits (length l) = true -> Forall (RT _save) l -> RT _save (VTuple l).
Proof.
  intros Hfit Hl. destruct (RT_for_each _ _ Hl) as [cs [Ha Hd]].
  exists (cs ++ [[opcode.BUILDTUPLE]; int4 (Z.of_nat (length l))]). split.
  - cbn [_save]. eapply appends_bind; [exact Ha|].
    apply appends_op_then, appends__write_int4, fits_range, Hfit.
  - apply decodes_rewrites. eapply rewrites_app; [apply (Hd [])|].
    cbn [app]. eapply rewrites_op_int4; [reflexivity|].
    intros u rest st. cbn [snd call]. unfold load_buildtuple.
    rewrite (mbind_ok _ _ _ _ _ (_load_tuple_at u rest st l Hfit)).
    reflexivity.
Qed.

Lemma RT_set (l : list value) :
  fits (length l) = true -> forallb PyEq.hashable l = true ->
  PyEq.distinct l = true -> Forall (RT _save) l -> RT _save (VSet l).
Proof.
  intros Hfit Hh Hdist Hl. destruct (RT_for_each _ _ Hl) as [cs [Ha Hd]].
  exists (cs ++ [[opcode.SET]; int4 (Z.of_nat (length l))]). split.
  - cbn [_save]. eapply appends_bind; [exact Ha|].
    apply appends_op_then, appends__write_int4, fits_range, Hfit.
  - apply decodes_rewrites. eapply rewrites_app; [apply (Hd [])|].
    cbn [app]. eapply rewrites_op_int4; [reflexivity|].
    intros u rest st. cbn [snd call]. unfold load_set.
    rewrite (mbind_ok _ _ _ _ _ (_load_tuple_at u rest st l Hfit)).
    unfold mbind, mlift. rewrite (set_of_distinct l [] Hh Hdist).
    reflexivity.
Qed.

Lemma RT_frozenset (l : list value) :
  fits (length l) = true -> forallb PyEq.hashable l = true ->
  PyEq.distinct l = true -> Forall (RT _save) l -> RT _save (VFrozenset l).
Proof.
  intros Hfit Hh Hdist Hl. destruct (RT_for_each _ _ Hl) as [cs [Ha Hd]].
  exists (cs ++ [[opcode.FROZENSET]; int4 (Z.of_nat (length l))]). split.
  - cbn [_save]. eapply appends_bind; [exact Ha|].
    apply appends_op_then, appends__write_int4, fits_range, Hfit.
  - apply decodes_rewrites. eapply rewrites_app; [apply (Hd [])|].
    cbn [app]. eapply rewrites_op_int4; [reflexivity|].
    intros u rest st. cbn [snd call]. unfold load_frozenset.
    rewrite (mbind_ok _ _ _ _ _ (_load_tuple_at u rest st l Hfit)).
    unfold mbind, mlift. rewrite (set_of_distinct l [] Hh Hdist).
    reflexivity.
Qed.


(** *** Lists *)

Lemma setitem_list done item (pending : list value) :
  setitem (VList (done ++ VNone :: pending))
    (VInt (Z.of_nat (length done))) item
  = ret (VList (done ++ item :: pending)).
Proof.
  unfold setitem. cbn [as_index].
  destruct (Z.ltb_spec (Z.of_nat (length done)) 0); [lia|].
  rewrite length_app. cbn [length].
  destruct (Z.leb_spec 0 (Z.of_nat (length done))); [|lia].
  destruct (Z.ltb_spec (Z.of_nat (length done))
              (Z.of_nat (length done + S (length pending)))); [|lia].
  cbn [andb]. rewrite Nat2Z.id.
  rewrite insert_app_r_alt by lia. rewrite Nat.sub_diag. reflexivity.
Qed.

Lemma RT_enumerate (f : value -> M Serializer.t unit) (items : list value) :
  Forall (RT f) items ->
  forall done,
    fits (length done + length items) = true ->
    exists cs,
      appends ((fix enumerate (i : Z) (items : list value)
                  : M Serializer.t unit :=
                  match items with
                  | [] => mret tt
                  | item :: items' =>
                      _write_setitem (save_int i) (f item);;
                      enumerate (i + 1) items'
                  end) (Z.of_nat (length done)) items) (ret tt) cs
      /\ rewrites cs
           [VList (done ++ repeat VNone (length items))]
           [VList (done ++ items)].
Proof.
  induction 1 as [|v l [cs1 [Ha Hd]] _ IH]; intros done Hfit.
  - exists []. split; [apply appends_ret|]. apply rewrites_nil.
  - cbn [length] in Hfit.
    destruct (IH (done ++ [v])) as [cs2 [IHa IHd]].
    { rewrite length_app. cbn [length].
      replace (length done + 1 + length l)%nat
        with (length done + S (length l))%nat by lia. exact Hfit. }
    pose proof (fits_range _ Hfit) as Hr.
    assert (Hi : -2147483648 <= Z.of_nat (length done) <= 2147483647) by lia.
    exists (([[opcode.INT]; int4 (Z.of_nat (length done))]
             ++ cs1 ++ [[opcode.SETITEM]]) ++ cs2). split.
    + eapply appends_bind.
      * unfold _write_setitem.
        eapply appends_bind; [apply appends_save_int, Hi|].
        eapply appends_bind; [exact Ha|apply appends__write].
      * rewrite length_app in IHa. cbn [length] in IHa.
        replace (Z.of_nat (length done) + 1)
          with (Z.of_nat (length done + 1)) by lia.
        exact IHa.
    + cbn [length repeat].
      replace (done ++ v :: l) with ((done ++ [v]) ++ l)
        by (rewrite <- app_assoc; reflexivity).
      rewrite <- app_assoc in IHd. cbn [app] in IHd.
      eapply rewrites_app; [|exact IHd].
      eapply rewrites_app;
        [apply (decodes_push [[opcode.INT]; int4 (Z.of_nat (length done))]
                (VInt (Z.of_nat (length done)))
                [VList (done ++ VNone :: repeat VNone (length l))]),
               decodes_int, Hi|].
      eapply rewrites_app; [apply decodes_push, Hd|].
      eapply rewrites_op; [reflexivity|].
      intros u rest st. cbn [snd call].
      rewrite <- !app_assoc. cbn [app].
      apply load_setitem_at. apply setitem_list.
Qed.

Lemma RT_list (l : list value) :
  fits (length l) = true -> Forall (RT _save) l -> RT _save (VList l).
Proof.
  intros Hfit Hl.
  destruct (RT_enumerate _ _ Hl [] Hfit) as [cs [Ha Hd]].
  exists ([[opcode.NEWLIST]; int4 (Z.of_nat (length l))] ++ cs). split.
  - cbn [_save]. apply appends_op_then.
    change (int4 (Z.of_nat (length l)) :: cs)
      with ([int4 (Z.of_nat (length l))] ++ cs).
    eapply appends_bind;
      [apply appends__write_int4, fits_range, Hfit|exact Ha].
  - apply decodes_rewrites. eapply rewrites_app; [|exact Hd].
    eapply rewrites_op_int4; [reflexivity|].
    intros u rest st. cbn [snd call]. unfold load_newlist.
    rewrite (mbind_ok _ _ _ _ _
               (_read_int4_at u _ rest (st ++ []) (fits_range _ Hfit))).
    rewrite Nat2Z.id, app_nil_r. reflexivity.
Qed.

(** *** Dicts *)

Lemma RT_items (f : value -> M Serializer.t unit)
    (kvs : list (value * value)) :
  Forall (fun kv => RT f (fst kv) /\ RT f (snd kv)) kvs ->
  forall done,
    forallb PyEq.hashable (map fst kvs) = true ->
    PyEq.distinct (map fst done ++ map fst kvs) = true ->
    exists cs,
      appends ((fix items (kvs : list (value * value))
                  : M Serializer.t unit :=
                  match kvs with
                  | [] => mret tt
                  | (key, val) :: kvs' =>
                      _write_setitem (f key) (f val);;
                      items kvs'
                  end) kvs) (ret tt) cs
      /\ rewrites cs [VDict done] [VDict (done ++ kvs)].
Proof.
  induction 1 as [|[k v] l [[ck [Hka Hkd]] [cv [Hva Hvd]]] _ IH];
    intros done Hh Hdist.
  - exists []. split; [apply appends_ret|].
    rewrite app_nil_r. apply rewrites_nil.
  - cbn [map fst forallb] in Hh, Hdist.
    apply andb_prop in Hh as [Hk Hh].
    destruct (IH (done ++ [(k, v)]) Hh) as [cs2 [IHa IHd]].
    { rewrite map_app, <- app_assoc. exact Hdist. }
    exists ((ck ++ cv ++ [[opcode.SETITEM]]) ++ cs2). split.
    + eapply appends_bind; [|exact IHa].
      unfold _write_setitem.
      eapply appends_bind; [exact Hka|].
      eapply appends_bind; [exact Hva|apply appends__write].
    + replace (done ++ (k, v) :: l) with ((done ++ [(k, v)]) ++ l)
        by (rewrite <- app_assoc; reflexivity).
      eapply rewrites_app; [|exact IHd].
      eapply rewrites_app; [apply (decodes_push ck k [VDict done]), Hkd|].
      eapply rewrites_app; [apply decodes_push, Hvd|].
      eapply rewrites_op; [reflexivity|].
      intros u rest st. cbn [snd call].
      rewrite <- !app_assoc. cbn [app].
      apply load_setitem_at.
      unfold setitem, PyEq.dict_setitem. rewrite Hk.
      cbn [rbind ret]. unfold ret.
      rewrite dict_update_fresh; [reflexivity|].
      eapply distinct_app_cons. exact Hdist.
Qed.

Lemma RT_dict (d : list (value * value)) :
  forallb PyEq.hashable (map fst d) = true ->
  PyEq.distinct (map fst d) = true ->
  Forall (fun kv => RT _save (fst kv) /\ RT _save (snd kv)) d ->
  RT _save (VDict d).
Proof.
  intros Hh Hdist Hd.
  destruct (RT_items _ _ Hd [] Hh Hdist) as [cs [Ha Hr]].
  exists ([[opcode.NEWDICT]] ++ cs). split.
  - cbn [_save]. eapply appends_bind; [apply appends__write|exact Ha].
  - apply decodes_rewrites. eapply rewrites_app; [|exact Hr].
    eapply rewrites_op; [reflexivity|].
    intros u rest st. rewrite app_nil_r. reflexivity.
Qed.


(** *** Every supported value *)

Lemma forallb_Forall_imp {A} (f : A -> bool) (P : A -> Prop) (l : list A) :
  Forall (fun x => f x = true -> P x) l -> forallb f l = true -> Forall P l.
Proof.
  induction 1 as [|x l Hx _ IH]; cbn [forallb]; [constructor|].
  intros [H1 H2]%andb_prop. constructor; auto.
Qed.

Lemma RT_supported (v : value) : supported v = true -> RT _save v.
Proof.
  induction v as [ | b | i | f | s | s | l IH | d IH | l IH | l IH | l IH
                 | id | e IH | tp ] using value_nested_ind;
    intros Hs.
  - exists [[opcode.NONE]]. split;
      [apply appends__write|apply decodes_none].
  - destruct b.
    + exists [[opcode.TRUE]]. split;
        [apply appends__write|apply decodes_true].
    + exists [[opcode.FALSE]]. split;
        [apply appends__write|apply decodes_false].
  - apply RT_int, Hs.
  - apply RT_float, Hs.
  - apply RT_bytes, Hs.
  - apply RT_str, Hs.
  - cbn [supported] in Hs. apply andb_prop in Hs as [Hfit Hall].
    apply RT_list; [exact Hfit|].
    eapply forallb_Forall_imp; eassumption.
  - cbn [supported] in Hs.
    apply andb_prop in Hs as [Hs Hdist]. apply andb_prop in Hs as [Hall Hh].
    apply RT_dict; [exact Hh|exact Hdist|].
    revert Hall. clear -IH.
    induction IH as [|[k v] d [Hk Hv] _ IHd]; cbn [forallb fst snd];
      [constructor|].
    intros [Hkv Hall]%andb_prop. apply andb_prop in Hkv as [Hsk Hsv].
    constructor; [split; auto|auto].
  - cbn [supported] in Hs. apply andb_prop in Hs as [Hfit Hall].
    apply RT_tuple; [exact Hfit|].
    eapply forallb_Forall_imp; eassumption.
  - cbn [supported] in Hs.
    apply andb_prop in Hs as [Hs Hdist]. apply andb_prop in Hs as [Hs Hh].
    apply andb_prop in Hs as [Hfit Hall].
    apply RT_set; try assumption.
    eapply forallb_Forall_imp; eassumption.
  - cbn [supported] in Hs.
    apply andb_prop in Hs as [Hs Hdist]. apply andb_prop in Hs as [Hs Hh].
    apply andb_prop in Hs as [Hfit Hall].
    apply RT_frozenset; try assumption.
    eapply forallb_Forall_imp; eassumption.
  - discriminate.
  - discriminate.
  - discriminate.
Qed.

End RoundTrip.

(** ** Termination of [load] *)

Module LoadFacts.
Import Unserializer Spec Popen2IOFacts UnserializerFacts.

Lemma consumes_bind {A B} (m : M t A) (k : A -> M t B) :
  consumes m -> (forall a, consumes (k a)) -> consumes (mbind m k).
Proof.
  intros Hm Hk u r u'. unfold mbind.
  destruct (m u) as [[e|a] u1] eqn:E.
  - intros [= <- <-]. eapply Hm, E.
  - intros H. apply Hk in H. apply Hm in E. lia.
Qed.

Lemma consumes_ret {A} (a : A) : consumes (mret (S:=t) a).
Proof. intros u r u' [= <- <-]. lia. Qed.

Lemma consumes_raise {A} (e : exn) : consumes (A:=A) (mraise e).
Proof. intros u r u' [= <- <-]. lia. Qed.

Lemma consumes_lift {A} (r : result A) : consumes (mlift r).
Proof. intros u r' u' [= <- <-]. lia. Qed.

Lemma consumes_get : consumes (mget (S:=t)).
Proof. intros u r u' [= <- <-]. lia. Qed.

Lemma consumes_modify (f : t -> t) :
  (forall u, stream (f u) = stream u) -> consumes (mmodify f).
Proof. intros Hf u r u' [= <- <-]. rewrite Hf. lia. Qed.

Lemma consumes_stream_read (n : Z) : consumes (stream_read n).
Proof.
  intros u r u'. unfold stream_read.
  destruct (Popen2IO.read n (stream u)) as [r0 io] eqn:E.
  intros [= <- <-]. cbn. eapply read_length, E.
Qed.

Lemma consumes_append v : consumes (append v).
Proof. apply consumes_modify. reflexivity. Qed.

Ltac consumes :=
  repeat first
    [ apply consumes_ret | apply consumes_raise | apply consumes_lift
    | apply consumes_get | apply consumes_stream_read
    | apply consumes_append
    | apply consumes_modify; reflexivity
    | apply consumes_bind; [|intros ?]
    | match goal with
      | |- consumes (if ?b then _ else _) => destruct b
      | |- consumes (match ?x with _ => _ end) => destruct x
      end ].

Lemma consumes__read_int4 : consumes _read_int4.
Proof. unfold _read_int4. consumes. Qed.

Lemma consumes__read_byte_string : consumes _read_byte_string.
Proof.
  unfold _read_byte_string.
  apply consumes_bind; [apply consumes__read_int4|intros; consumes].
Qed.

Lemma consumes_pop : consumes pop.
Proof. unfold pop. consumes. Qed.

Lemma consumes__load_tuple : consumes _load_tuple.
Proof.
  unfold _load_tuple.
  apply consumes_bind; [apply consumes__read_int4|intros; consumes].
Qed.

Ltac consumes_all :=
  repeat first
    [ apply consumes__read_int4 | apply consumes__read_byte_string
    | apply consumes_pop | apply consumes__load_tuple
    | apply consumes_ret | apply consumes_raise | apply consumes_lift
    | apply consumes_get | apply consumes_stream_read
    | apply consumes_append
    | apply consumes_modify; reflexivity
    | apply consumes_bind; [|intros ?]
    | match goal with
      | |- consumes (if ?b then _ else _) => destruct b
      | |- consumes (match ?x with _ => _ end) => destruct x
      end ].

Lemma consumes_call loader : consumes (call loader).
Proof.
  destruct loader as [f|]; [destruct f|]; cbn [call];
    unfold load_none, load_true, load_false, load_int, load_longint,
      load_float, load_py3string, load_py2string, load_bytes, load_unicode,
      load_newlist, load_setitem, load_newdict, load_buildtuple, load_set,
      load_frozenset, load_stop, load_channel, decode_utf8;
    consumes_all.
Qed.

(** A pass of the loop that does not raise takes at least the opcode
    byte off the stream. *)
Lemma load_step_consumes u u' :
  load_step u = (inr tt, u') ->
  (length (Popen2IO.infile (stream u'))
   < length (Popen2IO.infile (stream u)))%nat.
Proof.
  unfold load_step, mbind, stream_read.
  rewrite read_spec.
  destruct (Z.leb_spec 1 (Z.of_nat (length (Popen2IO.infile (stream u)))))
    as [Hle|Hgt]; [|discriminate].
  change (Z.to_nat 1) with 1%nat.
  destruct (Popen2IO.infile (stream u)) as [|c rest] eqn:Hin;
    [cbn in Hle; lia|].
  cbn [take drop]. rewrite take_0, drop_0. unfold ret. cbv beta iota.
  destruct (lookup_loader [c]) as [loader|]; [|discriminate].
  intros H. apply consumes_call in H. cbn in H. cbn [length]. lia.
Qed.

Lemma passes_length k : forall u u',
  passes k u = Some u' ->
  (length (Popen2IO.infile (stream u')) + k
   <= length (Popen2IO.infile (stream u)))%nat.
Proof.
  induction k as [|k IH]; intros u u'; cbn [passes].
  - intros [= <-]. lia.
  - destruct (load_step u) as [[e|[]] u1] eqn:E; [discriminate|].
    intros H. apply IH in H. apply load_step_consumes in E. lia.
Qed.

(** With one unit of fuel per byte of the stream, and one more, the loop
    of [load] always ends (by an exception, as in Python). *)
Lemma load_loop_fuel fuel : forall u,
  (length (Popen2IO.infile (stream u)) < fuel)%nat ->
  exists e u', load_loop fuel u = Some (e, u').
Proof.
  induction fuel as [|fuel IH]; intros u Hlen; [lia|].
  cbn [load_loop].
  destruct (load_step u) as [[e|[]] u1] eqn:E; [eauto|].
  apply IH. apply load_step_consumes in E. lia.
Qed.

(** What [load] returns, in terms of the exception that ends the loop. *)
Lemma load_cases u :
  exists e u',
    load_loop (S (length (Popen2IO.infile (stream u)))) (set_stack [] u)
    = Some (e, u')
    /\ load u =
         match e with
         | _Stop =>
             match stack u' with
             | [v] => (ret v, set_stack [] u')
             | _ => (raise (UnserializationError
                              "internal unserialization error"), u')
             end
         | _ => (raise e, u')
         end.
Proof.
  destruct (load_loop_fuel
              (S (length (Popen2IO.infile (stream u)))) (set_stack [] u))
    as [e [u' H]]; [cbn; lia|].
  exists e, u'. split; [exact H|].
  unfold load. cbn [stream set_stack] in *. rewrite H.
  destruct e; reflexivity.
Qed.

(** The loop, run to a state [u'], ends the way the next pass ends. *)
Lemma load_after_passes u k u' e u'' :
  passes k (set_stack [] u) = Some u' ->
  load_step u' = (inl e, u'') ->
  load_loop (S (length (Popen2IO.infile (stream u)))) (set_stack [] u)
  = Some (e, u'').
Proof.
  intros Hp Hs. pose proof (passes_length _ _ _ Hp) as Hlen.
  cbn [stream set_stack] in Hlen.
  replace (S (length (Popen2IO.infile (stream u))))
    with (k + S (length (Popen2IO.infile (stream u)) - k))%nat by lia.
  rewrite (load_loop_passes _ _ _ _ Hp). cbn [load_loop]. rewrite Hs.
  reflexivity.
Qed.

Lemma load_after_passes_result u k u' e u'' :
  passes k (set_stack [] u) = Some u' ->
  load_step u' = (inl e, u'') ->
  load u =
    match e with
    | _Stop =>
        match stack u'' with
        | [v] => (ret v, set_stack [] u'')
        | _ => (raise (UnserializationError
                         "internal unserialization error"), u'')
        end
    | _ => (raise e, u'')
    end.
Proof.
  intros Hp Hs. pose proof (load_after_passes _ _ _ _ _ Hp Hs) as H.
  unfold load. cbn [stream set_stack] in *. rewrite H.
  destruct e; reflexivity.
Qed.

End LoadFacts.

(** ** Serialize, then deserialize *)

Module EndToEnd.
Import Serializer Unserializer Spec.
Import Popen2IOFacts StructFacts SerializerFacts UnserializerFacts.
Import RoundTrip LoadFacts.

(** Chunks that push [v], followed by [STOP], deserialize to [v]. *)
Lemma deserialize_decodes (cs : list (list byte)) (v : value) :
  decodes cs v -> deserialize (concat cs ++ [opcode.STOP]) = ret v.
Proof.
  intros Hd. unfold deserialize.
  set (u0 := Unserializer.__init__
               (Popen2IO.set_infile (concat cs ++ [opcode.STOP]) fresh_io) None).
  destruct (Hd u0 [opcode.STOP] []) as [k Hk].
  assert (Hstop : load_step (at_state u0 [opcode.STOP] ([] ++ [v]))
                  = (inl _Stop, at_state u0 [] [v])).
  { erewrite load_step_at by reflexivity. reflexivity. }
  rewrite (load_after_passes_result u0 k _ _ _ Hk Hstop). reflexivity.
Qed.

(** The round trip, for every supported value. *)
Lemma serialize_deserialize (v : value) :
  supported v = true ->
  exists data, serialize v = ret data /\ deserialize data = ret v.
Proof.
  intros Hs. destruct (RT_supported v Hs) as [cs [Ha Hd]].
  exists (concat cs ++ [opcode.STOP]). split.
  - rewrite (serialize_spec _ _ _ Ha). reflexivity.
  - apply deserialize_decodes, Hd.
Qed.

(** A byte string too long for the length field is refused. *)
Lemma serialize_bytes_too_long (bs : list byte) :
  FOUR_BYTE_INT_MAX < Z.of_nat (length bs) ->
  serialize (VBytes bs) = raise (SerializationError "string is too long").
Proof.
  intros Hlen.
  assert (Ha : appends (_save (VBytes bs))
                 (inl (SerializationError "string is too long"))
                 ([[opcode.BYTES]] ++ [])).
  { cbn [_save]. unfold save_bytes.
    eapply appends_bind; [apply appends__write|].
    unfold _write_byte_sequence. apply appends_bind_raise.
    unfold _write_int4.
    destruct (Z.gtb_spec (Z.of_nat (length bs)) FOUR_BYTE_INT_MAX); [|lia].
    apply appends_raise. }
  rewrite (serialize_spec _ _ _ Ha). reflexivity.
Qed.

(** An integer below -2^31 runs into [struct.error]. *)
Lemma serialize_int_too_low (i : Z) :
  i < -2147483648 ->
  serialize (VInt i) = raise (struct_error
    "'i' format requires -2147483648 <= number <= 2147483647").
Proof.
  intros Hi.
  assert (Ha : appends (_save (VInt i))
                 (inl (struct_error
                   "'i' format requires -2147483648 <= number <= 2147483647"))
                 ([[opcode.INT]] ++ [])).
  { cbn [_save]. unfold save_int, _save_integral, FOUR_BYTE_INT_MAX.
    destruct (Z.leb_spec i 2147483647); [|lia].
    eapply appends_bind; [apply appends__write|].
    unfold _write_int4, FOUR_BYTE_INT_MAX.
    destruct (Z.gtb_spec i 2147483647); [lia|].
    apply appends_bind_raise. rewrite pack_i_low by exact Hi.
    apply appends_lift. }
  rewrite (serialize_spec _ _ _ Ha). reflexivity.
Qed.

End EndToEnd.

(** * The serializer claims *)

Module SerializerClaims.
Import Serializer Unserializer Spec.
Import Popen2IOFacts StructFacts SerializerFacts UnserializerFacts.
Import RoundTrip LoadFacts EndToEnd.

(** C1, as stated, fails at two values of the grammar: the integer
    -2^31 - 1 (one of the "bigger integers") makes [save] raise
    [struct.error], and a byte string of 2^31 bytes is refused with
    [SerializationError]; in both cases there is no byte stream to load. *)
Lemma roundtrip_counterexample :
  serialize (VInt (-2147483649))
  = raise (struct_error
      "'i' format requires -2147483648 <= number <= 2147483647")
  /\ serialize (VBytes (repeat x00 (Z.to_nat 2147483648)))
     = raise (SerializationError "string is too long").
Proof.
  split.
  - apply serialize_int_too_low. lia.
  - apply serialize_bytes_too_long.
    rewrite repeat_length, Z2Nat.id by lia. reflexivity.
Qed.

(** C1 (amended): for every value of the grammar whose integers are at
    least -2^31, whose text is UTF-8 encodable, whose length fields (byte
    strings, encoded text, decimal forms of big integers, lists, tuples,
    sets) are at most 2^31-1, and whose sets and dict keys are hashable and
    pairwise different, [save] produces a byte stream, and [load] on that
    stream returns the same value. *)
Theorem roundtrip_supported (v : value) :
  supported v = true ->
  exists data, serialize v = ret data /\ deserialize data = ret v.
Proof. apply serialize_deserialize. Qed.

Lemma roundtrip_supported_witness :
  exists data,
    serialize (VTuple [VInt 3; VInt 12345678901234567890;
                       VList [VNone; VBool true; VStr [8364%N; 65%N]];
                       VDict [(VInt 1, VBytes [x61]); (VTuple [], VFloat 5)];
                       VSet [VInt 1; VInt 2]; VFrozenset []]) = ret data
    /\ deserialize data
       = ret (VTuple [VInt 3; VInt 12345678901234567890;
                      VList [VNone; VBool true; VStr [8364%N; 65%N]];
                      VDict [(VInt 1, VBytes [x61]); (VTuple [], VFloat 5)];
                      VSet [VInt 1; VInt 2]; VFrozenset []]).
Proof. apply roundtrip_supported. vm_compute. reflexivity. Defined.

(** C3: whatever [save] is given, if it raises then the transport is left
    exactly as it was (nothing was written); if it returns, the message was
    first collected whole in the buffer and the transport received it in
    one single write, ending in [STOP]. *)
Theorem save_writes_on_success_only (obj : value) (s s' : Serializer.t)
    (r : result unit) :
  save obj s = (r, s') ->
  match r with
  | inl _ => _stream s' = _stream s
  | inr _ =>
      exists cs,
        appends (_save obj) (ret tt) cs
        /\ Popen2IO.written (_stream s')
           = Popen2IO.written (_stream s) ++ [concat cs ++ [opcode.STOP]]
  end.
Proof.
  destruct (WRITE_ON_SUCCESS s) eqn:Hwos.
  2:{ rewrite (save_streaming _ _ Hwos). intros [= <- <-]. reflexivity. }
  destruct (total__save obj) as [r0 [cs Ha]].
  rewrite (save_spec _ _ _ _ Ha Hwos).
  destruct r0 as [e|[]].
  - intros [= <- <-]. reflexivity.
  - cbv zeta. unfold Popen2IO.write.
    destruct (Popen2IO.outfile (_stream s)) eqn:Hout; intros [= <- <-].
    + exists cs. split; [exact Ha|]. cbn.
      rewrite concat_app. cbn. rewrite ?app_nil_r. reflexivity.
    + destruct s as [? ? []]; reflexivity.
    + destruct s as [? ? []]; reflexivity.
Qed.

Lemma save_writes_on_success_only_witness :
  _stream (snd (save (VTuple [VInt 1; VObject "object"])
                  (Serializer.__init__ fresh_io)))
  = fresh_io.
Proof.
  exact (save_writes_on_success_only
           (VTuple [VInt 1; VObject "object"]) (Serializer.__init__ fresh_io)
           _ _ eq_refl).
Defined.

(** C10: [_save_integral] takes the four-byte branch for every
    [i <= 2147483647], with no lower bound: between -2^31 and 2^31-1 it
    writes the short opcode and four big-endian bytes; above 2^31-1 it
    writes the long opcode and the length-prefixed decimal digits (when
    their number fits the length field); below -2^31 it has already written
    the short opcode when the packing raises [struct.error], which is not a
    [SerializationError]. *)
Theorem _save_integral_no_lower_bound (i : Z) (short_op long_op : byte) :
  (-2147483648 <= i <= 2147483647 ->
   appends (_save_integral i short_op long_op) (ret tt)
     [[short_op]; Struct.be_bytes 4 (Z.to_N (i mod 4294967296))])
  /\ (2147483647 < i -> fits (length (Codec.str_int_ascii i)) = true ->
      appends (_save_integral i short_op long_op) (ret tt)
        [[long_op]; int4 (Z.of_nat (length (Codec.str_int_ascii i)));
         Codec.str_int_ascii i])
  /\ (i < -2147483648 ->
      appends (_save_integral i short_op long_op)
        (raise (struct_error
           "'i' format requires -2147483648 <= number <= 2147483647"))
        [[short_op]]).
Proof.
  unfold _save_integral, FOUR_BYTE_INT_MAX. repeat split.
  - intros Hi. destruct (Z.leb_spec i 2147483647); [|lia].
    apply appends_op_then, appends__write_int4, Hi.
  - intros Hi Hfit. destruct (Z.leb_spec i 2147483647); [lia|].
    apply appends_op_then, appends__write_byte_sequence, Hfit.
  - intros Hi. destruct (Z.leb_spec i 2147483647); [|lia].
    change [[short_op]] with ([[short_op]] ++ []).
    eapply appends_bind; [apply appends__write|].
    unfold _write_int4, FOUR_BYTE_INT_MAX.
    destruct (Z.gtb_spec i 2147483647); [lia|].
    apply appends_bind_raise. rewrite pack_i_low by exact Hi.
    apply appends_lift.
Qed.

Lemma _save_integral_no_lower_bound_witness :
  appends (_save_integral (-2147483649) opcode.INT opcode.LONGINT)
    (raise (struct_error
       "'i' format requires -2147483648 <= number <= 2147483647"))
    [[opcode.INT]]
  /\ appends (_save_integral 2147483648 opcode.INT opcode.LONGINT) (ret tt)
       [[opcode.LONGINT]; int4 10; Codec.str_int_ascii 2147483648]
  /\ appends (_save_integral (-2147483648) opcode.INT opcode.LONGINT) (ret tt)
       [[opcode.INT]; [x80; x00; x00; x00]].
Proof.
  split; [|split].
  - apply (_save_integral_no_lower_bound (-2147483649)). lia.
  - apply (_save_integral_no_lower_bound 2147483648); [lia|reflexivity].
  - apply (_save_integral_no_lower_bound (-2147483648)). lia.
Defined.

End SerializerClaims.

(** * The unserializer claims *)

Module LoadClaims.
Import Unserializer Spec.
Import Popen2IOFacts StructFacts UnserializerFacts LoadFacts.

(** C7, as stated, fails on a truncated stream: a stream that ends before
    [STOP] (here right away, or after a [NONE]) makes [load] raise
    [EOFError], not [UnserializationError]. *)
Lemma load_truncated_counterexample :
  deserialize [] = raise (EOFError "expected more bytes")
  /\ deserialize [opcode.NONE] = raise (EOFError "expected more bytes")
  /\ forall msg, deserialize [opcode.NONE] <> raise (UnserializationError msg).
Proof.
  split; [reflexivity|]. split; [reflexivity|].
  intros msg. vm_compute. discriminate.
Qed.

(** [load] raises [EOFError] when a pass of its loop does. *)
Lemma load_eof (u u' u'' : Unserializer.t) (k : nat) (msg : string) :
  passes k (set_stack [] u) = Some u' ->
  load_step u' = (inl (EOFError msg), u'') ->
  fst (load u) = raise (EOFError msg).
Proof.
  intros Hp Hs. rewrite (load_after_passes_result u k u' _ _ Hp Hs).
  reflexivity.
Qed.

(** A loader that starts with [_read_int4] on fewer than four bytes. *)
Lemma _read_int4_eof {A} (k : Z -> M Unserializer.t A) (u : Unserializer.t)
    (rest : list byte) (st : list value) :
  (length rest < 4)%nat ->
  (let* i := _read_int4 in k i) (at_state u rest st)
  = (inl (EOFError "expected more bytes"), at_state u [] st).
Proof.
  intros Hlen. unfold _read_int4, mbind, stream_read.
  rewrite read_eof by (cbn; lia). reflexivity.
Qed.

(** A loader that starts with [_read_byte_string] on a stream that ends
    inside the length or inside the bytes. *)
Lemma _read_byte_string_eof {A} (k : list byte -> M Unserializer.t A)
    (u : Unserializer.t) (rest : list byte) (st : list value) :
  ((length rest < 4)%nat
   \/ exists prefix payload n,
        rest = prefix ++ payload /\ length prefix = 4%nat
        /\ Struct.unpack_i prefix = ret n
        /\ Z.of_nat (length payload) < n) ->
  (let* s := _read_byte_string in k s) (at_state u rest st)
  = (inl (EOFError "expected more bytes"), at_state u [] st).
Proof.
  intros [Hlen|[prefix [payload [n [-> [Hpre [Hn Hshort]]]]]]].
  - unfold _read_byte_string. rewrite mbind_assoc.
    apply _read_int4_eof, Hlen.
  - unfold _read_byte_string, _read_int4.
    rewrite !mbind_assoc.
    rewrite (mbind_ok _ _ _ _ _
               (stream_read_at u prefix payload st 4
                  ltac:(rewrite Hpre; reflexivity))).
    unfold mlift. rewrite Hn. unfold mbind at 1. unfold ret at 1.
    cbv beta iota. unfold mbind, stream_read.
    rewrite read_eof by (cbn; lia). reflexivity.
Qed.

(** C7 (amended): once the loop of [load] has come, pass after pass, to a
    state [u'], then: if the next opcode byte is not in the opcode table,
    [load] raises [UnserializationError]; if the next opcode is [STOP],
    [load] returns the one value on the stack, and raises
    [UnserializationError] when the stack does not hold exactly one value;
    if the stream ends there, before [STOP], [load] raises [EOFError]; and
    so it does when the stream ends inside the operand of an opcode,
    whichever opcode it is: inside the four bytes that follow [INT],
    [LONG], [NEWLIST], [BUILDTUPLE], [SET], [FROZENSET] and [CHANNEL];
    inside the eight bytes that follow [FLOAT]; and, after [LONGINT],
    [LONGLONG], [PY2STRING], [PY3STRING], [BYTES] and [UNICODE], inside
    the four bytes of the length or inside the bytes that the length
    announces.  (The other six opcodes, [NONE], [TRUE], [FALSE],
    [NEWDICT], [SETITEM] and [STOP], have no operand.) *)
Theorem load_outcomes (u u' : Unserializer.t) (k : nat) :
  passes k (set_stack [] u) = Some u' ->
  (forall c rest,
      Popen2IO.infile (stream u') = c :: rest ->
      lookup_loader [c] = None ->
      fst (load u) = raise (UnserializationError
                              "unkown opcode - wire protocol corruption?"))
  /\ (forall rest,
         Popen2IO.infile (stream u') = opcode.STOP :: rest ->
         fst (load u) =
           match stack u' with
           | [v] => ret v
           | _ => raise (UnserializationError "internal unserialization error")
           end)
  /\ (Popen2IO.infile (stream u') = [] ->
      fst (load u) = raise (EOFError "expected more bytes"))
  /\ (forall c rest,
         In c [opcode.INT; opcode.LONG; opcode.NEWLIST; opcode.BUILDTUPLE;
               opcode.SET; opcode.FROZENSET; opcode.CHANNEL] ->
         Popen2IO.infile (stream u') = c :: rest ->
         (length rest < 4)%nat ->
         fst (load u) = raise (EOFError "expected more bytes"))
  /\ (forall rest,
         Popen2IO.infile (stream u') = opcode.FLOAT :: rest ->
         (length rest < 8)%nat ->
         fst (load u) = raise (EOFError "expected more bytes"))
  /\ (forall c rest,
         In c [opcode.LONGINT; opcode.LONGLONG; opcode.PY2STRING;
               opcode.PY3STRING; opcode.BYTES; opcode.UNICODE] ->
         Popen2IO.infile (stream u') = c :: rest ->
         ((length rest < 4)%nat
          \/ exists prefix payload n,
               rest = prefix ++ payload /\ length prefix = 4%nat
               /\ Struct.unpack_i prefix = ret n
               /\ Z.of_nat (length payload) < n) ->
         fst (load u) = raise (EOFError "expected more bytes")).
Proof.
  intros Hp.
  split; [|split; [|split; [|split; [|split]]]].
  - intros c rest Hin Hl.
    assert (Hs : load_step u'
                 = (inl (UnserializationError
                           "unkown opcode - wire protocol corruption?"),
                    at_state u' rest (stack u'))).
    { rewrite <- (at_state_id u') at 1. rewrite Hin. unfold load_step.
      rewrite (mbind_ok _ _ _ _ _
                 (stream_read_at u' [c] rest (stack u') 1 eq_refl)).
      rewrite Hl. reflexivity. }
    rewrite (load_after_passes_result u k u' _ _ Hp Hs). reflexivity.
  - intros rest Hin.
    assert (Hs : load_step u' = (inl _Stop, at_state u' rest (stack u'))).
    { rewrite <- (at_state_id u') at 1. rewrite Hin.
      erewrite load_step_at by reflexivity. reflexivity. }
    rewrite (load_after_passes_result u k u' _ _ Hp Hs).
    rewrite stack_at_state.
    destruct (stack u') as [|v [|w st]]; reflexivity.
  - intros Hin.
    apply (load_eof u u'
             (set_stream (Popen2IO.set_infile [] (stream u')) u') k _ Hp).
    unfold load_step, mbind, stream_read.
    rewrite read_eof by (rewrite Hin; cbn; lia). reflexivity.
  - intros c rest Hc Hin Hlen.
    apply (load_eof u u' (at_state u' [] (stack u')) k _ Hp).
    rewrite <- (at_state_id u') at 1. rewrite Hin.
    cbn [In] in Hc.
    destruct Hc as [<-|[<-|[<-|[<-|[<-|[<-|[<-|[]]]]]]]];
      erewrite load_step_at by reflexivity; cbn [snd call];
      unfold load_int, load_newlist, load_buildtuple, load_set,
        load_frozenset, _load_tuple, load_channel;
      rewrite ?mbind_assoc; apply _read_int4_eof, Hlen.
  - intros rest Hin Hlen.
    apply (load_eof u u' (at_state u' [] (stack u')) k _ Hp).
    rewrite <- (at_state_id u') at 1. rewrite Hin.
    erewrite load_step_at by reflexivity. cbn [snd call].
    unfold load_float, mbind, stream_read.
    rewrite read_eof by (cbn; unfold FLOAT_FORMAT_SIZE; lia). reflexivity.
  - intros c rest Hc Hin Hshort.
    apply (load_eof u u' (at_state u' [] (stack u')) k _ Hp).
    rewrite <- (at_state_id u') at 1. rewrite Hin.
    cbn [In] in Hc.
    destruct Hc as [<-|[<-|[<-|[<-|[<-|[<-|[]]]]]]];
      erewrite load_step_at by reflexivity; cbn [snd call];
      unfold load_longint, load_py2string, load_py3string, load_bytes,
        load_unicode;
      apply _read_byte_string_eof, Hshort.
Qed.

Lemma load_outcomes_witness :
  fst (load (Unserializer.__init__
               (Popen2IO.set_infile [opcode.NONE; opcode.TRUE; opcode.STOP]
                  fresh_io) None))
  = raise (UnserializationError "internal unserialization error")
  /\ fst (load (Unserializer.__init__
                  (Popen2IO.set_infile [opcode.NONE; opcode.INT; x00]
                     fresh_io) None))
     = raise (EOFError "expected more bytes")
  /\ fst (load (Unserializer.__init__
                  (Popen2IO.set_infile
                     [opcode.FLOAT; x3f; xf0; x00; x00; x00; x00; x00]
                     fresh_io) None))
     = raise (EOFError "expected more bytes")
  /\ fst (load (Unserializer.__init__
                  (Popen2IO.set_infile
                     [opcode.BYTES; x00; x00; x00; x03; x61; x62]
                     fresh_io) None))
     = raise (EOFError "expected more bytes").
Proof.
  split; [|split; [|split]].
  - exact (proj1 (proj2 (load_outcomes
             (Unserializer.__init__
                (Popen2IO.set_infile [opcode.NONE; opcode.TRUE; opcode.STOP]
                   fresh_io) None) _ 2 eq_refl)) [] eq_refl).
  - exact (proj1 (proj2 (proj2 (proj2 (load_outcomes
             (Unserializer.__init__
                (Popen2IO.set_infile [opcode.NONE; opcode.INT; x00]
                   fresh_io) None) _ 1 eq_refl)))) opcode.INT [x00]
             ltac:(cbn; auto) eq_refl ltac:(cbn; lia)).
  - exact (proj1 (proj2 (proj2 (proj2 (proj2 (load_outcomes
             (Unserializer.__init__
                (Popen2IO.set_infile
                   [opcode.FLOAT; x3f; xf0; x00; x00; x00; x00; x00]
                   fresh_io) None) _ 0 eq_refl)))))
             [x3f; xf0; x00; x00; x00; x00; x00] eq_refl ltac:(cbn; lia)).
  - exact (proj2 (proj2 (proj2 (proj2 (proj2 (load_outcomes
             (Unserializer.__init__
                (Popen2IO.set_infile
                   [opcode.BYTES; x00; x00; x00; x03; x61; x62]
                   fresh_io) None) _ 0 eq_refl)))))
             opcode.BYTES [x00; x00; x00; x03; x61; x62]
             ltac:(cbn; auto 10) eq_refl
             ltac:(right; exists [x00; x00; x00; x03], [x61; x62], 3;
                   repeat split; cbn; lia)).
Defined.

End LoadClaims.

(** * The opcode table *)

Module OpcodeClaims.
Import Opcodes PyStr PyStrFacts.

#[local] Instance string_eq_decision : EqDecision string := String.string_dec.

#[local] Instance entry_le_trans : Transitive entry_le.
Proof. intros x y z. unfold entry_le. apply le_trans. Qed.

#[local] Instance entry_le_total : Total entry_le.
Proof. intros x y. unfold entry_le. apply le_total. Qed.

Lemma collect_Permutation (items items' : list (string * pyattr)) :
  items ≡ₚ items' -> collect items ≡ₚ collect items'.
Proof.
  induction 1 as [|[n f] l l' _ IH|[n f] [n' f'] l|l1 l2 l3 _ IH1 _ IH2];
    cbn [collect].
  - reflexivity.
  - destruct (startswith "load_" n); [constructor|]; exact IH.
  - destruct (startswith "load_" n), (startswith "load_" n');
      try reflexivity. apply perm_swap.
  - etransitivity; eassumption.
Qed.

Lemma NoDup_fst_inj {A B} (l : list (A * B)) (x y : A * B) :
  NoDup (map fst l) -> x ∈ l -> y ∈ l -> fst x = fst y -> x = y.
Proof.
  induction l as [|z l IH]; cbn [map]; intros Hnd Hx Hy Hxy.
  - inversion Hx.
  - apply NoDup_cons in Hnd as [Hz Hnd].
    apply elem_of_cons in Hx as [->|Hx]; apply elem_of_cons in Hy as [->|Hy].
    + reflexivity.
    + exfalso. apply Hz. rewrite Hxy. apply (list_elem_of_fmap_2 fst), Hy.
    + exfalso. apply Hz. rewrite <- Hxy. apply (list_elem_of_fmap_2 fst), Hx.
    + auto.
Qed.

(** The sorted list of opcode names does not depend on the order in which
    the class body declares the loaders. *)
Lemma sort_collect_Permutation (items : list (string * pyattr)) :
  items ≡ₚ Unserializer___dict__ ->
  sort (collect items) = sort (collect Unserializer___dict__).
Proof.
  intros Hp. unfold sort.
  assert (Hperm : merge_sort entry_le (collect items)
                  ≡ₚ merge_sort entry_le (collect Unserializer___dict__)).
  { rewrite !merge_sort_Permutation. apply collect_Permutation, Hp. }
  apply (StronglySorted_unique_strong entry_le);
    [|apply StronglySorted_merge_sort; apply _
     |apply StronglySorted_merge_sort; apply _|exact Hperm].
  intros x1 x2 Hx1 Hx2 H12 H21.
  rewrite Hperm in Hx1.
  apply (NoDup_fst_inj (merge_sort entry_le (collect Unserializer___dict__)));
    [|exact Hx1|exact Hx2|apply le_antisym; assumption].
  apply (bool_decide_unpack _). vm_compute. exact I.
Qed.

(** C2, as stated, fails: the first name, BUILDTUPLE, gets the byte 64,
    which is '@' and not 'A'; BYTES gets 'A', and the last name, UNICODE,
    gets 'S' and not 'T'. *)
Lemma opcode_letters_counterexample :
  opcode.getattr "BUILDTUPLE" = "@"%byte
  /\ opcode.getattr "BUILDTUPLE" <> "A"%byte
  /\ opcode.getattr "BYTES" = "A"%byte
  /\ opcode.getattr "UNICODE" = "S"%byte
  /\ opcode.getattr "UNICODE" <> "T"%byte.
Proof. repeat split; try reflexivity; vm_compute; discriminate. Qed.

(** C2 (amended): in whatever order the class declares its attributes,
    [_buildopcodes] gives each of the 20 opcode names the byte 64 plus the
    rank of the name in the alphabetical order of the names: BUILDTUPLE is
    '@', BYTES is 'A', and so on up to UNICODE, which is 'S'. *)
Theorem opcodes_by_alphabetical_rank (items : list (string * pyattr)) :
  items ≡ₚ Unserializer___dict__ ->
  exists t,
    _buildopcodes_from items = inr t
    /\ Opcodes.opcode t =
         [ ("BUILDTUPLE"%string, "@"%byte); ("BYTES"%string, "A"%byte);
           ("CHANNEL"%string, "B"%byte); ("FALSE"%string, "C"%byte);
           ("FLOAT"%string, "D"%byte); ("FROZENSET"%string, "E"%byte);
           ("INT"%string, "F"%byte); ("LONG"%string, "G"%byte);
           ("LONGINT"%string, "H"%byte); ("LONGLONG"%string, "I"%byte);
           ("NEWDICT"%string, "J"%byte); ("NEWLIST"%string, "K"%byte);
           ("NONE"%string, "L"%byte); ("PY2STRING"%string, "M"%byte);
           ("PY3STRING"%string, "N"%byte); ("SET"%string, "O"%byte);
           ("SETITEM"%string, "P"%byte); ("STOP"%string, "Q"%byte);
           ("TRUE"%string, "R"%byte); ("UNICODE"%string, "S"%byte) ]
    /\ Sorted PyStr.le (map fst (Opcodes.opcode t))
    /\ forall (i : nat) (name : string) (c : byte),
         Opcodes.opcode t !! i = Some (name, c) ->
         Byte.to_nat c = (64 + i)%nat.
Proof.
  intros Hp. unfold _buildopcodes_from.
  rewrite (sort_collect_Permutation items Hp).
  eexists. split; [vm_compute; reflexivity|].
  cbn [Opcodes.opcode]. split; [reflexivity|]. split.
  - cbn [map fst]. repeat (constructor; try reflexivity).
  - intros i name c Hi.
    do 20 (destruct i as [|i]; [injection Hi as <- <-; reflexivity|]).
    discriminate.
Qed.

Lemma opcodes_by_alphabetical_rank_witness :
  exists t,
    _buildopcodes_from (rev Unserializer___dict__) = inr t
    /\ Opcodes.opcode t =
         [ ("BUILDTUPLE"%string, "@"%byte); ("BYTES"%string, "A"%byte);
           ("CHANNEL"%string, "B"%byte); ("FALSE"%string, "C"%byte);
           ("FLOAT"%string, "D"%byte); ("FROZENSET"%string, "E"%byte);
           ("INT"%string, "F"%byte); ("LONG"%string, "G"%byte);
           ("LONGINT"%string, "H"%byte); ("LONGLONG"%string, "I"%byte);
           ("NEWDICT"%string, "J"%byte); ("NEWLIST"%string, "K"%byte);
           ("NONE"%string, "L"%byte); ("PY2STRING"%string, "M"%byte);
           ("PY3STRING"%string, "N"%byte); ("SET"%string, "O"%byte);
           ("SETITEM"%string, "P"%byte); ("STOP"%string, "Q"%byte);
           ("TRUE"%string, "R"%byte); ("UNICODE"%string, "S"%byte) ]
    /\ Sorted PyStr.le (map fst (Opcodes.opcode t))
    /\ forall (i : nat) (name : string) (c : byte),
         Opcodes.opcode t !! i = Some (name, c) ->
         Byte.to_nat c = (64 + i)%nat.
Proof.
  apply opcodes_by_alphabetical_rank.
  symmetry. apply Permutation_rev.
Defined.

End OpcodeClaims.

(** * The gateway *)

Module GatewayFacts.
Import Gateway Spec.
Import SerializerFacts EndToEnd.

Lemma get_channel_ok (g : Gateway.t) (self : nat) (ch : Channel.t) :
  channel_at g self = Some ch -> get_channel self g = (ret ch, g).
Proof. unfold channel_at, get_channel. intros ->. reflexivity. Qed.

(** [_send] either puts the serialized tuple of the message on the wire in
    one write, or raises and leaves the wire alone; nothing else of the
    gateway changes. *)
Lemma _send_cases (msg : Message.t) (g : Gateway.t) :
  Serializer.WRITE_ON_SUCCESS (_serializer g) = true ->
  exists r g',
    _send msg g = (r, g') /\ same_but_wire g g'
    /\ match serialize (Message.as_tuple msg) with
       | inl e => r = inl e /\ wire g' = wire g
       | inr data =>
           match Popen2IO.outfile (_io g) with
           | Popen2IO.FOpen => r = ret tt /\ wire g' = wire g ++ [data]
           | Popen2IO.FClosed =>
               r = raise (ValueError "I/O operation on closed file")
               /\ wire g' = wire g
           | Popen2IO.FBroken =>
               r = raise (IOError "Broken pipe") /\ wire g' = wire g
           end
       end.
Proof.
  intros Hwos. unfold _send, Message.writeto.
  destruct (total__save (Message.as_tuple msg)) as [r0 [cs Ha]].
  rewrite (save_spec _ _ _ _ Ha Hwos), (serialize_spec _ _ _ Ha).
  unfold same_but_wire, wire, _io.
  destruct r0 as [e|[]].
  - eexists _, _. split; [reflexivity|].
    destruct g as [[] ? ? ? ? ?]. cbn. repeat split; reflexivity.
  - cbv zeta. unfold Popen2IO.write.
    destruct g as [[wos sl [inf out wr]] ? ? ? ? ?].
    cbn [_serializer Serializer._stream Popen2IO.outfile].
    destruct out; eexists _, _; (split; [reflexivity|]); cbn;
      rewrite ?concat_app; cbn; rewrite ?app_nil_r;
      repeat split; reflexivity.
Qed.

(** The frame of a message with a serializable payload reads back as the
    message. *)
Lemma frame_roundtrip (msg : Message.t) :
  -2147483648 <= Message.channelid msg <= 2147483647 ->
  supported (Message.data msg) = true ->
  exists data,
    serialize (Message.as_tuple msg) = ret data
    /\ deserialize data = ret (Message.as_tuple msg).
Proof.
  intros Hid Hdata. apply serialize_deserialize.
  unfold Message.as_tuple. cbn [supported forallb length].
  unfold fits, FOUR_BYTE_INT_MAX. rewrite Hdata.
  destruct (Z.leb_spec (-2147483648) (Message.channelid msg)); [|lia].
  destruct (Z.leb_spec (Message.channelid msg) 2147483647); [|lia].
  destruct (Message.class msg); reflexivity.
Qed.

End GatewayFacts.

Module ChannelFacts.
Import Gateway Spec GatewayFacts.

Lemma channel_at_set_channel self ch g :
  channel_at (set_channel self ch g) self = Some ch.
Proof. unfold channel_at, set_channel. cbn. apply lookup_insert_eq. Qed.

Lemma channel_at_set_channel_ne self other ch g :
  self <> other ->
  channel_at (set_channel self ch g) other = channel_at g other.
Proof.
  intros Hne. unfold channel_at, set_channel. cbn.
  apply lookup_insert_ne, Hne.
Qed.

Lemma set_channel_set_channel self c1 c2 g :
  set_channel self c2 (set_channel self c1 g) = set_channel self c2 g.
Proof.
  unfold set_channel, on_factory. cbn. rewrite insert_insert_eq.
  reflexivity.
Qed.

Lemma modify_channel_ok self f g ch :
  channel_at g self = Some ch ->
  modify_channel self f g = (ret tt, set_channel self (f ch) g).
Proof.
  unfold channel_at, modify_channel, set_channel, mmodify, on_factory.
  intros Hch. do 3 f_equal. apply map_eq. intros i.
  rewrite lookup_alter, lookup_insert.
  destruct (decide (self = i)) as [<-|Hne]; [rewrite Hch|]; reflexivity.
Qed.

Lemma wire_set_channel self ch g : wire (set_channel self ch g) = wire g.
Proof. reflexivity. Qed.

Lemma registered_set_channel self ch g id :
  registered (set_channel self ch g) id = registered g id.
Proof. reflexivity. Qed.

Lemma routed_set_channel self ch g id :
  routed (set_channel self ch g) id = routed g id.
Proof. reflexivity. Qed.

End ChannelFacts.

Module CloseFacts.
Import Gateway Spec GatewayFacts ChannelFacts.

(** [_no_longer_opened] drops the id from the factory's channels and
    callbacks and fires the endmarker of a registered callback. *)
Lemma _no_longer_opened_spec (id : Z) (g : Gateway.t) :
  exists g',
    _no_longer_opened id g = (endmarker_result (registered g id), g')
    /\ routed g' id = None /\ registered g' id = None
    /\ (forall j, j <> id -> routed g' j = routed g j)
    /\ (forall j, j <> id -> registered g' j = registered g j)
    /\ (forall a, channel_at g' a = channel_at g a)
    /\ wire g' = wire g
    /\ _serializer g' = _serializer g
    /\ stderr g' = stderr g
    /\ _execqueue g' = _execqueue g
    /\ _error g' = _error g
    /\ calls g' = calls g ++ endmarker_calls (registered g id).
Proof.
  unfold _no_longer_opened, mbind, mmodify, mget, ret. cbv beta iota.
  unfold registered, routed, channel_at, wire, _io, on_factory.
  cbn [_channelfactory set__channelfactory ChannelFactory._callbacks
       ChannelFactory.set__channels].
  destruct (ChannelFactory._callbacks (_channelfactory g) !! id)
    as [[cb [em|]]|] eqn:Hreg; cbn [endmarker_result endmarker_calls].
  - unfold call_callback, mbind, mmodify, ret. cbv beta iota.
    destruct (cb_raises cb em); eexists; (split; [reflexivity|]); cbn;
      rewrite ?lookup_delete_eq; repeat split; try reflexivity;
      intros j Hj; rewrite lookup_delete_ne by congruence; reflexivity.
  - eexists; (split; [reflexivity|]); cbn;
      rewrite ?lookup_delete_eq, ?app_nil_r; repeat split; try reflexivity;
      intros j Hj; rewrite lookup_delete_ne by congruence; reflexivity.
  - eexists; (split; [reflexivity|]); cbn;
      rewrite ?lookup_delete_eq, ?app_nil_r; repeat split;
      try reflexivity; try exact Hreg;
      intros j Hj; rewrite lookup_delete_ne by congruence; reflexivity.
Qed.


(** The channel after a local close with [error]. *)
Lemma close_tail (self : nat) (ch : Channel.t) (error : value) (g : Gateway.t) :
  channel_at g self = Some ch ->
  exists g',
    ((if isinstance_RemoteError error
      then modify_channel self (fun ch =>
             Channel.set__remoteerrors (Channel._remoteerrors ch ++ [error]) ch)
      else mret tt);;
     modify_channel self (Channel.set__closed true);;
     modify_channel self (Channel.set__receiveclosed true);;
     modify_channel self (Channel.put ENDMARKER);;
     _no_longer_opened (Channel.id ch)) g
    = (endmarker_result (registered g (Channel.id ch)), g')
    /\ channel_at g' self = Some (closed_by error ch)
    /\ routed g' (Channel.id ch) = None
    /\ registered g' (Channel.id ch) = None
    /\ wire g' = wire g
    /\ calls g' = calls g ++ endmarker_calls (registered g (Channel.id ch)).
Proof.
  intros Hch.
  set (ch1 := if isinstance_RemoteError error
              then Channel.set__remoteerrors
                     (Channel._remoteerrors ch ++ [error]) ch
              else ch).
  assert (H1 : (if isinstance_RemoteError error
                then modify_channel self (fun ch =>
                       Channel.set__remoteerrors
                         (Channel._remoteerrors ch ++ [error]) ch)
                else mret tt) g = (ret tt, set_channel self ch1 g)).
  { unfold ch1. destruct (isinstance_RemoteError error).
    - exact (modify_channel_ok self
               (fun c => Channel.set__remoteerrors
                           (Channel._remoteerrors c ++ [error]) c) g ch Hch).
    - unfold mret, set_channel, on_factory. do 3 f_equal.
      destruct g as [? [] ? ? ? ?]. cbn. unfold channel_at in Hch. cbn in Hch.
      rewrite insert_id by exact Hch. reflexivity. }
  rewrite (mbind_ok _ _ _ _ _ H1).
  rewrite (mbind_ok _ _ _ _ _
             (modify_channel_ok _ _ _ _ (channel_at_set_channel _ _ _))).
  rewrite set_channel_set_channel.
  rewrite (mbind_ok _ _ _ _ _
             (modify_channel_ok _ _ _ _ (channel_at_set_channel _ _ _))).
  rewrite set_channel_set_channel.
  rewrite (mbind_ok _ _ _ _ _
             (modify_channel_ok _ _ _ _ (channel_at_set_channel _ _ _))).
  rewrite set_channel_set_channel.
  destruct (_no_longer_opened_spec (Channel.id ch)
              (set_channel self
                 (Channel.put ENDMARKER
                    (Channel.set__receiveclosed true
                       (Channel.set__closed true ch1))) g))
    as [g' (Hr & Hrt & Hrg & _ & _ & Hobj & Hw & _ & _ & _ & _ & Hc)].
  exists g'. rewrite Hr, Hrt, Hrg, Hobj, Hw, Hc.
  rewrite channel_at_set_channel. repeat split; reflexivity.
Qed.

End CloseFacts.

Module CallbackFacts.
Import Gateway Spec GatewayFacts ChannelFacts.

Lemma channel_at_set_calls l g self :
  channel_at (set_calls l g) self = channel_at g self.
Proof. reflexivity. Qed.

(** The drain loop of [setcallback] with a callback that does not raise. *)
Lemma setcallback_loop_spec (self : nat) (ch : Channel.t) (cb : callback)
    (em : option value) (items : list item) :
  (forall x, cb_raises cb x = false) ->
  forall g,
    channel_at g self = Some ch ->
    exists g',
      setcallback_loop self cb em items g = (ret tt, g')
      /\ calls g' = calls g ++ setcallback_calls cb em items
      /\ (forall a, channel_at g' a = channel_at g a)
      /\ wire g' = wire g
      /\ (forall j, routed g' j = routed g j)
      /\ (forall j, j <> Channel.id ch -> registered g' j = registered g j)
      /\ registered g' (Channel.id ch)
         = if negb (has_endmarker items)
              && negb (Channel._closed ch || Channel._receiveclosed ch)
           then Some (cb, em)
           else registered g (Channel.id ch).
Proof.
  intros Hquiet. unfold setcallback_calls.
  induction items as [|[v|] items IH]; intros g Hch;
    cbn [setcallback_loop drained has_endmarker map negb andb].
  - rewrite (mbind_ok _ _ _ _ _ (get_channel_ok _ _ _ Hch)).
    destruct (Channel._closed ch || Channel._receiveclosed ch); cbn [negb].
    + exists g. rewrite app_nil_r. repeat split; reflexivity.
    + eexists. split; [reflexivity|]. unfold registered, routed. cbn.
      rewrite app_nil_r, lookup_insert_eq. repeat split; try reflexivity.
      intros j Hj. rewrite lookup_insert_ne by congruence. reflexivity.
  - unfold call_callback at 1. rewrite Hquiet.
    unfold mbind at 1. unfold mbind at 1. unfold mmodify at 1.
    unfold mret at 1. unfold ret. cbv beta iota.
    destruct (IH (set_calls (calls g ++ [(cb_id cb, v)]) g) Hch)
      as [g' (Hr & Hc & Hobj & Hw & Hrt & Hrn & Hrg)].
    exists g'. rewrite Hr, Hc, Hw, Hrg. cbn [calls set_calls].
    rewrite <- app_assoc. repeat split; auto.
  - destruct em as [e|].
    + unfold call_callback. rewrite Hquiet.
      eexists. split; [reflexivity|]. cbn. repeat split; reflexivity.
    + exists g. rewrite app_nil_r. repeat split; reflexivity.
Qed.

(** [error.warn()] for each of a list of [RemoteError]s. *)
Lemma warn_each (fs : list value) : forall g,
  (fix each (errors : list value) : M Gateway.t unit :=
     match errors with
     | [] => mret tt
     | error :: errors' => warn error;; each errors'
     end) (map VRemoteError fs) g
  = (ret tt, set_stderr (stderr g ++ map Warning_unhandled fs) g).
Proof.
  induction fs as [|f fs IH]; intros g; cbn [map].
  - rewrite app_nil_r. destruct g; reflexivity.
  - unfold warn at 1. unfold mbind at 1. unfold mmodify at 1.
    unfold ret. cbv beta iota. rewrite IH. cbn. rewrite <- app_assoc.
    reflexivity.
Qed.

End CallbackFacts.

(** * The channels, operation by operation *)

Module FactoryFacts.
Import ChannelFactory.

(** [new] written out. *)
Lemma new_spec (id : option Z) (cf : t) :
  new id cf =
    if finished cf then (raise (IOError "connexion already closed"), cf) else
    let i := match id with None => count cf | Some i => i end in
    let cf1 := match id with
               | None => set_count (count cf + 2) cf
               | Some _ => cf
               end in
    match _channels cf !! i with
    | Some a => (ret a, cf1)
    | None =>
        (ret (next_object cf),
         set__channels (<[i := next_object cf]> (_channels cf))
           (set_next_object (S (next_object cf))
              (set_objects
                 (<[next_object cf := Channel.__init__ i]> (objects cf)) cf1)))
    end.
Proof.
  unfold new, mbind, mget, mmodify, mraise, mret, ret, raise.
  cbv beta iota.
  destruct (finished cf); [reflexivity|].
  destruct id as [i|]; cbv beta iota zeta;
    cbn [_channels set_count]; destruct (_channels cf !! _); reflexivity.
Qed.

End FactoryFacts.

Module OpsFacts.
Import ChannelFactory Ops.

Ltac settle :=
  unfold settled;
  repeat match goal with |- _ /\ _ => split end;
  unfold routes_live, ids_unique, open_routed, never_both,
    neither_closed_but, endmarker_closed, addresses_below;
  cbn [objects _channels _callbacks next_object set__channels
       set__callbacks set_next_object set_objects].

Lemma settled_weaken (cf : t) (self : nat) :
  settled cf None -> settled cf (Some self).
Proof.
  intros (H1 & H2 & H3 & H4 & H5 & H6 & H7). settle; auto.
  intros a ch _. apply H5. discriminate.
Qed.

(** The channel objects change one by one: ids stay, flags are only
    ever set, a queue once gone stays gone. *)
Lemma settled_objects (skip : option nat) (cf cf' : t) :
  settled cf skip ->
  _channels cf' = _channels cf -> _callbacks cf' = _callbacks cf ->
  next_object cf' = next_object cf ->
  (forall b ch', objects cf' !! b = Some ch' ->
     exists ch0, objects cf !! b = Some ch0
       /\ Channel.id ch' = Channel.id ch0
       /\ (Channel._closed ch0 = true -> Channel._closed ch' = true)
       /\ (Channel._receiveclosed ch0 = true ->
           Channel._receiveclosed ch' = true)
       /\ (Channel._items ch0 = None -> Channel._items ch' = None)
       /\ (Channel._items ch' = None ->
           Channel._items ch0 = None \/ skip = Some b)
       /\ (forall q, Channel._items ch' = Some q -> In ENDMARKER q ->
           Channel._receiveclosed ch' = true)) ->
  (forall b ch0, objects cf !! b = Some ch0 ->
     exists ch', objects cf' !! b = Some ch') ->
  settled cf' skip.
Proof.
  intros (H1 & H2 & H3 & H4 & H5 & H6 & H7) Hch Hcb Hnx Hold Hnew.
  settle.
  - intros id a Ha. rewrite Hch in Ha.
    destruct (H1 id a Ha) as [ch0 [Hob Hid]].
    destruct (Hnew a ch0 Hob) as [ch' Hob'].
    exists ch'. split; [exact Hob'|].
    destruct (Hold a ch' Hob') as [ch1 (Hob1 & Hid1 & _)]. congruence.
  - intros a b ch ch' Ha Hb Hid.
    destruct (Hold a ch Ha) as [c0 (Ha0 & Hida & _)].
    destruct (Hold b ch' Hb) as [c1 (Hb0 & Hidb & _)].
    apply (H2 a b c0 c1 Ha0 Hb0). congruence.
  - intros a ch Ha Hc Hr. rewrite Hch.
    destruct (Hold a ch Ha) as [c0 (Ha0 & Hida & Hcl & Hrc & _)].
    rewrite Hida. apply (H3 a c0 Ha0).
    + destruct (Channel._closed c0); [|reflexivity].
      rewrite Hcl in Hc by reflexivity. discriminate.
    + destruct (Channel._receiveclosed c0); [|reflexivity].
      rewrite Hrc in Hr by reflexivity. discriminate.
  - intros a ch Ha Hq. rewrite Hcb.
    destruct (Hold a ch Ha) as [c0 (Ha0 & Hida & _ & _ & Hn & _)].
    rewrite Hida. apply (H4 a c0 Ha0). intros Hnone. apply Hq, Hn, Hnone.
  - intros a ch Hskip Ha Hq Hreg. rewrite Hcb in Hreg.
    destruct (Hold a ch Ha) as [c0 (Ha0 & Hida & Hcl & Hrc & _ & Hn' & _)].
    rewrite Hida in Hreg.
    destruct (Hn' Hq) as [Hq0|Hs]; [|congruence].
    destruct (H5 a c0 Hskip Ha0 Hq0 Hreg) as [Hc|Hr]; auto.
  - intros a ch q Ha Hq Hin.
    destruct (Hold a ch Ha) as [c0 (_ & _ & _ & _ & _ & _ & He)].
    apply (He q Hq Hin).
  - intros a ch Ha. rewrite Hnx.
    destruct (Hold a ch Ha) as [c0 (Ha0 & _)]. apply (H7 a c0 Ha0).
Qed.

(** One channel object is updated in place. *)
Lemma settled_alter (skip : option nat) (cf : t) (a : nat)
    (f : Channel.t -> Channel.t) (ch : Channel.t) :
  settled cf skip -> objects cf !! a = Some ch ->
  Channel.id (f ch) = Channel.id ch ->
  (Channel._closed ch = true -> Channel._closed (f ch) = true) ->
  (Channel._receiveclosed ch = true ->
   Channel._receiveclosed (f ch) = true) ->
  (Channel._items ch = None -> Channel._items (f ch) = None) ->
  (Channel._items (f ch) = None ->
   Channel._items ch = None \/ skip = Some a) ->
  (forall q, Channel._items (f ch) = Some q -> In ENDMARKER q ->
   Channel._receiveclosed (f ch) = true
   \/ exists q0, Channel._items ch = Some q0 /\ In ENDMARKER q0) ->
  settled (set_objects (alter f a (objects cf)) cf) skip.
Proof.
  intros Hs Ha Hid Hcl Hrc Hn Hn' He.
  apply (settled_objects skip cf); try reflexivity; [exact Hs| |].
  - intros b ch' Hb. cbn [objects set_objects] in Hb.
    destruct (decide (b = a)) as [->|Hne].
    + rewrite lookup_alter_eq, Ha in Hb. cbn in Hb. injection Hb as <-.
      exists ch. repeat split; auto.
      intros q Hq Hin. destruct (He q Hq Hin) as [Hr|[q0 [Hq0 Hin0]]];
        [exact Hr|].
      destruct Hs as (_ & _ & _ & _ & _ & H6 & _).
      apply Hrc, (H6 a ch q0 Ha Hq0 Hin0).
    + rewrite lookup_alter_ne in Hb by congruence.
      exists ch'. repeat split; auto.
      destruct Hs as (_ & _ & _ & _ & _ & H6 & _).
      intros q Hq Hin. apply (H6 b ch' q Hb Hq Hin).
  - intros b ch0 Hb. cbn [objects set_objects].
    destruct (decide (b = a)) as [->|Hne].
    + rewrite lookup_alter_eq, Hb. eexists. reflexivity.
    + rewrite lookup_alter_ne by congruence. eauto.
Qed.

(** The update of an address where no channel object lives changes
    nothing. *)
Lemma settled_alter_none (skip : option nat) (cf : t) (a : nat)
    (f : Channel.t -> Channel.t) :
  settled cf skip -> objects cf !! a = None ->
  settled (set_objects (alter f a (objects cf)) cf) skip.
Proof.
  intros Hs Ha.
  assert (Heq : alter f a (objects cf) = objects cf).
  { apply map_eq. intros b. destruct (decide (b = a)) as [->|Hne].
    - rewrite lookup_alter_eq, Ha. reflexivity.
    - apply lookup_alter_ne. congruence. }
  rewrite Heq. destruct cf. exact Hs.
Qed.

(** Every channel object with the id is closed or receive-closed. *)
Lemma settled_unroute (skip : option nat) (cf : t) (id : Z) :
  settled cf skip ->
  (forall a ch, objects cf !! a = Some ch -> Channel.id ch = id ->
     Channel._closed ch = true \/ Channel._receiveclosed ch = true) ->
  settled (set__channels (delete id (_channels cf)) cf) skip.
Proof.
  intros (H1 & H2 & H3 & H4 & H5 & H6 & H7) Hid. settle; auto.
  - intros j a Ha. cbn in Ha.
    destruct (decide (j = id)) as [->|Hne].
    + rewrite lookup_delete_eq in Ha. discriminate.
    + rewrite lookup_delete_ne in Ha by congruence. apply (H1 j a Ha).
  - intros a ch Ha Hc Hr. cbn in *.
    destruct (decide (Channel.id ch = id)) as [Heq|Hne].
    + destruct (Hid a ch Ha Heq); congruence.
    + rewrite lookup_delete_ne by congruence. apply (H3 a ch Ha Hc Hr).
Qed.

Lemma settled_unregister (skip : option nat) (cf : t) (id : Z) :
  settled cf skip ->
  (forall a ch, objects cf !! a = Some ch -> Channel.id ch = id ->
     Channel._closed ch = true \/ Channel._receiveclosed ch = true) ->
  settled (set__callbacks (delete id (_callbacks cf)) cf) skip.
Proof.
  intros (H1 & H2 & H3 & H4 & H5 & H6 & H7) Hid. settle; auto.
  - intros a ch Ha Hq. cbn in *.
    destruct (decide (Channel.id ch = id)) as [Heq|Hne].
    + rewrite Heq. apply lookup_delete_eq.
    + rewrite lookup_delete_ne by congruence. apply (H4 a ch Ha Hq).
  - intros a ch Hskip Ha Hq Hreg. cbn in *.
    destruct (decide (Channel.id ch = id)) as [Heq|Hne].
    + apply (Hid a ch Ha Heq).
    + rewrite lookup_delete_ne in Hreg by congruence.
      apply (H5 a ch Hskip Ha Hq Hreg).
Qed.

(** The channel that [setcallback] works on gets its callback. *)
Lemma settled_register (cf : t) (self : nat) (ch : Channel.t)
    (v : callback * option value) :
  settled cf (Some self) -> objects cf !! self = Some ch ->
  Channel._items ch = None ->
  settled (set__callbacks (<[Channel.id ch := v]> (_callbacks cf)) cf) None.
Proof.
  intros (H1 & H2 & H3 & H4 & H5 & H6 & H7) Hself Hq. settle; auto.
  - intros a c Ha Hqa. cbn in *.
    destruct (decide (Channel.id c = Channel.id ch)) as [Heq|Hne].
    + assert (a = self) as -> by (apply (H2 a self c ch Ha Hself Heq)).
      congruence.
    + rewrite lookup_insert_ne by congruence. apply (H4 a c Ha Hqa).
  - intros a c _ Ha Hqa Hreg. cbn in *.
    destruct (decide (Channel.id c = Channel.id ch)) as [Heq|Hne].
    + rewrite Heq, lookup_insert_eq in Hreg. discriminate.
    + rewrite lookup_insert_ne in Hreg by congruence.
      apply (H5 a c); auto. intros [= ->]. congruence.
Qed.

(** The channel that [setcallback] works on turns out closed or
    receive-closed, or gone. *)
Lemma settled_done (cf : t) (self : nat) :
  settled cf (Some self) ->
  (forall ch, objects cf !! self = Some ch ->
     Channel._closed ch = true \/ Channel._receiveclosed ch = true) ->
  settled cf None.
Proof.
  intros (H1 & H2 & H3 & H4 & H5 & H6 & H7) Hself. settle; auto.
  intros a c _ Ha Hq Hreg.
  destruct (decide (a = self)) as [->|Hne].
  - apply (Hself c Ha).
  - apply (H5 a c); auto. congruence.
Qed.

(** A channel object is created for an id that is not in use. *)
Lemma settled_new (cf : t) (id : Z) :
  settled cf None -> unused cf id ->
  settled
    (set__channels (<[id := next_object cf]> (_channels cf))
       (set_next_object (S (next_object cf))
          (set_objects
             (<[next_object cf := Channel.__init__ id]> (objects cf)) cf)))
    None.
Proof.
  intros (H1 & H2 & H3 & H4 & H5 & H6 & H7) [Hfree Hreg].
  assert (Hnone : objects cf !! next_object cf = None).
  { destruct (objects cf !! next_object cf) as [c|] eqn:Hc; [|reflexivity].
    specialize (H7 _ _ Hc). lia. }
  assert (Hlook : forall a c,
            <[next_object cf := Channel.__init__ id]> (objects cf) !! a
            = Some c ->
            (a = next_object cf /\ c = Channel.__init__ id)
            \/ (a <> next_object cf /\ objects cf !! a = Some c)).
  { intros a c Hc. destruct (decide (a = next_object cf)) as [->|Hne].
    - rewrite lookup_insert_eq in Hc. injection Hc as <-. auto.
    - rewrite lookup_insert_ne in Hc by congruence. auto. }
  settle; cbn [objects _channels _callbacks next_object set__channels
               set_next_object set_objects].
  - intros j a Ha. destruct (decide (j = id)) as [->|Hne].
    + rewrite lookup_insert_eq in Ha. injection Ha as <-.
      exists (Channel.__init__ id). rewrite lookup_insert_eq. auto.
    + rewrite lookup_insert_ne in Ha by congruence.
      destruct (H1 j a Ha) as [c [Hc Hid]]. exists c. split; [|exact Hid].
      rewrite lookup_insert_ne; [exact Hc|].
      intros Heq. rewrite <- Heq, Hnone in Hc. discriminate.
  - intros a b c c' Ha Hb Hid.
    destruct (Hlook a c Ha) as [[-> ->]|[Hna Ha']];
      destruct (Hlook b c' Hb) as [[-> ->]|[Hnb Hb']].
    + reflexivity.
    + exfalso. apply (Hfree b c' Hb'). symmetry. exact Hid.
    + exfalso. apply (Hfree a c Ha'). exact Hid.
    + apply (H2 a b c c' Ha' Hb' Hid).
  - intros a c Ha Hc Hr.
    destruct (Hlook a c Ha) as [[-> ->]|[Hna Ha']].
    + apply lookup_insert_eq.
    + rewrite lookup_insert_ne
        by (intros Heq; apply (Hfree a c Ha'); congruence).
      apply (H3 a c Ha' Hc Hr).
  - intros a c Ha Hq.
    destruct (Hlook a c Ha) as [[-> ->]|[Hna Ha']].
    + exact Hreg.
    + apply (H4 a c Ha' Hq).
  - intros a c _ Ha Hq Hrg.
    destruct (Hlook a c Ha) as [[-> ->]|[Hna Ha']].
    + discriminate.
    + apply (H5 a c); auto.
  - intros a c q Ha Hq Hin.
    destruct (Hlook a c Ha) as [[-> ->]|[Hna Ha']].
    + cbn in Hq. injection Hq as <-. destruct Hin.
    + apply (H6 a c q Ha' Hq Hin).
  - intros a c Ha.
    destruct (Hlook a c Ha) as [[-> ->]|[Hna Ha']]; [lia|].
    specialize (H7 a c Ha'). lia.
Qed.

(** A channel object goes away, and with it the factory's entries that
    led to it. *)
Lemma settled_drop (cf : t) (self : nat) :
  settled cf None ->
  settled
    (set__channels (filter (fun e => snd e <> self) (_channels cf))
       (set_objects (delete self (objects cf)) cf))
    None.
Proof.
  intros (H1 & H2 & H3 & H4 & H5 & H6 & H7).
  assert (Hlook : forall a c,
            delete self (objects cf) !! a = Some c ->
            a <> self /\ objects cf !! a = Some c).
  { intros a c Hc. destruct (decide (a = self)) as [->|Hne].
    - rewrite lookup_delete_eq in Hc. discriminate.
    - rewrite lookup_delete_ne in Hc by congruence. auto. }
  settle; cbn [objects _channels _callbacks next_object set__channels
               set_objects].
  - intros j a Ha. apply map_lookup_filter_Some in Ha as [Ha Hne].
    cbn in Hne. destruct (H1 j a Ha) as [c [Hc Hid]].
    exists c. split; [|exact Hid].
    rewrite lookup_delete_ne by congruence. exact Hc.
  - intros a b c c' Ha Hb Hid.
    destruct (Hlook a c Ha) as [_ Ha']. destruct (Hlook b c' Hb) as [_ Hb'].
    apply (H2 a b c c' Ha' Hb' Hid).
  - intros a c Ha Hc Hr. destruct (Hlook a c Ha) as [Hne Ha'].
    apply map_lookup_filter_Some. split; [apply (H3 a c Ha' Hc Hr)|].
    cbn. exact Hne.
  - intros a c Ha Hq. destruct (Hlook a c Ha) as [_ Ha'].
    apply (H4 a c Ha' Hq).
  - intros a c Hs Ha Hq Hrg. destruct (Hlook a c Ha) as [_ Ha'].
    apply (H5 a c Hs Ha' Hq Hrg).
  - intros a c q Ha Hq Hin. destruct (Hlook a c Ha) as [_ Ha'].
    apply (H6 a c q Ha' Hq Hin).
  - intros a c Ha. destruct (Hlook a c Ha) as [_ Ha']. apply (H7 a c Ha').
Qed.


(** *** Rules for [takes] *)

Lemma takes_ret {A} (P : t -> Prop) (a : A) : takes P (mret a) P.
Proof. intros g H. exact H. Qed.

Lemma takes_raise {A} (P : t -> Prop) (e : exn) : takes (A:=A) P (mraise e) P.
Proof. intros g H. exact H. Qed.

Lemma takes_weaken {A} (P P' Q Q' : t -> Prop) (m : M Gateway.t A) :
  (forall cf, P' cf -> P cf) -> (forall cf, Q cf -> Q' cf) ->
  takes P m Q -> takes P' m Q'.
Proof. intros HP HQ Hm g H. apply HQ, Hm, HP, H. Qed.

Lemma takes_fact {A} (P Q : t -> Prop) (fact : Prop) (m : M Gateway.t A) :
  (forall cf, P cf -> fact) -> (fact -> takes P m Q) -> takes P m Q.
Proof. intros Hf Hm g H. apply (Hm (Hf _ H) g H). Qed.

Lemma takes_bind {A B} (P Q1 Q : t -> Prop) (m : M Gateway.t A)
    (k : A -> M Gateway.t B) :
  takes P m Q1 -> (forall cf, Q1 cf -> Q cf) ->
  (forall x, takes Q1 (k x) Q) ->
  takes P (mbind m k) Q.
Proof.
  intros Hm Himp Hk g HP. specialize (Hm g HP). unfold mbind.
  destruct (m g) as [[e|x] g1]; cbn [snd] in *.
  - apply Himp, Hm.
  - apply (Hk x g1 Hm).
Qed.

Lemma takes_bind_ok {A B} (P Q1 Q : t -> Prop) (m : M Gateway.t A)
    (k : A -> M Gateway.t B) :
  (forall g, exists x, fst (m g) = ret x) ->
  takes P m Q1 -> (forall x, takes Q1 (k x) Q) ->
  takes P (mbind m k) Q.
Proof.
  intros Hok Hm Hk g HP. specialize (Hm g HP). unfold mbind.
  destruct (Hok g) as [x Hx].
  destruct (m g) as [[e|x'] g1]; cbn [fst snd] in *; [discriminate|].
  apply (Hk x' g1 Hm).
Qed.

Lemma takes_ext {A} (P Q : t -> Prop) (m m' : M Gateway.t A) :
  (forall g, m' g = m g) -> takes P m Q -> takes P m' Q.
Proof. intros He Hm g H. rewrite He. apply Hm, H. Qed.

Lemma takes_get {B} (P Q : t -> Prop) (k : Gateway.t -> M Gateway.t B) :
  (forall g0,
     takes (fun cf => P cf /\ cf = Gateway._channelfactory g0) (k g0) Q) ->
  takes P (mbind mget k) Q.
Proof. intros Hk g HP. apply (Hk g g). split; [exact HP|reflexivity]. Qed.

Lemma takes_get_channel {B} (self : nat) (P Q : t -> Prop)
    (k : Channel.t -> M Gateway.t B) :
  (forall cf, P cf -> Q cf) ->
  (forall ch,
     takes (fun cf => P cf /\ objects cf !! self = Some ch) (k ch) Q) ->
  takes P (mbind (Gateway.get_channel self) k) Q.
Proof.
  intros Himp Hk g HP. unfold mbind, Gateway.get_channel.
  destruct (objects (Gateway._channelfactory g) !! self) as [ch|] eqn:Hch.
  - apply (Hk ch g). split; assumption.
  - apply Himp, HP.
Qed.

Lemma takes_same {A} (P : t -> Prop) (m : M Gateway.t A) :
  (forall g, Gateway._channelfactory (snd (m g)) = Gateway._channelfactory g) ->
  takes P m P.
Proof. intros Hm g H. rewrite Hm. exact H. Qed.

Lemma takes_on_factory (P Q : t -> Prop) (F : t -> t) :
  (forall cf, P cf -> Q (F cf)) ->
  takes P (mmodify (Gateway.on_factory F)) Q.
Proof. intros HF g H. apply HF, H. Qed.

Lemma takes_modify_channel (skip : option nat) (self : nat)
    (f : Channel.t -> Channel.t) (ch : Channel.t) :
  Channel.id (f ch) = Channel.id ch ->
  (Channel._closed ch = true -> Channel._closed (f ch) = true) ->
  (Channel._receiveclosed ch = true ->
   Channel._receiveclosed (f ch) = true) ->
  (Channel._items ch = None -> Channel._items (f ch) = None) ->
  (Channel._items (f ch) = None ->
   Channel._items ch = None \/ skip = Some self) ->
  (forall q, Channel._items (f ch) = Some q -> In ENDMARKER q ->
   Channel._receiveclosed (f ch) = true
   \/ exists q0, Channel._items ch = Some q0 /\ In ENDMARKER q0) ->
  takes (fun cf => settled cf skip /\ objects cf !! self = Some ch)
    (Gateway.modify_channel self f)
    (fun cf => settled cf skip /\ objects cf !! self = Some (f ch)).
Proof.
  intros Hid Hcl Hrc Hn Hn' He. apply takes_on_factory.
  intros cf [Hs Hob]. split.
  - apply (settled_alter skip cf self f ch); assumption.
  - cbn. rewrite lookup_alter_eq, Hob. reflexivity.
Qed.

Ltac side :=
  cbn; auto; try discriminate; try (intros; congruence);
  try (intros ? ? ?; right; eexists; split; eassumption).

Lemma _send_factory (msg : Message.t) (g : Gateway.t) :
  Gateway._channelfactory (snd (Gateway._send msg g))
  = Gateway._channelfactory g.
Proof.
  unfold Gateway._send. destruct (Message.writeto msg _). reflexivity.
Qed.

Lemma call_callback_factory (cb : callback) (arg : value) (g : Gateway.t) :
  Gateway._channelfactory (snd (Gateway.call_callback cb arg g))
  = Gateway._channelfactory g.
Proof.
  unfold Gateway.call_callback, mbind, mmodify.
  destruct (cb_raises cb arg); reflexivity.
Qed.

Lemma warn_factory (error : value) (g : Gateway.t) :
  Gateway._channelfactory (snd (Gateway.warn error g))
  = Gateway._channelfactory g.
Proof. destruct error; reflexivity. Qed.

(** Every channel object with the id is closed or receive-closed. *)
Lemma closed_with_id (cf : t) (skip : option nat) (self : nat)
    (ch : Channel.t) :
  settled cf skip -> objects cf !! self = Some ch ->
  Channel._closed ch = true \/ Channel._receiveclosed ch = true ->
  forall a c, objects cf !! a = Some c -> Channel.id c = Channel.id ch ->
    Channel._closed c = true \/ Channel._receiveclosed c = true.
Proof.
  intros (_ & H2 & _) Hself Hc a c Ha Hid.
  assert (a = self) as -> by (apply (H2 a self c ch Ha Hself Hid)).
  congruence.
Qed.

(** *** The operations *)

Lemma takes__no_longer_opened (skip : option nat) (id : Z) :
  takes (fun cf => settled cf skip
                   /\ forall a c, objects cf !! a = Some c ->
                        Channel.id c = id ->
                        Channel._closed c = true
                        \/ Channel._receiveclosed c = true)
    (Gateway._no_longer_opened id)
    (fun cf => settled cf skip).
Proof.
  unfold Gateway._no_longer_opened.
  apply (takes_bind _
           (fun cf => settled cf skip
                      /\ forall a c, objects cf !! a = Some c ->
                           Channel.id c = id ->
                           Channel._closed c = true
                           \/ Channel._receiveclosed c = true)).
  - apply takes_on_factory. intros cf [Hs Hid]. split; [|exact Hid].
    apply settled_unroute; assumption.
  - intros cf [Hs _]. exact Hs.
  - intros _. apply takes_get. intros g0.
    destruct (_callbacks (Gateway._channelfactory g0) !! id) as [[cb em]|].
    + apply (takes_bind _ (fun cf => settled cf skip)).
      * apply takes_on_factory. intros cf [[Hs Hid] _].
        apply settled_unregister; assumption.
      * auto.
      * intros _. destruct em as [e|].
        -- apply takes_same. intros g. apply call_callback_factory.
        -- apply takes_ret.
    + apply (takes_weaken (fun cf => settled cf skip) _
               (fun cf => settled cf skip)); [|auto|apply takes_ret].
      intros cf [[Hs _] _]. exact Hs.
Qed.

Lemma takes_forget {A} (P R Q : t -> Prop) (m : M Gateway.t A) :
  takes P m Q -> takes (fun cf => P cf /\ R cf) m Q.
Proof. intros Hm g [H _]. apply Hm, H. Qed.

Ltac forget := apply (takes_forget (fun cf => settled cf None)).

(** What [close] and [_local_close] share: the flags are set and the
    end-marker is put. *)
Lemma takes_flags (self : nat) (ch : Channel.t) (sendonly : bool) :
  takes (fun cf => settled cf None /\ objects cf !! self = Some ch)
    ((if negb sendonly
      then Gateway.modify_channel self (Channel.set__closed true)
      else mret tt);;
     Gateway.modify_channel self (Channel.set__receiveclosed true);;
     Gateway.modify_channel self (Channel.put ENDMARKER))
    (fun cf => settled cf None
               /\ forall a c, objects cf !! a = Some c ->
                    Channel.id c = Channel.id ch ->
                    Channel._closed c = true
                    \/ Channel._receiveclosed c = true).
Proof.
  set (c1 := if negb sendonly then Channel.set__closed true ch else ch).
  assert (Hid1 : Channel.id c1 = Channel.id ch)
    by (subst c1; destruct sendonly; reflexivity).
  apply (takes_bind_ok _
           (fun cf => settled cf None /\ objects cf !! self = Some c1)).
  { intros g. destruct sendonly; eexists; reflexivity. }
  { subst c1. destruct sendonly; cbn [negb].
    - apply takes_ret.
    - apply takes_modify_channel; side. }
  intros _.
  apply (takes_bind_ok _
           (fun cf => settled cf None
                      /\ objects cf !! self
                         = Some (Channel.set__receiveclosed true c1))).
  { intros g. eexists. reflexivity. }
  { apply takes_modify_channel; side. }
  intros _.
  apply (takes_weaken
           (fun cf => settled cf None
                      /\ objects cf !! self
                         = Some (Channel.set__receiveclosed true c1))
           _
           (fun cf => settled cf None
                      /\ objects cf !! self
                         = Some (Channel.put ENDMARKER
                                   (Channel.set__receiveclosed true c1))));
    [auto| |].
  - intros cf [Hs Hob]. split; [exact Hs|]. intros a c Ha Hid.
    apply (fun H => closed_with_id cf None self _ Hs Hob H a c Ha).
    + right. unfold Channel.put. cbn. destruct (Channel._items c1); reflexivity.
    + unfold Channel.put. cbn. destruct (Channel._items c1); cbn; congruence.
  - apply takes_modify_channel; unfold Channel.put; cbn;
      destruct (Channel._items c1) eqn:Hq1; side.
Qed.

Lemma takes_close (self : nat) (error : value) :
  takes (fun cf => settled cf None) (Gateway.close self error)
    (fun cf => settled cf None).
Proof.
  unfold Gateway.close. apply takes_get_channel; [auto|]. intros ch.
  destruct (Channel._executing ch); [forget; apply takes_raise|].
  destruct (Channel._closed ch); cbn [negb]; [forget; apply takes_ret|].
  apply (takes_bind _
           (fun cf => settled cf None /\ objects cf !! self = Some ch)).
  { apply takes_same. intros g.
    destruct (negb (Channel._receiveclosed ch)); [|reflexivity].
    destruct error; apply _send_factory. }
  { intros cf [Hs _]. exact Hs. }
  intros _.
  set (c1 := if Gateway.isinstance_RemoteError error
             then Channel.set__remoteerrors
                    (Channel._remoteerrors ch ++ [error]) ch
             else ch).
  assert (Hid1 : Channel.id c1 = Channel.id ch)
    by (subst c1; destruct (Gateway.isinstance_RemoteError error);
        reflexivity).
  apply (takes_bind_ok _
           (fun cf => settled cf None /\ objects cf !! self = Some c1)).
  { intros g. destruct (Gateway.isinstance_RemoteError error);
      eexists; reflexivity. }
  { subst c1. destruct (Gateway.isinstance_RemoteError error).
    - apply (takes_modify_channel None self
               (fun ch0 => Channel.set__remoteerrors
                             (Channel._remoteerrors ch0 ++ [error]) ch0));
        side.
    - apply takes_ret. }
  intros _. rewrite <- Hid1.
  apply (takes_ext _ _
           (((if negb false
              then Gateway.modify_channel self (Channel.set__closed true)
              else mret tt);;
             Gateway.modify_channel self (Channel.set__receiveclosed true);;
             Gateway.modify_channel self (Channel.put ENDMARKER));;
            Gateway._no_longer_opened (Channel.id c1)));
    [intros g; reflexivity|].
  apply (takes_bind _ _ _ _ _ (takes_flags self c1 false)).
  - intros cf [Hs _]. exact Hs.
  - intros _. apply takes__no_longer_opened.
Qed.

Lemma takes__local_close (id : Z) (remoteerror : value) (sendonly : bool) :
  takes (fun cf => settled cf None)
    (Gateway._local_close id remoteerror sendonly)
    (fun cf => settled cf None).
Proof.
  unfold Gateway._local_close. apply takes_get. intros g0.
  destruct (_channels (Gateway._channelfactory g0) !! id) as [channel|]
    eqn:Hrt.
  - apply (takes_fact _ _
             (exists ch, objects (Gateway._channelfactory g0) !! channel
                         = Some ch /\ Channel.id ch = id)).
    { intros cf [(H1 & _) ->]. apply (H1 id channel Hrt). }
    intros [ch [Hob <-]].
    apply (takes_bind _
             (fun cf => settled cf None
                        /\ forall a c, objects cf !! a = Some c ->
                             Channel.id c = Channel.id ch ->
                             Channel._closed c = true
                             \/ Channel._receiveclosed c = true)).
    + set (c1 := if Gateway.truthy remoteerror
                 then Channel.set__remoteerrors
                        (Channel._remoteerrors ch ++ [remoteerror]) ch
                 else ch).
      assert (Hid1 : Channel.id c1 = Channel.id ch)
        by (subst c1; destruct (Gateway.truthy remoteerror); reflexivity).
      rewrite <- Hid1.
      apply (takes_bind_ok _
               (fun cf => settled cf None
                          /\ objects cf !! channel = Some c1)).
      * intros g. destruct (Gateway.truthy remoteerror);
          eexists; reflexivity.
      * subst c1. destruct (Gateway.truthy remoteerror).
        -- apply (takes_weaken
                    (fun cf => settled cf None
                               /\ objects cf !! channel = Some ch) _
                    (fun cf => settled cf None
                               /\ objects cf !! channel
                                  = Some (Channel.set__remoteerrors
                                            (Channel._remoteerrors ch
                                             ++ [remoteerror]) ch)));
             [intros cf [Hs ->]; auto|auto|].
           apply (takes_modify_channel None channel
                    (fun ch0 => Channel.set__remoteerrors
                                  (Channel._remoteerrors ch0
                                   ++ [remoteerror]) ch0));
             side.
        -- apply (takes_weaken
                    (fun cf => settled cf None
                               /\ objects cf !! channel = Some ch) _
                    (fun cf => settled cf None
                               /\ objects cf !! channel = Some ch));
             [intros cf [Hs ->]; auto|auto|apply takes_ret].
      * intros _. apply takes_flags.
    + intros cf [Hs _]. exact Hs.
    + intros _. apply takes__no_longer_opened.
  - apply (takes_bind _
             (fun cf => settled cf None
                        /\ cf = Gateway._channelfactory g0)).
    + apply takes_same. intros g.
      destruct (Gateway.truthy remoteerror); [|reflexivity].
      destruct (negb _); [apply warn_factory|reflexivity].
    + intros cf [Hs _]. exact Hs.
    + intros _.
      apply (takes_weaken
               (fun cf => settled cf None
                          /\ forall a c, objects cf !! a = Some c ->
                               Channel.id c = id ->
                               Channel._closed c = true
                               \/ Channel._receiveclosed c = true)
               _ (fun cf => settled cf None));
        [|auto|apply takes__no_longer_opened].
      intros cf [Hs ->]. split; [exact Hs|].
      intros a c Ha Hid. destruct Hs as (_ & _ & H3 & _).
      destruct (Channel._closed c) eqn:Hc; [auto|].
      destruct (Channel._receiveclosed c) eqn:Hr; [auto|].
      specialize (H3 a c Ha Hc Hr). rewrite Hid in H3. congruence.
Qed.

Lemma takes__getremoteerror (self : nat) :
  takes (fun cf => settled cf None) (Gateway._getremoteerror self)
    (fun cf => settled cf None).
Proof.
  unfold Gateway._getremoteerror. apply takes_get_channel; [auto|].
  intros ch. destruct (Channel._remoteerrors ch) as [|e rest].
  - forget. apply takes_get. intros g0.
    apply (takes_forget (fun cf => settled cf None)).
    destruct (Gateway._error g0); apply takes_ret.
  - apply (takes_bind _
             (fun cf => settled cf None
                        /\ objects cf !! self
                           = Some (Channel.set__remoteerrors rest ch))).
    + apply takes_modify_channel; side.
    + intros cf [Hs _]. exact Hs.
    + intros _. forget. apply takes_ret.
Qed.

Lemma takes_receive (self : nat) (timeout : Z) :
  takes (fun cf => settled cf None) (Gateway.receive self timeout)
    (fun cf => settled cf None).
Proof.
  unfold Gateway.receive. apply takes_get_channel; [auto|]. intros ch.
  destruct (Channel._items ch) as [[|x itemqueue]|] eqn:Hq.
  - forget. destruct (timeout <? 0); [apply takes_ret|apply takes_raise].
  - apply (takes_fact _ _
             (x = ENDMARKER -> Channel._receiveclosed ch = true)).
    { intros cf [(_ & _ & _ & _ & _ & H6 & _) Hob] ->.
      apply (H6 self ch _ Hob Hq). left. reflexivity. }
    intros Hrc.
    apply (takes_bind _
             (fun cf => settled cf None
                        /\ objects cf !! self
                           = Some (Channel.set__items (Some itemqueue) ch))).
    + apply takes_modify_channel; side.
      intros q [= <-] Hin. right. exists (x :: itemqueue).
      split; [exact Hq|right; exact Hin].
    + intros cf [Hs _]. exact Hs.
    + intros _. destruct x as [v|].
      * forget. apply takes_ret.
      * apply (takes_bind _ (fun cf => settled cf None)).
        -- apply (takes_weaken
                    (fun cf => settled cf None
                               /\ objects cf !! self
                                  = Some (Channel.set__items
                                            (Some itemqueue) ch))
                    _
                    (fun cf => settled cf None
                               /\ objects cf !! self
                                  = Some (Channel.put ENDMARKER
                                            (Channel.set__items
                                               (Some itemqueue) ch))));
             [auto|intros cf [Hs _]; exact Hs|].
           apply takes_modify_channel; unfold Channel.put; side.
        -- auto.
        -- intros _. apply (takes_bind _ (fun cf => settled cf None));
             [apply takes__getremoteerror|auto|].
           intros err. apply takes_raise.
  - forget. apply takes_raise.
Qed.

Lemma takes_waitclose (self : nat) (timeout : option Z) :
  takes (fun cf => settled cf None) (Gateway.waitclose self timeout)
    (fun cf => settled cf None).
Proof.
  unfold Gateway.waitclose. apply takes_get_channel; [auto|]. intros ch.
  forget. destruct (negb (Channel._receiveclosed ch)).
  - destruct timeout; [apply takes_raise|apply takes_ret].
  - apply (takes_bind _ (fun cf => settled cf None));
      [apply takes__getremoteerror|auto|].
    intros [[v|e]|]; [|apply takes_raise|apply takes_ret].
    destruct (Gateway.truthy v); [apply takes_raise|apply takes_ret].
Qed.

Lemma takes__local_receive (id : Z) (data errortext : value) :
  takes (fun cf => settled cf None)
    (Gateway._local_receive id data errortext)
    (fun cf => settled cf None).
Proof.
  unfold Gateway._local_receive. apply takes_get. intros g0.
  destruct (_callbacks (Gateway._channelfactory g0) !! id) as [[cb em]|].
  - intros g [Hs _]. cbv beta.
    pose proof (call_callback_factory cb data g) as Hcf.
    destruct (Gateway.call_callback cb data g) as [[e|[]] g'];
      cbn [snd] in *; [|rewrite Hcf; exact Hs].
    apply (takes_bind (fun cf => settled cf None)
             (fun cf => settled cf None) (fun cf => settled cf None)).
    + apply takes_same. intros g1. apply _send_factory.
    + auto.
    + intros _. apply takes__local_close.
    + rewrite Hcf. exact Hs.
  - destruct (_channels (Gateway._channelfactory g0) !! id) as [channel|]
      eqn:Hrt.
    + apply (takes_fact _ _
               (exists ch, objects (Gateway._channelfactory g0) !! channel
                           = Some ch)).
      { intros cf [(H1 & _) ->].
        destruct (H1 id channel Hrt) as [ch [Hob _]]. eauto. }
      intros [ch Hob].
      apply (takes_weaken
               (fun cf => settled cf None /\ objects cf !! channel = Some ch)
               _
               (fun cf => settled cf None
                          /\ objects cf !! channel
                             = Some (Channel.put (Data data) ch)));
        [intros cf [Hs ->]; auto|intros cf [Hs _]; exact Hs|].
      apply takes_modify_channel; unfold Channel.put;
        destruct (Channel._items ch) as [q|] eqn:Hq; side.
      intros q' [= <-] Hin. right. exists q. split; [reflexivity|].
      apply in_app_or in Hin as [Hin|[Hin|[]]]; [exact Hin|discriminate].
    + forget. apply takes_ret.
Qed.

Lemma has_endmarker_In (items : list item) :
  Spec.has_endmarker items = true -> In ENDMARKER items.
Proof.
  induction items as [|[v|] items IH]; cbn; [discriminate|auto|auto].
Qed.

(** The drain loop of [setcallback], with a callback that does not raise
    on the queued items. *)
Lemma setcallback_loop_settled (self : nat) (cb : callback)
    (em : option value) (c : Channel.t) (items : list item) :
  Channel._items c = None ->
  (Spec.has_endmarker items = true -> Channel._receiveclosed c = true) ->
  (forall x, In x (Spec.drained items) -> cb_raises cb x = false) ->
  forall g,
    settled (Gateway._channelfactory g) (Some self) ->
    objects (Gateway._channelfactory g) !! self = Some c ->
    settled
      (Gateway._channelfactory
         (snd (Gateway.setcallback_loop self cb em items g))) None.
Proof.
  intros Hq. induction items as [|[v|] items IH]; intros Hrc Hquiet g Hs Hob;
    cbn [Gateway.setcallback_loop].
  - unfold mbind, Gateway.get_channel. rewrite Hob.
    unfold ret at 1. cbv beta iota.
    destruct (negb (Channel._closed c || Channel._receiveclosed c)) eqn:Hopen.
    + cbn. apply (settled_register _ self); assumption.
    + cbn. apply (settled_done _ self Hs). intros c' Hc'.
      rewrite Hob in Hc'. injection Hc' as <-.
      apply negb_false_iff, orb_true_iff in Hopen. exact Hopen.
  - unfold mbind at 1. unfold Gateway.call_callback at 1.
    rewrite (Hquiet v) by (left; reflexivity).
    unfold mbind at 1. unfold mmodify at 1. cbv beta iota.
    unfold mret at 1. cbv beta iota. unfold ret at 1. cbv beta iota.
    apply IH; [exact Hrc| |exact Hs|exact Hob].
    intros x Hx. apply Hquiet. right. exact Hx.
  - assert (Hdone : settled (Gateway._channelfactory g) None).
    { apply (settled_done _ self Hs). intros c' Hc'.
      rewrite Hob in Hc'. injection Hc' as <-. right. apply Hrc. reflexivity. }
    destruct em as [e|]; [|exact Hdone].
    rewrite call_callback_factory. exact Hdone.
Qed.

Lemma setcallback_settled (self : nat) (cb : callback) (em : option value)
    (g : Gateway.t) :
  settled (Gateway._channelfactory g) None ->
  (forall ch q x,
      objects (Gateway._channelfactory g) !! self = Some ch ->
      Channel._items ch = Some q -> In x (Spec.drained q) ->
      cb_raises cb x = false) ->
  settled (Gateway._channelfactory (snd (Gateway.setcallback self cb em g)))
    None.
Proof.
  intros Hs Hquiet. unfold Gateway.setcallback, mbind at 1.
  unfold Gateway.get_channel.
  destruct (objects (Gateway._channelfactory g) !! self) as [ch|] eqn:Hob;
    [|exact Hs].
  unfold ret at 1. cbv beta iota.
  destruct (Channel._items ch) as [items|] eqn:Hq; [|exact Hs].
  unfold mbind at 1. unfold Gateway.modify_channel at 1.
  unfold mmodify at 1. cbv beta iota. unfold ret at 1. cbv beta iota.
  apply (setcallback_loop_settled self cb em (Channel.set__items None ch)).
  - reflexivity.
  - intros He. cbn. destruct Hs as (_ & _ & _ & _ & _ & H6 & _).
    apply (H6 self ch items Hob Hq), has_endmarker_In, He.
  - intros x Hx. apply (Hquiet ch items x eq_refl Hq Hx).
  - cbn. apply (settled_alter (Some self) _ self _ ch);
      [apply settled_weaken, Hs|exact Hob|side..].
  - cbn. rewrite lookup_alter_eq, Hob. reflexivity.
Qed.

Lemma new_settled (id : option Z) (cf : t) :
  settled cf None ->
  known_or_unused cf (match id with Some i => i | None => count cf end) ->
  settled (snd (new id cf)) None.
Proof.
  intros Hs Hk. rewrite FactoryFacts.new_spec.
  destruct (finished cf); [exact Hs|]. cbv zeta.
  destruct (_channels cf !! _) as [a|] eqn:Hrt.
  - destruct id; exact Hs.
  - destruct Hk as [Hk|Hfree]; [congruence|].
    cbn [snd]. destruct id as [i|].
    + apply settled_new; assumption.
    + apply (settled_new (set_count (count cf + 2) cf) (count cf));
        [exact Hs|exact Hfree].
Qed.

Lemma warn_loop_factory (errors : list value) : forall g,
  Gateway._channelfactory
    (snd ((fix each (errors : list value) : M Gateway.t unit :=
             match errors with
             | [] => mret tt
             | error :: errors' => Gateway.warn error;; each errors'
             end) errors g))
  = Gateway._channelfactory g.
Proof.
  induction errors as [|e errors IH]; intros g; [reflexivity|].
  unfold mbind. pose proof (warn_factory e g) as Hw.
  destruct (Gateway.warn e g) as [[x|[]] g1]; cbn [snd] in *;
    [exact Hw|].
  rewrite IH. exact Hw.
Qed.

Lemma __del___factory (self : nat) (g : Gateway.t) :
  Gateway._channelfactory (snd (Gateway.__del__ self g))
  = Gateway._channelfactory g.
Proof.
  unfold Gateway.__del__. unfold mbind at 1. unfold Gateway.get_channel.
  destruct (objects (Gateway._channelfactory g) !! self) as [ch|];
    [|reflexivity].
  unfold ret at 1. cbv beta iota.
  destruct (negb (Channel.gateway_set ch)); [reflexivity|].
  destruct (Channel._closed ch); [apply warn_loop_factory|].
  destruct (Channel._receiveclosed ch); [reflexivity|].
  pose proof (_send_factory
                (Message.make0
                   match Channel._items ch with
                   | Some _ => Message.CHANNEL_CLOSE
                   | None => Message.CHANNEL_LAST_MESSAGE
                   end (Channel.id ch)) g) as Hsend.
  destruct (Gateway._send _ g) as [[e|[]] g1]; cbn [snd] in *;
    [destruct (Gateway.is_IOError_or_ValueError e)|]; exact Hsend.
Qed.

Lemma drop_last_reference_settled (self : nat) (g : Gateway.t) :
  settled (Gateway._channelfactory g) None ->
  settled (Gateway._channelfactory (snd (Gateway.drop_last_reference self g)))
    None.
Proof.
  intros Hs. unfold Gateway.drop_last_reference.
  destruct (objects (Gateway._channelfactory g) !! self); [|exact Hs].
  cbn [snd]. unfold Gateway.on_factory.
  cbn [Gateway._channelfactory Gateway.set__channelfactory].
  rewrite __del___factory. apply settled_drop, Hs.
Qed.

Lemma send_factory (self : nat) (item : value) (g : Gateway.t) :
  Gateway._channelfactory (snd (Gateway.send self item g))
  = Gateway._channelfactory g.
Proof.
  unfold Gateway.send, mbind, Gateway.get_channel.
  destruct (objects (Gateway._channelfactory g) !! self) as [ch|];
    [|reflexivity].
  unfold ret at 1. cbv beta iota.
  destruct (Channel._closed ch); [reflexivity|apply _send_factory].
Qed.

Lemma STATUS_received_factory (msg : Message.t) (g : Gateway.t) :
  Gateway._channelfactory (snd (Gateway.STATUS_received msg g))
  = Gateway._channelfactory g.
Proof.
  unfold Gateway.STATUS_received, mbind, mget. cbv beta iota.
  unfold ret at 1. cbv beta iota.
  destruct (Gateway._execqueue g); [apply _send_factory|reflexivity].
Qed.

Lemma factory_new_settled (id : option Z) (g : Gateway.t) :
  settled (Gateway._channelfactory g) None ->
  known_or_unused (Gateway._channelfactory g)
    (match id with
     | Some i => i
     | None => count (Gateway._channelfactory g)
     end) ->
  settled (Gateway._channelfactory (snd (Gateway.factory_new id g))) None.
Proof.
  intros Hs Hk. unfold Gateway.factory_new.
  pose proof (new_settled id _ Hs Hk) as Hn.
  destruct (new id (Gateway._channelfactory g)) as [r cf']. exact Hn.
Qed.

(** Every operation that is allowed keeps the channels consistent. *)
Lemma run_consistent (o : op) (g : Gateway.t) :
  consistent g -> allowed o g -> consistent (run o g).
Proof.
  unfold consistent. intros Hs Ha. destruct o; cbn [run allowed] in *.
  - apply (factory_new_settled None g Hs Ha).
  - apply (factory_new_settled (Some id) g Hs Ha).
  - unfold Gateway.CHANNEL_EXEC_received, Gateway._local_schedulexec, mbind.
    pose proof (factory_new_settled (Some (Message.channelid msg)) g Hs Ha)
      as Hn.
    destruct (Gateway.factory_new (Some (Message.channelid msg)) g)
      as [[e|channel] g1]; cbn [snd] in *; [exact Hn|].
    apply (takes_close channel _ g1 Hn).
  - apply setcallback_settled; assumption.
  - apply (takes_close self error g Hs).
  - apply (takes_waitclose self timeout g Hs).
  - rewrite send_factory. exact Hs.
  - apply (takes_receive self timeout g Hs).
  - apply drop_last_reference_settled, Hs.
  - apply (takes__local_receive id data errortext g Hs).
  - apply (takes__local_close id remoteerror sendonly g Hs).
  - rewrite STATUS_received_factory. exact Hs.
Qed.

Lemma runs_consistent (os : list op) : forall g,
  consistent g -> all_allowed os g -> consistent (runs os g).
Proof.
  induction os as [|o os IH]; intros g Hs Ha; [exact Hs|].
  destruct Ha as [Ha Hrest]. cbn [runs].
  apply IH; [apply run_consistent; assumption|exact Hrest].
Qed.

Lemma init_consistent (io : Popen2IO.t) (startcount : Z) :
  consistent (Gateway.__init__ io startcount).
Proof.
  unfold consistent. settle; cbn;
    try (intros; match goal with
                 | H : ∅ !! _ = Some _ |- _ =>
                     rewrite lookup_empty in H; discriminate
                 end).
Qed.

End OpsFacts.

(** * The channel claims *)

Module ChannelClaims.
Import Gateway Spec GatewayFacts ChannelFacts CloseFacts CallbackFacts Examples.
Import EndToEnd.
Import Ops Scenarios.










(** C6, as stated, fails in four ways.  Neither: [setcallback] on a
    channel that is already closed takes the queue away and registers
    nothing.  Both: after a channel with a callback was finalized, the
    callback is still registered, and a channel object created anew for
    the id has a queue; and when a channel object is created anew for the
    id of a send-only channel and gets a callback, the send-only channel
    has its queue and a callback is registered under its id.  Neither, on
    an open channel: a callback that raises on a waiting item leaves
    [setcallback] with the queue taken away and nothing registered. *)
Lemma queue_xor_callback_counterexample :
  (fst (setcallback 0 quiet_callback None one_closed) = ret tt
   /\ Channel._items
        <$> channel_at (snd (setcallback 0 quiet_callback None one_closed)) 0
      = Some None
   /\ registered (snd (setcallback 0 quiet_callback None one_closed)) 1
      = None)
  /\ (channel_at recreated_after_finalizer 1 = Some (Channel.__init__ 1)
      /\ Channel._items (Channel.__init__ 1) = Some []
      /\ registered recreated_after_finalizer 1 = Some (quiet_callback, None))
  /\ (channel_at recreated_beside_sendonly 0
      = Some (Channel.put ENDMARKER
                (Channel.set__receiveclosed true (Channel.__init__ 1)))
      /\ Channel._items
           (Channel.put ENDMARKER
              (Channel.set__receiveclosed true (Channel.__init__ 1)))
         = Some [ENDMARKER]
      /\ registered recreated_beside_sendonly 1 = Some (quiet_callback, None))
  /\ (channel_at drain_interrupted 0
      = Some (Channel.set__items None (Channel.__init__ 1))
      /\ registered drain_interrupted 1 = None).
Proof. repeat split; vm_compute; reflexivity. Qed.

(** What [setcallback] does, with a callback that does not raise. *)
Lemma setcallback_spec (g : Gateway.t) (self : nat) (ch : Channel.t)
    (cb : callback) (em : option value) :
  channel_at g self = Some ch ->
  (forall x, cb_raises cb x = false) ->
  (Channel._items ch = None ->
   setcallback self cb em g
   = (raise (IOError "has callback already registered"), g))
  /\ (forall q,
         Channel._items ch = Some q ->
         exists g',
           setcallback self cb em g = (ret tt, g')
           /\ channel_at g' self = Some (Channel.set__items None ch)
           /\ calls g' = calls g ++ setcallback_calls cb em q
           /\ wire g' = wire g
           /\ registered g' (Channel.id ch)
              = if negb (has_endmarker q)
                   && negb (Channel._closed ch || Channel._receiveclosed ch)
                then Some (cb, em)
                else registered g (Channel.id ch)).
Proof.
  intros Hch Hquiet. unfold setcallback.
  rewrite (mbind_ok _ _ _ _ _ (get_channel_ok _ _ _ Hch)). split.
  - intros ->. reflexivity.
  - intros q ->.
    rewrite (mbind_ok _ _ _ _ _ (modify_channel_ok _ _ _ _ Hch)).
    destruct (setcallback_loop_spec self (Channel.set__items None ch) cb em q
                Hquiet (set_channel self (Channel.set__items None ch) g)
                (channel_at_set_channel _ _ _))
      as [g' (Hr & Hc & Hobj & Hw & _ & _ & Hrg)].
    cbn [Channel.id Channel._closed Channel._receiveclosed
         Channel.set__items] in Hrg.
    exists g'. rewrite Hr, Hc, Hobj, Hw, Hrg, channel_at_set_channel.
    repeat split; reflexivity.
Qed.

(** C6 (amended).  A channel object is created with an empty items
    queue.  [setcallback] raises [IOError] on a channel that has no
    queue; on a channel with a queue, and with a callback that does not
    raise, it takes the queue away, calls the callback on the queued
    payloads in order up to the end-marker (and then once on the endmarker
    value, if one is wanted), and registers the callback only when no
    end-marker was queued and the channel is neither closed nor
    receive-closed.  And the channels stay consistent: a gateway starts
    consistent, and every operation ([newchannel], [new(id)], the dispatch
    of [CHANNEL_EXEC], [setcallback], [close], [waitclose], [send],
    [receive], the finalizer, the dispatch of [CHANNEL_DATA], of
    [CHANNEL_CLOSE], [CHANNEL_CLOSE_ERROR] and [CHANNEL_LAST_MESSAGE], and
    of [STATUS]) keeps it consistent, whether it returns or raises, as
    long as a channel object is created only for an id that is not in use
    (or is handed out again for an id the factory knows) and a callback
    handed to [setcallback] does not raise on the items waiting in the
    queue.  In a consistent gateway every channel with a queue has no
    callback registered under its id (never both), and a channel without a
    queue and without a registered callback is closed or receive-closed
    (neither, only then). *)
Theorem queue_xor_callback_invariant :
  (forall id cf,
      ChannelFactory.finished cf = false ->
      ChannelFactory._channels cf !! id = None ->
      exists cf',
        ChannelFactory.new (Some id) cf
        = (ret (ChannelFactory.next_object cf), cf')
        /\ ChannelFactory.objects cf' !! ChannelFactory.next_object cf
           = Some (Channel.__init__ id)
        /\ Channel._items (Channel.__init__ id) = Some [])
  /\ (forall g self ch cb em,
         channel_at g self = Some ch ->
         (forall x, cb_raises cb x = false) ->
         (Channel._items ch = None ->
          setcallback self cb em g
          = (raise (IOError "has callback already registered"), g))
         /\ (forall q,
                Channel._items ch = Some q ->
                exists g',
                  setcallback self cb em g = (ret tt, g')
                  /\ channel_at g' self = Some (Channel.set__items None ch)
                  /\ calls g' = calls g ++ setcallback_calls cb em q
                  /\ wire g' = wire g
                  /\ registered g' (Channel.id ch)
                     = if negb (has_endmarker q)
                          && negb (Channel._closed ch
                                   || Channel._receiveclosed ch)
                       then Some (cb, em)
                       else registered g (Channel.id ch)))
  /\ (forall io startcount, consistent (Gateway.__init__ io startcount))
  /\ (forall o g, consistent g -> allowed o g -> consistent (run o g))
  /\ (forall os io startcount,
         all_allowed os (Gateway.__init__ io startcount) ->
         consistent (runs os (Gateway.__init__ io startcount)))
  /\ (forall g self ch,
         consistent g -> channel_at g self = Some ch ->
         (Channel._items ch <> None -> registered g (Channel.id ch) = None)
         /\ (Channel._items ch = None ->
             registered g (Channel.id ch) = None ->
             Channel._closed ch = true \/ Channel._receiveclosed ch = true)).
Proof.
  split; [|split; [|split; [|split; [|split]]]].
  - intros id cf Hf Hid. rewrite FactoryFacts.new_spec, Hf. cbv zeta.
    rewrite Hid. eexists. split; [reflexivity|]. cbn.
    rewrite lookup_insert_eq. split; reflexivity.
  - intros g self ch cb em. apply setcallback_spec.
  - apply OpsFacts.init_consistent.
  - apply OpsFacts.run_consistent.
  - intros os io startcount Ha.
    apply OpsFacts.runs_consistent; [apply OpsFacts.init_consistent|exact Ha].
  - intros g self ch (_ & _ & _ & H4 & H5 & _) Hch. split.
    + apply (H4 self ch Hch).
    + apply (H5 self ch); [discriminate|exact Hch].
Qed.

Lemma queue_xor_callback_invariant_witness :
  consistent
    (runs [ Newchannel; LocalReceive 1 (VInt 5) VNone;
            LocalReceive 1 (VInt 6) VNone;
            Setcallback 0 quiet_callback (Some VNone); Close 0 VNone ]
       (Gateway.__init__ fresh_io 1))
  /\ exists g',
       setcallback 0 quiet_callback (Some VNone) two_waiting = (ret tt, g')
       /\ channel_at g' 0
          = Some (Channel.set__items None
                    (Channel.put (Data (VInt 6))
                       (Channel.put (Data (VInt 5)) (Channel.__init__ 1))))
       /\ calls g' = [(7%nat, VInt 5); (7%nat, VInt 6)]
       /\ wire g' = []
       /\ registered g' 1 = Some (quiet_callback, Some VNone).
Proof.
  split.
  - apply (proj1 (proj2 (proj2 (proj2 (proj2 queue_xor_callback_invariant))))).
    cbn [all_allowed allowed]. repeat split.
    right. split; [|reflexivity].
    intros a ch Hch. cbn in Hch. rewrite lookup_empty in Hch. discriminate.
  - exact (proj2 (proj1 (proj2 queue_xor_callback_invariant)
                    two_waiting 0%nat
                    (Channel.put (Data (VInt 6))
                       (Channel.put (Data (VInt 5)) (Channel.__init__ 1)))
                    quiet_callback (Some VNone) eq_refl (fun _ => eq_refl))
             [Data (VInt 5); Data (VInt 6)] eq_refl).
Defined.

(** C8 fails on a channel whose callback raised.  [_local_receive] hands
    the error text, a [str], to [_local_close], which queues it in
    [_remoteerrors] and closes the channel.  When the last reference to
    that channel goes away, [__del__] calls [warn] on the [str] and raises
    [AttributeError]: the queued error is not written as a warning, and
    [stderr] stays as it was. *)
Lemma del_after_callback_error :
  channel_at after_callback_error 0
  = Some {| Channel.gateway_set := true; Channel.id := 1;
            Channel._items := None; Channel._closed := true;
            Channel._receiveclosed := true;
            Channel._remoteerrors := [VStr (str_of "ValueError: bad item")];
            Channel._executing := false |}
  /\ __del__ 0 after_callback_error
     = (raise (AttributeError "object has no attribute 'warn'"),
        after_callback_error)
  /\ stderr after_callback_error = []
  /\ stderr (snd (drop_last_reference 0 after_callback_error)) = []
  /\ wire (snd (drop_last_reference 0 after_callback_error))
     = wire after_callback_error.
Proof. repeat split; vm_compute; reflexivity. Qed.


(** C9: when a [STATUS] message is dispatched on a gateway that has its
    execution queue and a working transport, exactly one frame goes over
    the wire; it reads back as a [CHANNEL_DATA] message on the sender's
    channel id whose payload is a dict with exactly the keys [execqsize],
    [numchannels] and [numexecuting]; and the channel factory, with its
    channels, callbacks and counter, is left as it was, so no channel is
    allocated. *)
Theorem STATUS_reply (g : Gateway.t) (msg : Message.t)
    (execqueue : list (option (nat * value))) :
  _execqueue g = Some execqueue ->
  healthy g ->
  -2147483648 <= Message.channelid msg <= 2147483647 ->
  fits (length execqueue) = true ->
  fits (length (ChannelFactory.channels (_channelfactory g))) = true ->
  exists data g',
    STATUS_received msg g = (ret tt, g')
    /\ wire g' = wire g ++ [data]
    /\ deserialize data
       = ret (VTuple
                [ VInt (Message.msgtype Message.CHANNEL_DATA)
                ; VInt (Message.channelid msg)
                ; VDict
                    [ (VStr (str_of "execqsize"),
                       VInt (Z.of_nat (length execqueue)))
                    ; (VStr (str_of "numchannels"),
                       VInt (Z.of_nat (length (ChannelFactory.channels
                                                 (_channelfactory g)))))
                    ; (VStr (str_of "numexecuting"),
                       VInt (Z.of_nat (length (List.filter Channel._executing
                                                 (ChannelFactory.channels
                                                    (_channelfactory g)))))) ] ])
    /\ _channelfactory g' = _channelfactory g.
Proof.
  intros Hq [Hwos Hout] Hid Hfq Hfc.
  unfold STATUS_received, mbind, mget, ret. cbv beta iota zeta. rewrite Hq.
  set (n := length (ChannelFactory.channels (_channelfactory g))) in *.
  set (k := length (List.filter Channel._executing
                      (ChannelFactory.channels (_channelfactory g)))).
  assert (Hk : (k <= n)%nat) by apply List.filter_length_le.
  apply UnserializerFacts.fits_range in Hfq, Hfc.
  set (reply := Message.make Message.CHANNEL_DATA (Message.channelid msg) _).
  destruct (frame_roundtrip reply) as [data [Hser Hde]]; [exact Hid| |].
  { cbn [reply Message.make Message.data supported forallb map fst snd].
    unfold FOUR_BYTE_INT_MAX.
    destruct (Z.leb_spec (-2147483648) (Z.of_nat (length execqueue))); [|lia].
    destruct (Z.leb_spec (Z.of_nat (length execqueue)) 2147483647); [|lia].
    destruct (Z.leb_spec (-2147483648) (Z.of_nat n)); [|lia].
    destruct (Z.leb_spec (Z.of_nat n) 2147483647); [|lia].
    destruct (Z.leb_spec (-2147483648) (Z.of_nat k)); [|lia].
    destruct (Z.leb_spec (Z.of_nat k) 2147483647); [|lia].
    reflexivity. }
  destruct (_send_cases reply g Hwos) as [r [g1 (Hsend & Hsame & Hcase)]].
  rewrite Hser, Hout in Hcase. destruct Hcase as [-> Hw].
  exists data, g1. rewrite Hsend. split; [reflexivity|].
  split; [exact Hw|]. split; [exact Hde|]. exact (proj1 Hsame).
Qed.

Lemma STATUS_reply_witness :
  exists data g',
    STATUS_received (Message.make0 Message.STATUS 5) serving = (ret tt, g')
    /\ wire g' = wire serving ++ [data]
    /\ deserialize data
       = ret (VTuple
                [ VInt 2; VInt 5
                ; VDict [ (VStr (str_of "execqsize"), VInt 0)
                        ; (VStr (str_of "numchannels"), VInt 1)
                        ; (VStr (str_of "numexecuting"), VInt 0) ] ])
    /\ _channelfactory g' = _channelfactory serving.
Proof.
  apply (STATUS_reply serving (Message.make0 Message.STATUS 5) []).
  - reflexivity.
  - split; reflexivity.
  - cbn. lia.
  - reflexivity.
  - reflexivity.
Defined.

End ChannelClaims.

(** * Further properties of the transport and of the wire format *)

Module TransportExtras.
Import Popen2IO Popen2IOFacts.


Lemma nb_read_loop_spec (arrivals : nat -> nat) (numbytes : Z) (fuel : nat) :
  forall call buf io,
    (length (infile io) < fuel)%nat ->
    match NonBlocking.read_loop fuel arrivals call numbytes buf io with
    | (inr (Some buf'), io') =>
        exists got,
          buf' = buf ++ got /\ infile io = got ++ infile io'
          /\ numbytes <= Z.of_nat (length buf')
          /\ Z.of_nat (length buf')
             <= Z.max (Z.of_nat (length buf)) (2 * numbytes - 1)
    | (inr None, _) => False
    | (inl e, io') =>
        e = EOFError "expected more bytes"
        /\ exists got,
             infile io = got ++ infile io'
             /\ Z.of_nat (length (buf ++ got)) < numbytes
    end.
Proof.
  induction fuel as [|fuel IH]; intros call buf io Hfuel; [lia|].
  cbn [NonBlocking.read_loop].
  destruct (Z.ltb_spec (Z.of_nat (length buf)) numbytes) as [Hlt|Hge];
    cbn [negb].
  - unfold mbind at 1. unfold NonBlocking._read at 1. cbv beta iota zeta.
    set (k := Z.to_nat (Z.min numbytes
                 (Z.of_nat (Nat.min (arrivals call) (length (infile io)))))).
    assert (Hk : (k <= length (infile io))%nat) by (subst k; lia).
    assert (Hkn : Z.of_nat k <= numbytes) by (subst k; lia).
    destruct (take k (infile io)) as [|c data] eqn:Htake.
    + cbn. split; [reflexivity|]. exists []. rewrite app_nil_r.
      assert (k = 0%nat) as ->.
      { apply (f_equal length) in Htake. rewrite length_take in Htake.
        cbn in Htake. lia. }
      rewrite drop_0. cbn. split; [reflexivity|exact Hlt].
    + assert (Hlen : length (c :: data) = k).
      { rewrite <- Htake, length_take. lia. }
      unfold ret. cbv beta iota.
      specialize (IH (S call) (buf ++ c :: data)
                    (set_infile (drop k (infile io)) io)).
      cbn [infile set_infile] in IH.
      assert (Hdrop : (length (drop k (infile io)) < fuel)%nat).
      { rewrite length_drop. cbn [length] in Hlen. lia. }
      specialize (IH Hdrop).
      destruct (NonBlocking.read_loop fuel arrivals (S call) numbytes
                  (buf ++ c :: data) (set_infile (drop k (infile io)) io))
        as [[e|[buf'|]] io'].
      * destruct IH as [-> [got [Hin Hless]]]. split; [reflexivity|].
        exists ((c :: data) ++ got). split.
        -- rewrite <- app_assoc, <- Hin, <- Htake. symmetry. apply take_drop.
        -- rewrite app_assoc. exact Hless.
      * destruct IH as [got [-> [Hin [Hlo Hhi]]]].
        exists ((c :: data) ++ got). repeat split.
        -- rewrite app_assoc. reflexivity.
        -- rewrite <- app_assoc, <- Hin, <- Htake. symmetry. apply take_drop.
        -- exact Hlo.
        -- clearbody k. rewrite !length_app in *. cbn [length] in *. lia.
      * exact IH.
  - cbn. exists []. rewrite !app_nil_r. repeat split; lia.
Qed.

Lemma nb_read_loop_full (arrivals : nat -> nat) (numbytes : Z) (fuel : nat) :
  (forall call, numbytes <= Z.of_nat (arrivals call)) ->
  forall call buf io,
    NonBlocking.read_loop fuel arrivals call numbytes buf io
    = read_loop fuel numbytes buf io.
Proof.
  intros Hfull. induction fuel as [|fuel IH]; intros call buf io;
    cbn [NonBlocking.read_loop read_loop]; [reflexivity|].
  destruct (negb _); [reflexivity|].
  unfold mbind, NonBlocking._read, _read. cbv beta iota zeta.
  replace (Z.min numbytes
             (Z.of_nat (Nat.min (arrivals call) (length (infile io)))))
    with (Z.min numbytes (Z.of_nat (length (infile io))))
    by (specialize (Hfull call); lia).
  destruct (take _ (infile io)); [reflexivity|]. apply IH.
Qed.

(** On a stream that hands over less than was asked for, [read(numbytes)]
    still returns a prefix of the stream, but one of [numbytes] bytes or
    more, up to [2 * numbytes - 1]: each pass asks for [numbytes] bytes
    again, not for the bytes still missing.  It raises [EOFError] when a
    pass gets nothing.  When every pass finds [numbytes] bytes arrived the
    call is the blocking [read]. *)
Theorem read_short_reads (arrivals : nat -> nat) (numbytes : Z) (io : t) :
  match NonBlocking.read arrivals numbytes io with
  | (inr buf, io') =>
      infile io = buf ++ infile io'
      /\ Z.max 0 numbytes <= Z.of_nat (length buf)
           <= Z.max 0 (2 * numbytes - 1)
  | (inl e, io') =>
      e = EOFError "expected more bytes"
      /\ exists got,
           infile io = got ++ infile io'
           /\ Z.of_nat (length got) < numbytes
  end
  /\ ((forall call, numbytes <= Z.of_nat (arrivals call)) ->
      NonBlocking.read arrivals numbytes io = read numbytes io).
Proof.
  split.
  - unfold NonBlocking.read, mbind.
    pose proof (nb_read_loop_spec arrivals numbytes
                  (S (length (infile io))) 0 [] io (Nat.lt_succ_diag_r _)) as H.
    destruct (NonBlocking.read_loop _ arrivals 0 numbytes [] io)
      as [[e|[buf|]] io'].
    + exact H.
    + destruct H as [got [-> [Hin [Hlo Hhi]]]]. cbn in *.
      split; [exact Hin|lia].
    + destruct H.
  - intros Hfull. unfold NonBlocking.read, read.
    unfold mbind. rewrite nb_read_loop_full by exact Hfull. reflexivity.
Qed.

Lemma nb_read_loop_step (arrivals : nat -> nat) (numbytes : Z) (fuel : nat)
    (call : nat) (buf : list byte) (io : t) (c : byte) (data rest : list byte) :
  Z.of_nat (length buf) < numbytes ->
  infile io = (c :: data) ++ rest ->
  Z.to_nat (Z.min numbytes
              (Z.of_nat (Nat.min (arrivals call) (length (infile io)))))
  = length (c :: data) ->
  NonBlocking.read_loop (S fuel) arrivals call numbytes buf io
  = NonBlocking.read_loop fuel arrivals (S call) numbytes (buf ++ c :: data)
      (set_infile rest io).
Proof.
  intros Hlt Hin Hk. cbn [NonBlocking.read_loop].
  destruct (Z.ltb_spec (Z.of_nat (length buf)) numbytes); [|lia].
  cbn [negb]. unfold mbind at 1. unfold NonBlocking._read at 1.
  cbv beta iota zeta. rewrite Hk, Hin.
  rewrite take_app_length, drop_app_length. reflexivity.
Qed.

Lemma nb_read_loop_overread (m fuel : nat) :
  NonBlocking.read_loop (S (S fuel))
    (fun call => match call with O => 1%nat | _ => S (S m) end) 0
    (Z.of_nat (S (S m))) [] (set_infile (x00 :: repeat x00 (S (S m))) fresh_io)
  = (ret (Some (x00 :: repeat x00 (S (S m)))), set_infile [] fresh_io).
Proof.
  rewrite (nb_read_loop_step _ _ _ 0 [] _ x00 [] (repeat x00 (S (S m))));
    [|cbn [length]; lia|reflexivity
     |cbv beta iota; cbn [infile set_infile length];
      rewrite !repeat_length; lia].
  rewrite (nb_read_loop_step _ _ _ 1 [x00] _ x00 (repeat x00 (S m)) []);
    [|cbn [length]; lia|cbn [infile set_infile]; rewrite app_nil_r; reflexivity
     |cbv beta iota; cbn [infile set_infile length];
      rewrite !repeat_length; lia].
  assert (Hge : (Z.of_nat (length ([x00] ++ x00 :: repeat x00 (S m)))
                 <? Z.of_nat (S (S m))) = false).
  { apply Z.ltb_ge. cbn [length app]. rewrite repeat_length. lia. }
  destruct fuel; cbn [NonBlocking.read_loop app]; cbn [app] in Hge;
    rewrite Hge; reflexivity.
Qed.

(** The over-read happens: for every [numbytes] from 2 on there is a
    stream, and a way for its bytes to arrive, on which [read(numbytes)]
    returns more than [numbytes] bytes. *)
Theorem read_overreads (numbytes : Z) :
  2 <= numbytes ->
  exists arrivals io buf io',
    NonBlocking.read arrivals numbytes io = (ret buf, io')
    /\ numbytes < Z.of_nat (length buf).
Proof.
  intros Hn.
  assert (Hm : exists m, numbytes = Z.of_nat (S (S m))).
  { exists (Z.to_nat numbytes - 2)%nat. lia. }
  destruct Hm as [m ->].
  exists (fun call => match call with O => 1%nat | _ => S (S m) end),
    (set_infile (x00 :: repeat x00 (S (S m))) fresh_io),
    (x00 :: repeat x00 (S (S m))), (set_infile [] fresh_io).
  split.
  - unfold NonBlocking.read, mbind. cbn [infile set_infile length].
    rewrite nb_read_loop_overread. reflexivity.
  - cbn [length]. rewrite repeat_length. lia.
Qed.

Lemma read_overreads_witness :
  exists arrivals io buf io',
    NonBlocking.read arrivals 4 io = (ret buf, io')
    /\ 4 < Z.of_nat (length buf).
Proof. apply (read_overreads 4). lia. Defined.

End TransportExtras.

(** ** What [save] accepts *)

Module SaveDomain.
Import Serializer Spec Wire.
Import StructFacts SerializerFacts.















End SaveDomain.

(** ** Frames on a stream *)

Module Framing.
Import Serializer Unserializer Spec Wire.
Import Popen2IOFacts StructFacts SerializerFacts UnserializerFacts.
Import RoundTrip LoadFacts.

(** [load] after passes that end before a [STOP] with one value on the
    stack. *)
Lemma load_at_stop (u : Unserializer.t) (k : nat) (data rest : list byte)
    (st : list value) (v : value) (u' : Unserializer.t) :
  passes k (at_state u data []) = Some u' ->
  Popen2IO.infile (stream u') = opcode.STOP :: rest ->
  stack u' = [v] ->
  load (at_state u data st)
  = (ret v, at_state u' rest []).
Proof.
  intros Hk Hin Hst.
  assert (Hstop : load_step u' = (inl _Stop, at_state u' rest [v])).
  { rewrite <- (at_state_id u'), Hin, Hst.
    erewrite load_step_at by reflexivity. reflexivity. }
  rewrite (load_after_passes_result (at_state u data st) k u' _ _ Hk Hstop).
  reflexivity.
Qed.

(** Chunks that push [v], followed by [STOP] and by anything else: [load]
    returns [v] and stops reading right after the [STOP]. *)
Lemma load_frame (cs : list (list byte)) (v : value) :
  decodes cs v ->
  forall u rest st,
    load (at_state u ((concat cs ++ [opcode.STOP]) ++ rest) st)
    = (ret v, at_state u rest []).
Proof.
  intros Hd u rest st.
  destruct (Hd u (opcode.STOP :: rest) []) as [k Hk].
  rewrite <- app_assoc. cbn [app].
  rewrite (load_at_stop u k _ rest st v _ Hk eq_refl eq_refl).
  reflexivity.
Qed.

(** The frame that [save] writes for a supported value is read back by
    one [load], whatever follows it on the stream and whatever an earlier
    [load] left on the stack: [load] returns the value, has read the
    frame and not a byte more, and leaves an empty stack.  So values saved
    one after the other are loaded one after the other. *)
Theorem load_one_frame (v : value) :
  supported v = true ->
  exists data,
    serialize v = ret data
    /\ forall u rest st,
         load (at_state u (data ++ rest) st) = (ret v, at_state u rest []).
Proof.
  intros Hs. destruct (RT_supported v Hs) as [cs [Ha Hd]].
  exists (concat cs ++ [opcode.STOP]). split.
  - rewrite (serialize_spec _ _ _ Ha). reflexivity.
  - apply load_frame, Hd.
Qed.

Lemma load_one_frame_witness :
  exists data,
    serialize (VTuple [VInt 7; VStr [104%N; 105%N]]) = ret data
    /\ forall u rest st,
         load (at_state u (data ++ rest) st)
         = (ret (VTuple [VInt 7; VStr [104%N; 105%N]]), at_state u rest []).
Proof. apply (load_one_frame (VTuple [VInt 7; VStr [104%N; 105%N]])). reflexivity. Defined.

(** What a Python 2 peer writes for a [long] ([save_long]: the opcodes
    [LONG] and [LONGLONG]) is read here as the [int] of the same value. *)
Theorem save_long_loads_as_int (l : Z) :
  serializable (VInt l) = true ->
  exists cs,
    appends (save_long l) (ret tt) cs
    /\ forall u rest st,
         load (at_state u ((concat cs ++ [opcode.STOP]) ++ rest) st)
         = (ret (VInt l), at_state u rest []).
Proof.
  cbn [serializable]. intros [Hlo Hhi]%andb_prop.
  apply Z.leb_le in Hlo. unfold save_long, _save_integral.
  destruct (l <=? FOUR_BYTE_INT_MAX) eqn:Hle.
  - unfold FOUR_BYTE_INT_MAX in Hle. apply Z.leb_le in Hle.
    exists [[opcode.LONG]; int4 l]. split.
    + apply appends_op_then, appends__write_int4. lia.
    + apply load_frame. one_pass. unfold load_long, load_int.
      rewrite (mbind_ok _ _ _ _ _ (_read_int4_at u l rest st ltac:(lia))).
      reflexivity.
  - cbn [orb] in Hhi.
    exists [[opcode.LONGLONG];
            int4 (Z.of_nat (length (Codec.str_int_ascii l)));
            Codec.str_int_ascii l]. split.
    + apply appends_op_then, appends__write_byte_sequence, Hhi.
    + apply load_frame. one_pass. unfold load_longlong, load_longint.
      rewrite (mbind_ok _ _ _ _ _ (_read_byte_string_at u _ rest st Hhi)).
      rewrite CodecFacts.int_of_bytes_str. reflexivity.
Qed.

Lemma save_long_loads_as_int_witness :
  exists cs,
    appends (save_long 12345678901) (ret tt) cs
    /\ forall u rest st,
         load (at_state u ((concat cs ++ [opcode.STOP]) ++ rest) st)
         = (ret (VInt 12345678901), at_state u rest []).
Proof. apply (save_long_loads_as_int 12345678901). reflexivity. Defined.

(** The three string opcodes.  A [PY2STRING] (a Python 2 [str]) loads as
    text, decoded as latin-1, unless [py2str_as_py3str] is off, and then
    as [bytes].  A [PY3STRING] and a [UNICODE] load as the text that the
    bytes encode in UTF-8, whatever [py3str_as_py2str] says, and raise
    [UnicodeDecodeError] when the bytes are not UTF-8. *)
Theorem string_opcodes (u : Unserializer.t) (bs rest : list byte)
    (st : list value) :
  fits (length bs) = true ->
  let frame (op : byte) :=
    [op] ++ int4 (Z.of_nat (length bs)) ++ bs ++ opcode.STOP :: rest in
  load (at_state u (frame opcode.PY2STRING) st)
  = (ret (if py2str_as_py3str u then VStr (Codec.latin1_decode bs)
          else VBytes bs), at_state u rest [])
  /\ (forall op, op = opcode.PY3STRING \/ op = opcode.UNICODE ->
      load (at_state u (frame op) st)
      = match Codec.utf8_decode bs with
        | Some s => (ret (VStr s), at_state u rest [])
        | None => (raise (UnicodeDecodeError "'utf-8' codec can't decode"),
                   at_state u (opcode.STOP :: rest) [])
        end).
Proof.
  intros Hfit frame. subst frame. cbv beta. split.
  - apply (load_at_stop u 1 _ rest st _
             (at_state u (opcode.STOP :: rest)
                [if py2str_as_py3str u then VStr (Codec.latin1_decode bs)
                 else VBytes bs])); [|reflexivity|reflexivity].
    apply passes_one. cbn [app].
    erewrite load_step_at by reflexivity. cbn [snd call].
    unfold load_py2string.
    rewrite (mbind_ok _ _ _ _ _
               (_read_byte_string_at u bs (opcode.STOP :: rest) [] Hfit)).
    unfold mbind, mget. cbn [ISPY3 andb ret].
    change (py2str_as_py3str (at_state u (opcode.STOP :: rest) []))
      with (py2str_as_py3str u).
    destruct (py2str_as_py3str u); reflexivity.
  - intros op Hop.
    assert (Hstep : load_step (at_state u ([op] ++ int4 (Z.of_nat (length bs))
                                 ++ bs ++ opcode.STOP :: rest) [])
                    = match Codec.utf8_decode bs with
                      | Some s =>
                          (ret tt, at_state u (opcode.STOP :: rest) [VStr s])
                      | None =>
                          (raise (UnicodeDecodeError
                                    "'utf-8' codec can't decode"),
                           at_state u (opcode.STOP :: rest) [])
                      end).
    { cbn [app]. destruct Hop as [-> | ->];
        erewrite load_step_at by reflexivity; cbn [snd call];
        unfold load_py3string, load_unicode;
        rewrite (mbind_ok _ _ _ _ _
                   (_read_byte_string_at u bs (opcode.STOP :: rest) [] Hfit));
        unfold mbind, mget, decode_utf8; cbn [ISPY3 negb andb ret];
        destruct (Codec.utf8_decode bs); reflexivity. }
    destruct (Codec.utf8_decode bs) as [s|].
    + apply (load_at_stop u 1 _ rest st _
               (at_state u (opcode.STOP :: rest) [VStr s]));
        [apply passes_one; exact Hstep|reflexivity|reflexivity].
    + rewrite (load_after_passes_result
                 (at_state u ([op] ++ int4 (Z.of_nat (length bs))
                                ++ bs ++ opcode.STOP :: rest) st)
                 0 _ _ _ eq_refl Hstep).
      reflexivity.
Qed.

Lemma string_opcodes_witness :
  load (at_state (Unserializer.__init__ fresh_io None)
          ([opcode.PY2STRING] ++ int4 1 ++ [xe9] ++ [opcode.STOP]) [])
  = (ret (VStr [233%N]),
     at_state (Unserializer.__init__ fresh_io None) [] []).
Proof.
  apply (proj1 (string_opcodes (Unserializer.__init__ fresh_io None)
                  [xe9] [] [] eq_refl)).
Defined.

End Framing.

(** ** The channel factory *)


Module FactoryExtras.
Import ChannelFactory Protocol FactoryFacts.

(** [new(id)] on a factory that has finished receiving raises [IOError]
    and changes nothing.  Otherwise, for an id that the factory knows it
    returns the channel object that is already there and changes nothing;
    for an id it does not know it creates a channel object for that id
    (open, with an empty queue and no errors), enters it under the id, and
    leaves the counter, the callbacks and every other channel alone. *)
Theorem new_behaviour (id : Z) (cf : t) :
  (finished cf = true ->
   new (Some id) cf = (raise (IOError "connexion already closed"), cf))
  /\ (forall a, finished cf = false -> _channels cf !! id = Some a ->
      new (Some id) cf = (ret a, cf))
  /\ (finished cf = false -> _channels cf !! id = None ->
      exists cf',
        new (Some id) cf = (ret (next_object cf), cf')
        /\ objects cf' !! next_object cf = Some (Channel.__init__ id)
        /\ _channels cf' !! id = Some (next_object cf)
        /\ (forall j, j <> id -> _channels cf' !! j = _channels cf !! j)
        /\ (forall b, b <> next_object cf -> objects cf' !! b = objects cf !! b)
        /\ count cf' = count cf /\ _callbacks cf' = _callbacks cf
        /\ finished cf' = false).
Proof.
  rewrite new_spec. repeat split.
  - intros ->. reflexivity.
  - intros a -> Ha. cbv zeta. rewrite Ha. reflexivity.
  - intros Hf Hid. rewrite Hf. cbv zeta. rewrite Hid.
    eexists. split; [reflexivity|]. cbn.
    repeat split.
    + apply lookup_insert_eq.
    + apply lookup_insert_eq.
    + intros j Hj. apply lookup_insert_ne. congruence.
    + intros b Hb. apply lookup_insert_ne. congruence.
    + exact Hf.
Qed.

(** Fresh ids.  A factory starts tidy: every id of its own parity that
    is in use lies below the counter.  On a tidy factory that has not
    finished, [new()] takes the counter as the id, which no channel has,
    creates a channel object at an address that no object has, moves the
    counter on by 2, and the factory is tidy again; and [new(id)] for an
    id of the other parity, as the peer allocates them, keeps it tidy. *)
Theorem new_fresh (cf : t) :
  (forall startcount, tidy (__init__ startcount))
  /\ (tidy cf -> finished cf = false ->
      exists cf',
        new None cf = (ret (next_object cf), cf')
        /\ _channels cf !! count cf = None
        /\ objects cf !! next_object cf = None
        /\ objects cf' !! next_object cf = Some (Channel.__init__ (count cf))
        /\ _channels cf' !! count cf = Some (next_object cf)
        /\ count cf' = count cf + 2
        /\ (forall j, j <> count cf -> _channels cf' !! j = _channels cf !! j)
        /\ (forall b, b <> next_object cf -> objects cf' !! b = objects cf !! b)
        /\ tidy cf')
  /\ (forall id, tidy cf -> own_id cf id = false ->
      tidy (snd (new (Some id) cf))).
Proof.
  assert (Hnone : forall cf0 : t, tidy cf0 ->
            _channels cf0 !! count cf0 = None
            /\ objects cf0 !! next_object cf0 = None).
  { intros cf0 [Hids Haddr]. split.
    - destruct (_channels cf0 !! count cf0) as [a|] eqn:Ha; [|reflexivity].
      specialize (Hids _ _ Ha). unfold own_id in Hids.
      rewrite Z.sub_diag in Hids. specialize (Hids eq_refl). lia.
    - destruct (objects cf0 !! next_object cf0) as [ch|] eqn:Hch;
        [|reflexivity].
      specialize (Haddr _ _ Hch). lia. }
  split; [|split].
  - intros startcount. split.
    + intros id a H. unfold __init__ in H. cbn [_channels] in H.
      rewrite lookup_empty in H. discriminate.
    + intros a ch H. unfold __init__ in H. cbn [objects] in H.
      rewrite lookup_empty in H. discriminate.
  - intros Ht Hf. destruct (Hnone cf Ht) as [Hid Hob].
    rewrite new_spec, Hf. cbv zeta. cbn [_channels set_count]. rewrite Hid.
    eexists. split; [reflexivity|]. cbn.
    destruct Ht as [Hids Haddr].
    split; [reflexivity|]. split; [exact Hob|].
    split; [apply lookup_insert_eq|]. split; [apply lookup_insert_eq|].
    split; [reflexivity|].
    split; [intros j Hj; apply lookup_insert_ne; congruence|].
    split; [intros b Hb; apply lookup_insert_ne; congruence|].
    split.
    + intros id a. cbn. unfold own_id. cbn.
      destruct (decide (id = count cf)) as [->|Hne].
      * intros _ _. lia.
      * rewrite lookup_insert_ne by congruence. intros Ha Hown.
        specialize (Hids _ _ Ha). unfold own_id in Hids.
        assert (Hpar : ((id - count cf) mod 2 =? 0) = true).
        { apply Z.eqb_eq in Hown. apply Z.eqb_eq.
          replace (id - count cf) with (id - (count cf + 2) + 1 * 2) by lia.
          rewrite Z.mod_add by lia. exact Hown. }
        specialize (Hids Hpar). lia.
    + intros a ch. cbn.
      destruct (decide (a = next_object cf)) as [->|Hne]; [lia|].
      rewrite lookup_insert_ne by congruence. intros Hch.
      specialize (Haddr _ _ Hch). lia.
  - intros id [Hids Haddr] Hown. rewrite new_spec.
    destruct (finished cf); [split; assumption|]. cbv zeta.
    destruct (_channels cf !! id) as [a|] eqn:Ha; [split; assumption|].
    cbn [snd]. split.
    + intros j a. cbn. unfold own_id. cbn.
      destruct (decide (j = id)) as [->|Hne].
      * intros _ Hown'. unfold own_id in Hown. congruence.
      * rewrite lookup_insert_ne by congruence. apply Hids.
    + intros a ch. cbn.
      destruct (decide (a = next_object cf)) as [->|Hne]; [lia|].
      rewrite lookup_insert_ne by congruence. intros Hch.
      specialize (Haddr _ _ Hch). lia.
Qed.

Lemma new_fresh_witness :
  exists cf',
    new None (__init__ 1) = (ret 0%nat, cf')
    /\ _channels (__init__ 1) !! 1 = None
    /\ objects (__init__ 1) !! 0%nat = None
    /\ objects cf' !! 0%nat = Some (Channel.__init__ 1)
    /\ _channels cf' !! 1 = Some 0%nat
    /\ count cf' = 1 + 2
    /\ (forall j, j <> 1 -> _channels cf' !! j = _channels (__init__ 1) !! j)
    /\ (forall b, b <> 0%nat ->
        objects cf' !! b = objects (__init__ 1) !! b)
    /\ tidy cf'.
Proof.
  apply (proj1 (proj2 (new_fresh (__init__ 1)))).
  - apply (proj1 (new_fresh (__init__ 1))).
  - reflexivity.
Defined.

End FactoryExtras.

(** * Further properties of channels *)

Module FinalizerExtras.
Import Gateway Spec GatewayFacts ChannelFacts CloseFacts CallbackFacts.
Import Examples EndToEnd.

(** [error.warn()] for each of a list of errors that holds something else
    than a [RemoteError]: the warnings before it are written, and the call
    on it raises. *)
Lemma warn_until (fs : list value) (v : value) (rest : list value) :
  isinstance_RemoteError v = false ->
  forall g,
    (fix each (errors : list value) : M Gateway.t unit :=
       match errors with
       | [] => mret tt
       | error :: errors' => warn error;; each errors'
       end) (map VRemoteError fs ++ v :: rest) g
    = (raise (AttributeError "object has no attribute 'warn'"),
       set_stderr (stderr g ++ map Warning_unhandled fs) g).
Proof.
  intros Hv. induction fs as [|f fs IH]; intros g; cbn [map app].
  - rewrite app_nil_r. unfold mbind.
    destruct v; try discriminate; destruct g; reflexivity.
  - unfold warn at 1. unfold mbind at 1. unfold mmodify at 1.
    unfold ret. cbv beta iota. rewrite IH. cbn. rewrite <- app_assoc.
    reflexivity.
Qed.

(** When the last reference to a channel goes away, [__del__] does this.
    On an open channel (neither closed nor receive-closed), with a working
    transport, exactly one frame goes over the wire: it reads back as
    [(5, id, '')], a [CHANNEL_LAST_MESSAGE], if the channel has no queue
    (a callback was set), and as [(3, id, '')], a [CHANNEL_CLOSE],
    otherwise; with a transport that is closed or broken the error is
    swallowed and nothing is written.  On a closed channel nothing is sent;
    the queued [RemoteError]s are written, in order, as warnings to
    stderr, up to the first queued object that is not a [RemoteError], on
    which [__del__] raises [AttributeError].  On a send-only channel
    nothing happens.  Nothing else changes. *)
Theorem finalizer_behaviour (g : Gateway.t) (self : nat) (ch : Channel.t) :
  channel_at g self = Some ch ->
  Channel.gateway_set ch = true ->
  Serializer.WRITE_ON_SUCCESS (_serializer g) = true ->
  (Channel._closed ch = false -> Channel._receiveclosed ch = false ->
   -2147483648 <= Channel.id ch <= 2147483647 ->
   exists data g',
     deserialize data
     = ret (VTuple [VInt match Channel._items ch with
                         | None => 5
                         | Some _ => 3
                         end;
                    VInt (Channel.id ch); VStr []])
     /\ __del__ self g = (ret tt, g')
     /\ same_but_wire g g'
     /\ wire g' = match Popen2IO.outfile (_io g) with
                  | Popen2IO.FOpen => wire g ++ [data]
                  | _ => wire g
                  end)
  /\ (forall fs,
         Channel._closed ch = true ->
         Channel._remoteerrors ch = map VRemoteError fs ->
         __del__ self g
         = (ret tt, set_stderr (stderr g ++ map Warning_unhandled fs) g))
  /\ (forall fs v rest,
         Channel._closed ch = true ->
         Channel._remoteerrors ch = map VRemoteError fs ++ v :: rest ->
         isinstance_RemoteError v = false ->
         __del__ self g
         = (raise (AttributeError "object has no attribute 'warn'"),
            set_stderr (stderr g ++ map Warning_unhandled fs) g))
  /\ (Channel._closed ch = false -> Channel._receiveclosed ch = true ->
      __del__ self g = (ret tt, g)).
Proof.
  intros Hch Hgw Hwos. unfold __del__.
  rewrite (mbind_ok _ _ _ _ _ (get_channel_ok _ _ _ Hch)).
  rewrite Hgw. cbn [negb]. split; [|split; [|split]].
  - intros -> -> Hid.
    destruct (frame_roundtrip (del_message ch)) as [data [Hser Hde]];
      [unfold del_message; destruct (Channel._items ch); exact Hid
      |unfold del_message; destruct (Channel._items ch); reflexivity|].
    destruct (_send_cases (del_message ch) g Hwos)
      as [r [g1 (Hsend & Hsame & Hcase)]].
    rewrite Hser in Hcase.
    exists data, g1. split.
    { rewrite Hde. unfold del_message.
      destruct (Channel._items ch); reflexivity. }
    unfold del_message in Hsend. unfold Message.make0.
    change (Message.make
              match Channel._items ch with
              | Some _ => Message.CHANNEL_CLOSE
              | None => Message.CHANNEL_LAST_MESSAGE
              end (Channel.id ch) (VStr []))
      with (Message.make0
              match Channel._items ch with
              | Some _ => Message.CHANNEL_CLOSE
              | None => Message.CHANNEL_LAST_MESSAGE
              end (Channel.id ch)).
    rewrite Hsend.
    destruct (Popen2IO.outfile (_io g)); destruct Hcase as [-> Hw];
      cbn [is_IOError_or_ValueError]; auto.
  - intros fs -> ->. apply warn_each.
  - intros fs v rest -> -> Hv. apply warn_until, Hv.
  - intros -> ->. reflexivity.
Qed.

Lemma finalizer_behaviour_witness :
  (exists data g',
      deserialize data = ret (VTuple [VInt 3; VInt 1; VStr []])
      /\ __del__ 0 one_channel = (ret tt, g')
      /\ same_but_wire one_channel g'
      /\ wire g' = [] ++ [data])
  /\ (exists data g',
         deserialize data = ret (VTuple [VInt 5; VInt 1; VStr []])
         /\ __del__ 0 (snd (setcallback 0 quiet_callback None one_channel))
            = (ret tt, g')
         /\ same_but_wire
              (snd (setcallback 0 quiet_callback None one_channel)) g'
         /\ wire g' = [] ++ [data])
  /\ __del__ 0 after_callback_error
     = (raise (AttributeError "object has no attribute 'warn'"),
        set_stderr (stderr after_callback_error ++ map Warning_unhandled [])
          after_callback_error).
Proof.
  split; [|split].
  - exact (proj1 (finalizer_behaviour one_channel 0 (Channel.__init__ 1)
                    eq_refl eq_refl eq_refl)
             eq_refl eq_refl ltac:(cbn; lia)).
  - exact (proj1 (finalizer_behaviour
                    (snd (setcallback 0 quiet_callback None one_channel)) 0
                    (Channel.set__items None (Channel.__init__ 1))
                    eq_refl eq_refl eq_refl)
             eq_refl eq_refl ltac:(cbn; lia)).
  - exact (proj1 (proj2 (proj2
             (finalizer_behaviour after_callback_error 0
                {| Channel.gateway_set := true; Channel.id := 1;
                   Channel._items := None; Channel._closed := true;
                   Channel._receiveclosed := true;
                   Channel._remoteerrors :=
                     [VStr (str_of "ValueError: bad item")];
                   Channel._executing := false |}
                eq_refl eq_refl eq_refl)))
             [] (VStr (str_of "ValueError: bad item")) [] eq_refl eq_refl
             eq_refl).
Defined.

End FinalizerExtras.

(** ** Messages on the wire *)

Module MessageExtras.
Import Serializer Unserializer Spec Wire MessageIO.
Import SerializerFacts UnserializerFacts RoundTrip LoadFacts Framing.

Lemma supported_as_tuple (msg : Message.t) :
  -2147483648 <= Message.channelid msg <= 2147483647 ->
  supported (Message.data msg) = true ->
  supported (Message.as_tuple msg) = true.
Proof.
  intros Hid Hdata. unfold Message.as_tuple. cbn [supported forallb length].
  unfold fits, FOUR_BYTE_INT_MAX. rewrite Hdata.
  destruct (Z.leb_spec (-2147483648) (Message.channelid msg)); [|lia].
  destruct (Z.leb_spec (Message.channelid msg) 2147483647); [|lia].
  destruct (Message.class msg); reflexivity.
Qed.

Lemma _types_msgtype (c : Message.cls) :
  _types (VInt (Message.msgtype c)) = ret c.
Proof. destruct c; vm_compute; reflexivity. Qed.

(** A message goes over the wire and comes back.  [writeto] hands the
    transport one frame, in one write; and [readfrom], on a stream that
    starts with this frame, returns the message of the same class, with
    the same channel id and the same data, having read the frame and not a
    byte more. *)
Theorem writeto_readfrom (msg : Message.t) (s : Serializer.t) :
  -2147483648 <= Message.channelid msg <= 2147483647 ->
  supported (Message.data msg) = true ->
  WRITE_ON_SUCCESS s = true ->
  Popen2IO.outfile (_stream s) = Popen2IO.FOpen ->
  exists data s',
    Message.writeto msg s = (ret tt, s')
    /\ Popen2IO.written (_stream s')
       = Popen2IO.written (_stream s) ++ [data]
    /\ forall u rest st,
         readfrom (at_state u (data ++ rest) st)
         = (ret (Some (delivered msg)), at_state u rest []).
Proof.
  intros Hid Hdata Hwos Hopen.
  destruct (RT_supported _ (supported_as_tuple msg Hid Hdata))
    as [cs [Ha Hd]].
  exists (concat cs ++ [opcode.STOP]). eexists. split; [|split].
  - unfold Message.writeto. rewrite (save_spec _ _ _ _ Ha Hwos).
    cbv zeta. unfold Popen2IO.write. rewrite Hopen.
    rewrite concat_app. cbn [concat]. rewrite app_nil_r. reflexivity.
  - reflexivity.
  - intros u rest st. unfold readfrom.
    rewrite (mbind_ok _ _ _ _ _ (load_frame cs _ Hd u rest st)).
    unfold Message.as_tuple. cbn [iterate].
    unfold mlift, mbind. rewrite _types_msgtype. reflexivity.
Qed.

Lemma writeto_readfrom_witness :
  exists data s',
    Message.writeto (Message.make Message.CHANNEL_DATA 3 (VList [VInt 1]))
      (Serializer.__init__ fresh_io) = (ret tt, s')
    /\ Popen2IO.written (_stream s')
       = Popen2IO.written (_stream (Serializer.__init__ fresh_io)) ++ [data]
    /\ forall u rest st,
         readfrom (at_state u (data ++ rest) st)
         = (ret (Some (delivered
                         (Message.make Message.CHANNEL_DATA 3
                            (VList [VInt 1])))),
            at_state u rest []).
Proof.
  apply (writeto_readfrom
           (Message.make Message.CHANNEL_DATA 3 (VList [VInt 1]))
           (Serializer.__init__ fresh_io));
    [cbn; lia|reflexivity|reflexivity|reflexivity].
Defined.

End MessageExtras.

(** ** Sending, receiving in order, and the remote end's close *)

Module ChannelExtras.
Import Gateway Spec Wire Ops Iteration.
Import GatewayFacts ChannelFacts CloseFacts SerializerFacts SaveDomain.


Lemma set_channel_same self ch g :
  channel_at g self = Some ch -> set_channel self ch g = g.
Proof.
  intros Hch. unfold set_channel, on_factory.
  destruct g as [? [] ? ? ? ?]. cbn. unfold channel_at in Hch. cbn in Hch.
  rewrite insert_id by exact Hch. reflexivity.
Qed.



(** *** Items arrive in the order sent *)

Lemma runs_app (os os' : list op) : forall g,
  runs (os ++ os') g = runs os' (runs os g).
Proof.
  induction os as [|o os IH]; intros g; [reflexivity|]. cbn. apply IH.
Qed.

Lemma _local_receive_queue id d e g a ch :
  registered g id = None -> routed g id = Some a ->
  channel_at g a = Some ch ->
  _local_receive id d e g
  = (ret tt, set_channel a (Channel.put (Data d) ch) g).
Proof.
  unfold registered, routed. intros Hreg Hrt Hch.
  unfold _local_receive, mbind, mget, ret. cbv beta iota.
  rewrite Hreg, Hrt. apply modify_channel_ok, Hch.
Qed.

Lemma deliveries id e a (ds : list value) : forall g ch q,
  registered g id = None -> routed g id = Some a ->
  channel_at g a = Some ch -> Channel._items ch = Some q ->
  runs (map (fun d => LocalReceive id d e) ds) g
  = set_channel a (Channel.set__items (Some (q ++ map Data ds)) ch) g.
Proof.
  induction ds as [|d ds IH]; intros g ch q Hreg Hrt Hch Hq.
  - cbn. rewrite app_nil_r. symmetry. apply set_channel_same.
    rewrite Hch. destruct ch. cbn in Hq. subst. reflexivity.
  - cbn [map runs run].
    rewrite (_local_receive_queue _ _ _ _ _ _ Hreg Hrt Hch). cbn [snd].
    rewrite (IH _ (Channel.put (Data d) ch) (q ++ [Data d])); trivial.
    + rewrite set_channel_set_channel. unfold Channel.put. rewrite Hq.
      rewrite <- app_assoc. reflexivity.
    + apply channel_at_set_channel.
    + unfold Channel.put. rewrite Hq. reflexivity.
Qed.

(** A close that comes from the other side, for an id that the factory
    routes. *)
Lemma _local_close_routed id remoteerror a ch g :
  routed g id = Some a -> channel_at g a = Some ch ->
  exists g',
    _local_close id remoteerror false g
    = (endmarker_result (registered g id), g')
    /\ channel_at g' a
       = Some (Channel.put ENDMARKER
                 (Channel.set__receiveclosed true
                    (Channel.set__closed true
                       (if truthy remoteerror
                        then Channel.set__remoteerrors
                               (Channel._remoteerrors ch ++ [remoteerror]) ch
                        else ch))))
    /\ routed g' id = None /\ registered g' id = None
    /\ wire g' = wire g /\ _error g' = _error g.
Proof.
  intros Hrt Hch. unfold _local_close.
  unfold mbind at 1. unfold mget at 1. unfold ret at 1. cbv beta iota.
  unfold routed in Hrt. rewrite Hrt.
  set (ch1 := if truthy remoteerror
              then Channel.set__remoteerrors
                     (Channel._remoteerrors ch ++ [remoteerror]) ch
              else ch).
  assert (H1 : (if truthy remoteerror
                then modify_channel a (fun ch =>
                       Channel.set__remoteerrors
                         (Channel._remoteerrors ch ++ [remoteerror]) ch)
                else mret tt) g = (ret tt, set_channel a ch1 g)).
  { unfold ch1. destruct (truthy remoteerror).
    - exact (modify_channel_ok a
               (fun c => Channel.set__remoteerrors
                           (Channel._remoteerrors c ++ [remoteerror]) c)
               g ch Hch).
    - unfold mret. rewrite (set_channel_same _ _ _ Hch). reflexivity. }
  cbn [negb].
  set (ch2 := Channel.put ENDMARKER
                (Channel.set__receiveclosed true
                   (Channel.set__closed true ch1))).
  assert (Hin : ((if truthy remoteerror
                  then modify_channel a (fun ch =>
                         Channel.set__remoteerrors
                           (Channel._remoteerrors ch ++ [remoteerror]) ch)
                  else mret tt);;
                 modify_channel a (Channel.set__closed true);;
                 modify_channel a (Channel.set__receiveclosed true);;
                 modify_channel a (Channel.put ENDMARKER)) g
                = (ret tt, set_channel a ch2 g)).
  { rewrite (mbind_ok _ _ _ _ _ H1).
    rewrite (mbind_ok _ _ _ _ _
               (modify_channel_ok _ _ _ _ (channel_at_set_channel _ _ _))).
    rewrite set_channel_set_channel.
    rewrite (mbind_ok _ _ _ _ _
               (modify_channel_ok _ _ _ _ (channel_at_set_channel _ _ _))).
    rewrite set_channel_set_channel.
    rewrite (modify_channel_ok _ _ _ _ (channel_at_set_channel _ _ _)).
    rewrite set_channel_set_channel. reflexivity. }
  rewrite (mbind_ok _ _ _ _ _ Hin).
  destruct (_no_longer_opened_spec id (set_channel a ch2 g))
    as [g' (Hr & Hrt' & Hrg & _ & _ & Hobj & Hw & _ & _ & _ & He & _)].
  exists g'. rewrite Hr, Hrt', Hrg, Hobj, Hw, He.
  rewrite channel_at_set_channel. repeat split; reflexivity.
Qed.

(** [receive] takes the item at the head of the queue. *)
Lemma receive_item a ch x q t g :
  channel_at g a = Some ch -> Channel._items ch = Some (Data x :: q) ->
  receive a t g
  = (ret (Item x), set_channel a (Channel.set__items (Some q) ch) g).
Proof.
  intros Hch Hq. unfold receive.
  rewrite (mbind_ok _ _ _ _ _ (get_channel_ok _ _ _ Hch)). rewrite Hq.
  rewrite (mbind_ok _ _ _ _ _ (modify_channel_ok _ _ _ _ Hch)).
  reflexivity.
Qed.

(** [receive] at the end-marker: the marker goes back into the queue, and
    what is raised is the oldest remote error, the receiver's [EOFError],
    or a plain [EOFError]. *)
Lemma receive_endmarker a ch q t g :
  channel_at g a = Some ch -> Channel._items ch = Some (ENDMARKER :: q) ->
  receive a t g
  = match Channel._remoteerrors ch with
    | e :: rest =>
        (raise (raise_or_EOFError (Some (ErrValue e))),
         set_channel a
           (Channel.set__remoteerrors rest
              (Channel.set__items (Some (q ++ [ENDMARKER])) ch)) g)
    | [] =>
        (raise (raise_or_EOFError
                  (match _error g with
                   | Some msg => Some (ErrExn (EOFError msg))
                   | None => None
                   end)),
         set_channel a (Channel.set__items (Some (q ++ [ENDMARKER])) ch) g)
    end.
Proof.
  intros Hch Hq. unfold receive.
  rewrite (mbind_ok _ _ _ _ _ (get_channel_ok _ _ _ Hch)). rewrite Hq.
  rewrite (mbind_ok _ _ _ _ _ (modify_channel_ok _ _ _ _ Hch)).
  rewrite (mbind_ok _ _ _ _ _
             (modify_channel_ok _ _ _ _ (channel_at_set_channel _ _ _))).
  rewrite set_channel_set_channel.
  unfold _getremoteerror.
  unfold mbind at 1.
  rewrite (mbind_ok _ _ _ _ _
             (get_channel_ok _ _ _ (channel_at_set_channel _ _ _))).
  destruct ch as [gs cid items closed rc errs exe]. cbn in Hq. subst items.
  unfold Channel.put. cbn [Channel._items Channel.set__items
    Channel._remoteerrors].
  destruct errs as [|e rest].
  - unfold mbind, mget, mret, mraise, ret. cbv beta iota.
    change (_error (set_channel a _ g)) with (_error g).
    destruct (_error g); reflexivity.
  - rewrite (mbind_ok _ _ _ _ _
               (modify_channel_ok _ _ _ _ (channel_at_set_channel _ _ _))).
    rewrite set_channel_set_channel. reflexivity.
Qed.

Lemma list_channel_queue a (ds : list value) : forall g ch acc,
  channel_at g a = Some ch ->
  Channel._items ch = Some (map Data ds ++ [ENDMARKER]) ->
  Channel._remoteerrors ch = [] -> _error g = None ->
  list_channel (S (length ds)) a acc g
  = (ret (Listed (acc ++ ds)),
     set_channel a (Channel.set__items (Some [ENDMARKER]) ch) g).
Proof.
  induction ds as [|d ds IH]; intros g ch acc Hch Hq Herrs Herr.
  - cbn [length list_channel]. unfold mbind, next.
    rewrite (receive_endmarker _ _ _ _ _ Hch Hq), Herrs, Herr.
    rewrite app_nil_r. reflexivity.
  - cbn [length]. change (list_channel (S (S (length ds))) a acc)
      with (let* s := next a in
            match s with
            | Next x => list_channel (S (length ds)) a (acc ++ [x])
            | StopIteration => mret (Listed acc)
            | Blocks => mret (BlocksAfter acc)
            end).
    unfold mbind at 1. unfold next at 1.
    rewrite (receive_item _ _ _ _ _ _ Hch Hq).
    unfold ret. cbv beta iota.
    rewrite (IH _ (Channel.set__items (Some (map Data ds ++ [ENDMARKER])) ch)
               (acc ++ [d])); trivial.
    + rewrite set_channel_set_channel, <- app_assoc. reflexivity.
    + apply channel_at_set_channel.
Qed.

(** Iterating over a channel gives the items in the order in which they
    arrived.  On an open channel with an empty queue and no callback, let
    the receiver dispatch [CHANNEL_DATA] for the items [ds], one after the
    other, and then [CHANNEL_CLOSE]: [list(channel)] returns [ds]; [next]
    after that raises [StopIteration] every time and changes nothing;
    [send] raises [IOError]; the factory has forgotten the id; and nothing
    went over the wire. *)
Theorem iteration_fifo (g : Gateway.t) (a : nat) (ch : Channel.t)
    (ds : list value) (errortext item : value) :
  channel_at g a = Some ch ->
  routed g (Channel.id ch) = Some a ->
  registered g (Channel.id ch) = None ->
  Channel._items ch = Some [] ->
  Channel._remoteerrors ch = [] ->
  _error g = None ->
  exists g2,
    list_channel (S (length ds)) a []
      (runs (map (fun d => LocalReceive (Channel.id ch) d errortext) ds
             ++ [LocalClose (Channel.id ch) VNone false]) g)
    = (ret (Listed ds), g2)
    /\ next a g2 = (ret StopIteration, g2)
    /\ send a item g2 = (raise (IOError "cannot send to closed channel"), g2)
    /\ routed g2 (Channel.id ch) = None
    /\ wire g2 = wire g.
Proof.
  intros Hch Hrt Hreg Hq Herrs Herr.
  rewrite runs_app.
  rewrite (deliveries _ _ _ ds g ch [] Hreg Hrt Hch Hq). cbn [app].
  set (ch1 := Channel.set__items (Some (map Data ds)) ch).
  cbn [runs run].
  destruct (_local_close_routed (Channel.id ch) VNone a ch1
              (set_channel a ch1 g) Hrt (channel_at_set_channel _ _ _))
    as [g1 (Hrun & Hch1 & Hrt1 & Hreg1 & Hw1 & He1)].
  rewrite Hrun. cbn [snd]. cbn [truthy] in Hch1.
  rewrite (list_channel_queue a ds g1 _ [] Hch1);
    [|reflexivity|exact Herrs|rewrite He1; exact Herr].
  eexists. split; [reflexivity|].
  destruct ch as [gs cid items closed rc errs exe].
  cbn in Hq, Herrs. subst items errs. unfold ch1 in *. clear ch1.
  unfold Channel.put in *.
  cbn [Channel._items Channel.set__items Channel.set__closed
       Channel.set__receiveclosed Channel._closed Channel._receiveclosed
       Channel._remoteerrors Channel.gateway_set Channel.id
       Channel._executing] in *.
  match goal with
  | |- context [set_channel a ?c g1] => set (ch3 := c)
  end.
  assert (Hch3 : channel_at (set_channel a ch3 g1) a = Some ch3)
    by apply channel_at_set_channel.
  split; [|split; [|split]].
  - unfold next.
    rewrite (receive_endmarker a ch3 [] (-1) _ Hch3 eq_refl).
    cbn [Channel._remoteerrors ch3].
    change (_error (set_channel a ch3 g1)) with (_error g1).
    rewrite He1. change (_error (set_channel a _ g)) with (_error g).
    rewrite Herr. rewrite set_channel_set_channel. reflexivity.
  - unfold send.
    rewrite (mbind_ok _ _ _ _ _ (get_channel_ok _ _ _ Hch3)). reflexivity.
  - exact Hrt1.
  - exact Hw1.
Qed.

Lemma iteration_fifo_witness :
  exists g2,
    list_channel 3 0 []
      (runs [LocalReceive 1 (VInt 5) VNone; LocalReceive 1 (VInt 6) VNone;
             LocalClose 1 VNone false] Examples.one_channel)
    = (ret (Listed [VInt 5; VInt 6]), g2)
    /\ next 0 g2 = (ret StopIteration, g2)
    /\ send 0 (VInt 9) g2
       = (raise (IOError "cannot send to closed channel"), g2)
    /\ routed g2 1 = None
    /\ wire g2 = wire Examples.one_channel.
Proof.
  exact (iteration_fifo Examples.one_channel 0 (Channel.__init__ 1)
           [VInt 5; VInt 6] VNone (VInt 9)
           eq_refl eq_refl eq_refl eq_refl eq_refl eq_refl).
Defined.

(** *** The remote end closes with an error *)

(** A [CHANNEL_CLOSE_ERROR] message for an open channel with an empty
    queue and no callback hands its error to the reader once.  After the
    message was dispatched, the first [receive] raises the [RemoteError]
    made of the message's data, and every [receive] after that raises
    [EOFError]; [waitclose], called in place of the first [receive],
    raises the same [RemoteError], and called after it returns. *)
Theorem remote_error_once (g : Gateway.t) (a : nat) (ch : Channel.t)
    (msg : Message.t) (t : Z) (timeout : option Z) :
  channel_at g a = Some ch ->
  routed g (Message.channelid msg) = Some a ->
  registered g (Message.channelid msg) = None ->
  Channel._items ch = Some [] ->
  Channel._remoteerrors ch = [] ->
  _error g = None ->
  exists g1 g2,
    CHANNEL_CLOSE_ERROR_received msg g = (ret tt, g1)
    /\ receive a t g1
       = (raise (Raised (VRemoteError (Message.data msg))), g2)
    /\ receive a t g2 = (raise (EOFError ""), g2)
    /\ waitclose a timeout g1
       = (raise (Raised (VRemoteError (Message.data msg))), g2)
    /\ waitclose a timeout g2 = (ret (Item VNone), g2).
Proof.
  intros Hch Hrt Hreg Hq Herrs Herr.
  unfold CHANNEL_CLOSE_ERROR_received.
  destruct (_local_close_routed (Message.channelid msg)
              (VRemoteError (Message.data msg)) a ch g Hrt Hch)
    as [g1 (Hrun & Hch1 & _ & _ & _ & He1)].
  rewrite Hreg in Hrun. cbn [endmarker_result truthy] in Hrun, Hch1.
  destruct ch as [gs cid items closed rc errs exe].
  cbn in Hq, Herrs. subst items errs.
  cbv [Channel.put Channel._items Channel.set__items Channel.set__closed
       Channel.set__receiveclosed Channel._closed Channel._receiveclosed
       Channel._remoteerrors Channel.set__remoteerrors Channel.gateway_set
       Channel.id Channel._executing app] in Hch1.
  exists g1. eexists. split; [exact Hrun|].
  split; [|split; [|split]].
  - rewrite (receive_endmarker a _ [] t g1 Hch1 eq_refl).
    cbn [Channel._remoteerrors raise_or_EOFError truthy
         isinstance_RemoteError Channel.set__items Channel.set__remoteerrors
         Channel._items Channel._closed Channel._receiveclosed
         Channel.gateway_set Channel.id Channel._executing app].
    reflexivity.
  - match goal with
    | |- context [set_channel a ?c g1] => set (ch2 := c)
    end.
    rewrite (receive_endmarker a ch2 [] t _
               (channel_at_set_channel _ _ _) eq_refl).
    cbn [Channel._remoteerrors ch2].
    change (_error (set_channel a ch2 g1)) with (_error g1).
    rewrite He1, Herr. rewrite set_channel_set_channel. reflexivity.
  - unfold waitclose.
    rewrite (mbind_ok _ _ _ _ _ (get_channel_ok _ _ _ Hch1)).
    cbn [Channel._receiveclosed negb].
    unfold _getremoteerror. unfold mbind at 1.
    rewrite (mbind_ok _ _ _ _ _ (get_channel_ok _ _ _ Hch1)).
    cbn [Channel._remoteerrors].
    rewrite (mbind_ok _ _ _ _ _ (modify_channel_ok _ _ _ _ Hch1)).
    reflexivity.
  - match goal with
    | |- context [set_channel a ?c g1] => set (ch2 := c)
    end.
    unfold waitclose.
    rewrite (mbind_ok _ _ _ _ _
               (get_channel_ok _ _ _ (channel_at_set_channel _ _ _))).
    assert (Hrc : Channel._receiveclosed ch2 = true) by reflexivity.
    assert (Hre : Channel._remoteerrors ch2 = []) by reflexivity.
    rewrite Hrc. cbn [negb].
    unfold _getremoteerror. unfold mbind at 1.
    rewrite (mbind_ok _ _ _ _ _
               (get_channel_ok _ _ _ (channel_at_set_channel _ _ _))).
    rewrite Hre.
    unfold mbind, mget, mret, ret. cbv beta iota.
    change (_error (set_channel a ch2 g1)) with (_error g1).
    rewrite He1, Herr. reflexivity.
Qed.

Lemma remote_error_once_witness :
  exists g1 g2,
    CHANNEL_CLOSE_ERROR_received
      (Message.make Message.CHANNEL_CLOSE_ERROR 1 (VStr (str_of "boom")))
      Examples.one_channel = (ret tt, g1)
    /\ receive 0 (-1) g1
       = (raise (Raised (VRemoteError (VStr (str_of "boom")))), g2)
    /\ receive 0 (-1) g2 = (raise (EOFError ""), g2)
    /\ waitclose 0 None g1
       = (raise (Raised (VRemoteError (VStr (str_of "boom")))), g2)
    /\ waitclose 0 None g2 = (ret (Item VNone), g2).
Proof.
  exact (remote_error_once Examples.one_channel 0 (Channel.__init__ 1)
           (Message.make Message.CHANNEL_CLOSE_ERROR 1 (VStr (str_of "boom")))
           (-1) None eq_refl eq_refl eq_refl eq_refl eq_refl eq_refl).
Defined.

(** *** A gateway that does not execute code *)

(** [CHANNEL_EXEC] on a [BaseGateway].  For an id that the factory does
    not know, on a gateway that still receives and whose transport takes
    writes, the message creates the channel and closes it at once: one
    frame goes out, which reads back as
    [(4, id, "execution disallowed")], a [CHANNEL_CLOSE_ERROR]; the new
    channel object is closed, with the end-marker in its queue and no
    remote error; and the factory does not route the id any more. *)
Theorem exec_disallowed (g : Gateway.t) (msg : Message.t) :
  healthy g ->
  ChannelFactory.finished (_channelfactory g) = false ->
  routed g (Message.channelid msg) = None ->
  registered g (Message.channelid msg) = None ->
  -2147483648 <= Message.channelid msg <= 2147483647 ->
  exists data g',
    CHANNEL_EXEC_received msg g = (ret tt, g')
    /\ wire g' = wire g ++ [data]
    /\ deserialize data
       = ret (VTuple [VInt 4; VInt (Message.channelid msg);
                      VStr (str_of "execution disallowed")])
    /\ channel_at g' (ChannelFactory.next_object (_channelfactory g))
       = Some {| Channel.gateway_set := true;
                 Channel.id := Message.channelid msg;
                 Channel._items := Some [ENDMARKER];
                 Channel._closed := true;
                 Channel._receiveclosed := true;
                 Channel._remoteerrors := [];
                 Channel._executing := false |}
    /\ routed g' (Message.channelid msg) = None.
Proof.
  intros [Hwos Hopen] Hfin Hrt Hreg Hid.
  set (id := Message.channelid msg) in *.
  set (a := ChannelFactory.next_object (_channelfactory g)).
  unfold CHANNEL_EXEC_received, _local_schedulexec.
  unfold mbind at 1. unfold factory_new.
  rewrite FactoryFacts.new_spec, Hfin. cbv zeta.
  unfold routed in Hrt. fold id. rewrite Hrt. unfold ret at 1.
  cbv beta iota.
  match goal with
  | |- context [close _ _ ?s] => set (g1 := s)
  end.
  assert (Hch1 : channel_at g1 a = Some (Channel.__init__ id)).
  { unfold channel_at, g1. cbn. apply lookup_insert_eq. }
  set (err := VStr (str_of "execution disallowed")).
  set (reply := Message.make Message.CHANNEL_CLOSE_ERROR id err).
  destruct (frame_roundtrip reply Hid eq_refl) as [data [Hs Hd]].
  destruct (_send_cases reply g1 Hwos) as [r [g2 [Hsend [Hsame Hcase]]]].
  rewrite Hs in Hcase.
  change (Popen2IO.outfile (_io g1)) with (Popen2IO.outfile (_io g)) in Hcase.
  rewrite Hopen in Hcase. destruct Hcase as [-> Hw].
  assert (Hch2 : channel_at g2 a = Some (Channel.__init__ id)).
  { unfold channel_at. rewrite (proj1 Hsame). exact Hch1. }
  destruct (close_tail a (Channel.__init__ id) err g2 Hch2)
    as [g3 (Htail & Hch3 & Hrt3 & _ & Hw3 & _)].
  assert (Hreg2 : registered g2 id = None).
  { unfold registered. rewrite (proj1 Hsame). exact Hreg. }
  cbn [Channel.id Channel.__init__] in Htail, Hrt3.
  rewrite Hreg2 in Htail. cbn [endmarker_result] in Htail.
  exists data, g3. split; [|split; [|split; [|split]]].
  - unfold close.
    rewrite (mbind_ok _ _ _ _ _ (get_channel_ok _ _ _ Hch1)).
    cbn [Channel._executing Channel._closed Channel._receiveclosed
         Channel.__init__ negb Channel.id].
    fold err.
    change (match err with
            | VNone => _send (Message.make0 Message.CHANNEL_CLOSE id)
            | _ => _send (Message.make Message.CHANNEL_CLOSE_ERROR id err)
            end) with (_send reply).
    rewrite (mbind_ok _ _ _ _ _ Hsend). exact Htail.
  - rewrite Hw3, Hw. reflexivity.
  - exact Hd.
  - rewrite Hch3. reflexivity.
  - exact Hrt3.
Qed.

Lemma exec_disallowed_witness :
  exists data g',
    CHANNEL_EXEC_received
      (Message.make Message.CHANNEL_EXEC 2 (VStr (str_of "pass")))
      (Gateway.__init__ fresh_io 1) = (ret tt, g')
    /\ wire g' = wire (Gateway.__init__ fresh_io 1) ++ [data]
    /\ deserialize data
       = ret (VTuple [VInt 4; VInt 2; VStr (str_of "execution disallowed")])
    /\ channel_at g' 0
       = Some {| Channel.gateway_set := true; Channel.id := 2;
                 Channel._items := Some [ENDMARKER];
                 Channel._closed := true;
                 Channel._receiveclosed := true;
                 Channel._remoteerrors := [];
                 Channel._executing := false |}
    /\ routed g' 2 = None.
Proof.
  exact (exec_disallowed (Gateway.__init__ fresh_io 1)
           (Message.make Message.CHANNEL_EXEC 2 (VStr (str_of "pass")))
           (conj eq_refl eq_refl) eq_refl eq_refl eq_refl ltac:(cbn; lia)).
Defined.

(** *** Where an incoming item goes *)

(** [_local_receive] hands an item to the callback registered for the id,
    whether or not a channel object still lives, and leaves the queue
    alone; without a callback the item goes to the end of the queue of the
    channel that the factory routes the id to ([Channel.put] drops it
    when that channel has no queue); and with neither callback nor
    channel the item is dropped. *)
Theorem data_dispatch (g : Gateway.t) (id : Z) (data errortext : value) :
  (forall cb em,
      registered g id = Some (cb, em) -> cb_raises cb data = false ->
      _local_receive id data errortext g
      = (ret tt, set_calls (calls g ++ [(cb_id cb, data)]) g))
  /\ (forall a ch,
         registered g id = None -> routed g id = Some a ->
         channel_at g a = Some ch ->
         _local_receive id data errortext g
         = (ret tt, set_channel a (Channel.put (Data data) ch) g))
  /\ (registered g id = None -> routed g id = None ->
      _local_receive id data errortext g = (ret tt, g)).
Proof.
  split; [|split].
  - intros cb em Hreg Hquiet. unfold registered in Hreg.
    unfold _local_receive, mbind, mget, ret. cbv beta iota.
    rewrite Hreg. unfold call_callback, mbind, mmodify, ret.
    cbv beta iota. rewrite Hquiet. reflexivity.
  - intros a ch. apply _local_receive_queue.
  - unfold registered, routed. intros Hreg Hrt.
    unfold _local_receive, mbind, mget, ret. cbv beta iota.
    rewrite Hreg, Hrt. reflexivity.
Qed.

Lemma data_dispatch_witness :
  _local_receive 1 (VInt 5) VNone
    (snd (setcallback 0 Examples.quiet_callback None Examples.one_channel))
  = (ret tt,
     set_calls
       (calls (snd (setcallback 0 Examples.quiet_callback None
                      Examples.one_channel))
        ++ [(7%nat, VInt 5)])
       (snd (setcallback 0 Examples.quiet_callback None
               Examples.one_channel)))
  /\ _local_receive 1 (VInt 5) VNone Examples.one_channel
     = (ret tt,
        set_channel 0 (Channel.put (Data (VInt 5)) (Channel.__init__ 1))
          Examples.one_channel)
  /\ _local_receive 9 (VInt 5) VNone Examples.one_channel
     = (ret tt, Examples.one_channel).
Proof.
  split; [|split].
  - exact (proj1 (data_dispatch
                    (snd (setcallback 0 Examples.quiet_callback None
                            Examples.one_channel)) 1 (VInt 5) VNone)
             Examples.quiet_callback None eq_refl eq_refl).
  - exact (proj1 (proj2 (data_dispatch Examples.one_channel 1 (VInt 5) VNone))
             0%nat (Channel.__init__ 1) eq_refl eq_refl eq_refl).
  - exact (proj2 (proj2 (data_dispatch Examples.one_channel 9 (VInt 5) VNone))
             eq_refl eq_refl).
Defined.
End ChannelExtras.
